(** * Atlas14GridMiner: a shallow embedding of [download_noaa_grids.py]

    The development follows the pipeline of the program: zone resolution
    ([find_noaa_zones]), download task generation and retry
    ([get_noaa_grids], [download_and_unzip_noaa_grid]), max-composite
    mosaicking ([mosaic_list_of_rasters], [combine_multiple_zones]), the
    lognormal confidence bounds ([compute_1pct_plus_and_minus],
    [process_confidence_intervals]) and the orchestrator ([process_grids]).

    Python exceptions are values of [exn] carried by [result]; directories are
    lists of named files in listing order; effects on the outside world are
    recorded in explicit traces. *)

From Stdlib Require Import Bool List Arith ZArith Lia Ascii String.
From Stdlib Require Import Reals Lra.
Import ListNotations.

Local Open Scope list_scope.
Local Open Scope string_scope.

(** ** Exceptions and results *)

Inductive exn : Type :=
| ValueError (msg : string)
| IndexError
| StopIteration
| IOError (msg : string).

Inductive result (A : Type) : Type :=
| Ok (a : A)
| Raise (e : exn).
Arguments Ok {A} a.
Arguments Raise {A} e.

Definition is_ok {A} (r : result A) : bool :=
  match r with Ok _ => true | Raise _ => false end.

Definition bind {A B} (r : result A) (k : A -> result B) : result B :=
  match r with Ok a => k a | Raise e => Raise e end.

Notation "x <- r ;; k" := (bind r (fun x => k))
  (at level 61, r at next level, right associativity).

(** ** String helpers *)

Definition str_in (s : string) (l : list string) : bool :=
  existsb (String.eqb s) l.

(** ** Configuration ([Config], lines 29-36) *)

Record Config : Type := mkConfig {
  CHUNK_SIZE : nat;
  MAX_RETRIES : nat;
  TIMEOUT : nat;
  VALID_EVENTS : list string;
  VALID_DURATIONS : list string
}.

Definition default_events : list string :=
  ["1"; "2"; "5"; "10"; "25"; "50"; "100"; "200"; "500"; "1000"].

Definition default_durations : list string :=
  ["05m"; "10m"; "15m"; "30m"; "60m"; "02h"; "03h"; "06h"; "12h"; "24h"].

Definition default_config : Config :=
  mkConfig (1024 * 1024) 3 30 default_events default_durations.

(** [set(l).issubset(valid)] *)
Definition issubset (l valid : list string) : bool :=
  forallb (fun x => str_in x valid) l.

(** ** File names: the glob and regular-expression patterns of the program *)

Module Naming.

Definition is_letter (c : ascii) : bool :=
  let n := nat_of_ascii c in
  (Nat.leb 65 n && Nat.leb n 90) || (Nat.leb 97 n && Nat.leb n 122).

Definition is_digit (c : ascii) : bool :=
  let n := nat_of_ascii c in Nat.leb 48 n && Nat.leb n 57.

Fixpoint all_chars (p : ascii -> bool) (s : string) : bool :=
  match s with
  | EmptyString => true
  | String c rest => p c && all_chars p rest
  end.

(** Strings made of letters and digits only.  The program interpolates the
    event and the duration raw into glob and regular-expression patterns; on
    such strings (all members of VALID_EVENTS and VALID_DURATIONS are) the
    interpolated text is a literal. *)
Definition plain (s : string) : bool :=
  all_chars (fun c => is_letter c || is_digit c) s.

(** [fnmatch] of a name against the pattern ["*" ++ lit]: the name ends
    with [lit]. *)
Fixpoint glob_star (lit name : string) : bool :=
  if String.eqb name lit then true
  else match name with
       | EmptyString => false
       | String _ rest => glob_star lit rest
       end.

(** Python's [$]: the end of the string, or just before a final newline. *)
Definition newline : string := String (ascii_of_nat 10) EmptyString.

Definition at_dollar (lits : list string) (rest : string) : bool :=
  existsb (fun lit => String.eqb rest lit || String.eqb rest (lit ++ newline))
          lits.

(** [re.match("^[a-zA-Z]+(lit1|...|litn)$", name)] for literal alternatives:
    one or more letters, then one of the literals up to [$]. *)
Fixpoint letters_then (lits : list string) (name : string) : bool :=
  match name with
  | EmptyString => false
  | String c rest =>
      is_letter c && (at_dollar lits rest || letters_then lits rest)
  end.

(** ["{e}yr{d}a{ci}.asc"] *)
Definition asc_name (e d ci : string) : string :=
  e ++ "yr" ++ d ++ "a" ++ ci ++ ".asc".

(** [rf"^[a-zA-Z]+{e}yr{d}a{ci}\.asc$"] (lines 278 and 289) *)
Definition re_exact (e d ci : string) (name : string) : bool :=
  letters_then [asc_name e d ci] name.

(** [rf"^[a-zA-Z]+{event}yr{dur}a[ul]?\.asc$"] (line 136) *)
Definition re_mosaic_member (event dur : string) (name : string) : bool :=
  letters_then [asc_name event dur ""; asc_name event dur "u";
                asc_name event dur "l"] name.

End Naming.

(** ** Rasters, directories and the world *)

(** A cell of a raster band: an integer depth in thousandths, or
    not-a-number. *)
Inductive cell : Type :=
| NaN
| Val (z : Z).

Definition cell_eqb (a b : cell) : bool :=
  match a, b with
  | NaN, NaN => true
  | Val x, Val y => Z.eqb x y
  | _, _ => false
  end.

(** Every grid of the publisher lies on one pixel lattice; the affine
    transform of a raster is the lattice position of its upper-left corner
    (columns grow eastwards, rows southwards). *)
Record Transform : Type := mkTransform {
  t_left : Z;
  t_top : Z
}.

Definition transform_eqb (a b : Transform) : bool :=
  Z.eqb (t_left a) (t_left b) && Z.eqb (t_top a) (t_top b).

Record Raster : Type := mkRaster {
  r_height : nat;
  r_width : nat;
  r_transform : Transform;
  r_crs : string;
  r_nodata : option cell;
  r_data : nat -> nat -> cell       (* row, column *)
}.

Inductive File : Type :=
| RasterFile (r : Raster)
| Archive (complete : bool)
| Opaque.

(** A directory: its entries in listing order. *)
Definition Dir : Type := list (string * File).

Definition dir_names (d : Dir) : list string := map fst d.

Definition dir_mem (name : string) (d : Dir) : bool :=
  str_in name (dir_names d).

Fixpoint dir_lookup (name : string) (d : Dir) : option File :=
  match d with
  | [] => None
  | (n, f) :: rest => if String.eqb n name then Some f else dir_lookup name rest
  end.

(** Writing replaces an entry of the same name, or adds a new one. *)
Fixpoint dir_write (name : string) (f : File) (d : Dir) : Dir :=
  match d with
  | [] => [(name, f)]
  | (n, g) :: rest =>
      if String.eqb n name then (n, f) :: rest
      else (n, g) :: dir_write name f rest
  end.

Definition dir_remove (name : string) (d : Dir) : Dir :=
  filter (fun e => negb (String.eqb (fst e) name)) d.

Definition dir_write_all (files : list (string * File)) (d : Dir) : Dir :=
  fold_left (fun acc nf => dir_write (fst nf) (snd nf) acc) files d.

Inductive log_entry : Type :=
| LogInfo (msg : string)
| LogWarning (msg : string)
| LogError (msg : string).

(** What the program does to the outside world, most recent event first. *)
Inductive event : Type :=
| EvLog (l : log_entry)
| EvMkdir (path : string)
| EvReadShapefile (path : string)
| EvHttpGet (url : string)
| EvWriteArchive (name : string)
| EvExtract (name : string)
| EvUnlink (name : string)
| EvSleep (seconds : nat)
| EvWriteRaster (folder name : string).

(** The run directory: [NOAA_grids/] and [NOAA_grids_mosaic/] under the base
    directory ([None]: the directory does not exist), and the trace. *)
Record World : Type := mkWorld {
  grids : option Dir;
  mosaic : option Dir;
  trace : list event
}.

Definition emit (e : event) (w : World) : World :=
  mkWorld (grids w) (mosaic w) (e :: trace w).

Definition log (l : log_entry) (w : World) : World := emit (EvLog l) w.

Definition listing (d : option Dir) : Dir :=
  match d with Some l => l | None => [] end.

(** The warnings logged in a trace, and the rasters written, as
    (folder, name); most recent first. *)
Definition warnings (tr : list event) : list string :=
  flat_map (fun e => match e with
                     | EvLog (LogWarning msg) => [msg]
                     | _ => []
                     end) tr.

Definition rasters_written (tr : list event) : list (string * string) :=
  flat_map (fun e => match e with
                     | EvWriteRaster f n => [(f, n)]
                     | _ => []
                     end) tr.

(** ** ZoneResolver: [NOAAProcessor.find_noaa_zones] (lines 88-127) *)

Module ZoneResolver.

(** [pandas.Series.unique]: distinct values in order of first appearance. *)
Fixpoint unique (l : list string) : list string :=
  match l with
  | [] => []
  | x :: xs => x :: filter (fun y => negb (String.eqb y x)) (unique xs)
  end.

Section Resolver.
(** Geometry, reprojection and the spatial predicate belong to geopandas;
    they are kept abstract. *)
Variable geom : Type.
Variable to_crs : string -> string -> geom -> geom.
Variable unary_union : list geom -> geom.
Variable intersects : geom -> geom -> bool.

Record GeoDataFrame : Type := mkGDF {
  crs : string;
  rows : list (string * geom)      (* (NOAA14_cd, geometry) *)
}.

(** [gpd.read_file]: [None] when the file cannot be read. *)
Variable read_file : string -> option GeoDataFrame.

Definition target_crs : string := "EPSG:4269".

Definition reproject (what : string) (g : GeoDataFrame) (w : World)
  : World * GeoDataFrame :=
  if String.eqb (crs g) target_crs then (w, g)
  else (log (LogInfo ("Converting " ++ what ++ " to " ++ target_crs)) w,
        mkGDF target_crs
          (map (fun r => (fst r, to_crs (crs g) target_crs (snd r)))
               (rows g))).

(** [states_shp.sindex.query(prj_area_union, predicate="intersects")]
    followed by [.iloc[qry]['NOAA14_cd']]. *)
Definition query_codes (states : GeoDataFrame) (area : geom) : list string :=
  map fst (filter (fun r => intersects (snd r) area) (rows states)).

Definition find_noaa_zones (prj_area_shp_path states_shp_path : string)
    (w : World) : World * result (list string) :=
  let w := emit (EvReadShapefile states_shp_path) w in
  match read_file states_shp_path with
  | None => (log (LogError "Error reading shapefiles") w,
             Raise (IOError states_shp_path))
  | Some states_shp =>
    let w := emit (EvReadShapefile prj_area_shp_path) w in
    match read_file prj_area_shp_path with
    | None => (log (LogError "Error reading shapefiles") w,
               Raise (IOError prj_area_shp_path))
    | Some prj_area_shp =>
      let w := log (LogInfo "NOAA Zones shapefile CRS") w in
      let w := log (LogInfo "Project Area shapefile original CRS") w in
      let '(w, states_shp) := reproject "NOAA zones" states_shp w in
      let w :=
        if String.eqb (crs prj_area_shp) target_crs
        then log (LogInfo "Project Area shapefile already in target CRS") w
        else w in
      let '(w, prj_area_shp) :=
        reproject "Project Area shapefile" prj_area_shp w in
      let prj_area_union := unary_union (map snd (rows prj_area_shp)) in
      let zone_list := unique (query_codes states_shp prj_area_union) in
      let w := log (LogInfo "Found intersecting NOAA zones") w in
      (w, Ok (filter (fun z => negb (String.eqb z "Atlas2")) zone_list))
    end
  end.
End Resolver.

End ZoneResolver.

(** ** GridFetcher: [NOAADownloader] and the task list of [get_noaa_grids] *)

Module Fetcher.

(** [(zone, fname, target_folder)] *)
Definition task : Type := (string * string * string)%type.

(** Lines 253-260: the tasks of one zone, event and duration. *)
Definition tasks_for (grids_folder zone event duration : string) (CI_100yr : bool)
  : list task :=
  let base_pattern := zone ++ event ++ "yr" ++ duration ++ "a" in
  (zone, base_pattern ++ ".zip", grids_folder)
  :: (if String.eqb event "100" && CI_100yr
      then [(zone, base_pattern ++ "u.zip", grids_folder);
            (zone, base_pattern ++ "l.zip", grids_folder)]
      else []).

(** The task of archive [{zone}{event}yr{duration}a{s}], written flat. *)
Definition archive_task (folder zone event duration s : string) : task :=
  (zone, zone ++ event ++ "yr" ++ duration ++ "a" ++ s, folder).

(** Lines 249-260. *)
Definition file_tasks (grids_folder : string)
    (zone_list event_list dur_list : list string) (CI_100yr : bool) : list task :=
  flat_map (fun zone =>
    flat_map (fun event =>
      flat_map (fun duration =>
        tasks_for grids_folder zone event duration CI_100yr) dur_list)
      event_list) zone_list.

(** What the remote server and the archive do on one attempt. *)
Inductive attempt_outcome : Type :=
| GetFails                                     (* connection error or HTTP status *)
| StreamFails                                  (* the body breaks off mid-stream *)
| ZipFails (partial : list (string * File))    (* the archive is corrupt *)
| Succeeds (files : list (string * File)).

Definition zipurl (zone fname : string) : string :=
  "https://hdsc.nws.noaa.gov/pub/hdsc/data/" ++ zone ++ "/" ++ fname.

(** [open(downloaded_file, "wb")] after [parent.mkdir(exist_ok=True)]. *)
Definition write_archive (fname : string) (complete : bool) (w : World) : World :=
  mkWorld (Some (dir_write fname (Archive complete) (listing (grids w))))
          (mosaic w) (EvWriteArchive fname :: trace w).

Definition extract (fname : string) (files : list (string * File)) (w : World)
  : World :=
  mkWorld (Some (dir_write_all files (listing (grids w))))
          (mosaic w) (EvExtract fname :: trace w).

Definition unlink (fname : string) (w : World) : World :=
  mkWorld (option_map (dir_remove fname) (grids w))
          (mosaic w) (EvUnlink fname :: trace w).

Definition archive_exists (fname : string) (w : World) : bool :=
  dir_mem fname (listing (grids w)).

(** The waits of a trace, most recent first. *)
Definition sleeps (tr : list event) : list nat :=
  flat_map (fun e => match e with EvSleep n => [n] | _ => [] end) tr.

(** The files unlinked in a trace, most recent first. *)
Definition unlinks (tr : list event) : list string :=
  flat_map (fun e => match e with EvUnlink n => [n] | _ => [] end) tr.

Section Download.
Variable config : Config.
(** The network: what attempt number [n] on a URL meets. *)
Variable net : string -> nat -> attempt_outcome.

(** The [try] block of one attempt (lines 64-74). *)
Definition try_attempt (zone fname : string) (attempt : nat) (w : World)
  : World * result unit :=
  let w := emit (EvHttpGet (zipurl zone fname)) w in
  match net (zipurl zone fname) attempt with
  | GetFails => (w, Raise (IOError "request failed"))
  | StreamFails =>
      (write_archive fname false w, Raise (IOError "stream interrupted"))
  | ZipFails partial =>
      (extract fname partial (write_archive fname true w),
       Raise (IOError "bad zip file"))
  | Succeeds files =>
      (unlink fname (extract fname files (write_archive fname true w)), Ok tt)
  end.

(** The [except] block (lines 76-82): [Some e] re-raises. *)
Definition on_failure (fname : string) (attempt : nat) (e : exn) (w : World)
  : World * option exn :=
  if Nat.eqb attempt (MAX_RETRIES config - 1) then
    let w := log (LogError ("Failed to process " ++ fname)) w in
    let w := if archive_exists fname w then unlink fname w else w in
    (w, Some e)
  else (emit (EvSleep (2 ^ attempt)) w, None).

(** [for attempt in range(MAX_RETRIES)], [remaining] attempts to go. *)
Fixpoint retry_loop (zone fname : string) (remaining attempt : nat) (w : World)
  : World * result unit :=
  match remaining with
  | O => (w, Ok tt)
  | S k =>
      let '(w1, r) := try_attempt zone fname attempt w in
      match r with
      | Ok _ => (w1, Ok tt)
      | Raise e =>
          let '(w2, again) := on_failure fname attempt e w1 in
          match again with
          | Some e' => (w2, Raise e')
          | None => retry_loop zone fname k (S attempt) w2
          end
      end
  end.

Definition download_and_unzip_noaa_grid (args : task) (w : World)
  : World * result unit :=
  let '(zone, fname, _) := args in
  retry_loop zone fname (MAX_RETRIES config) 0 w.

(** [list(executor.map(download, file_tasks))]: the first failure in task
    order is raised once the pool has drained.  Which of the later tasks
    still run after a failure depends on the scheduling of the four workers;
    here they all do. *)
Fixpoint run_downloads (tasks : list task) (w : World) : World * result unit :=
  match tasks with
  | [] => (w, Ok tt)
  | t :: ts =>
      let '(w1, r) := download_and_unzip_noaa_grid t w in
      let '(w2, rs) := run_downloads ts w1 in
      (w2, match r with Ok _ => rs | Raise e => Raise e end)
  end.
End Download.

End Fetcher.

(** ** RasterMosaicker: [mosaic_list_of_rasters] and [combine_multiple_zones] *)

Module Mosaicker.

Definition bottom (r : Raster) : Z := (t_top (r_transform r) + Z.of_nat (r_height r))%Z.
Definition right (r : Raster) : Z := (t_left (r_transform r) + Z.of_nat (r_width r))%Z.

(** The lattice pixel [(row, col)] lies in the footprint of [r]. *)
Definition covers (r : Raster) (row col : Z) : bool :=
  (t_top (r_transform r) <=? row)%Z && (row <? bottom r)%Z &&
  (t_left (r_transform r) <=? col)%Z && (col <? right r)%Z.

(** A band read with [masked=True]: nodata cells are masked out. *)
Definition masked (r : Raster) (i j : nat) : option cell :=
  match r_nodata r with
  | Some n => if cell_eqb (r_data r i j) n then None else Some (r_data r i j)
  | None => Some (r_data r i j)
  end.

(** What [r] contributes at a lattice pixel. *)
Definition sample (r : Raster) (row col : Z) : option cell :=
  if covers r row col
  then masked r (Z.to_nat (row - t_top (r_transform r)))
                (Z.to_nat (col - t_left (r_transform r)))
  else None.

(** [numpy.maximum] on cells. *)
Definition cell_max (a b : cell) : cell :=
  match a, b with
  | Val x, Val y => Val (Z.max x y)
  | _, _ => NaN
  end.

(** The [max] copy rule of the merge: a masked side yields to the other. *)
Definition copy_max (merged new : option cell) : option cell :=
  match merged, new with
  | Some a, Some b => Some (cell_max a b)
  | None, _ => new
  | _, None => merged
  end.

Definition fill_value (first : Raster) : cell :=
  match r_nodata first with Some n => n | None => Val 0 end.

(** Modelled from the spec: [rasterio.merge.merge(sources, method='max')] is
    a library call whose code is not part of the repository.  Following the
    RasterMosaicker section, the output covers the union footprint of the
    inputs and each output pixel is the maximum over the contributing
    (unmasked) source pixels that cover it; a pixel no source contributes to
    holds the nodata value of the first source.  The result is the band and
    the transform, as the call returns them. *)
Definition merge_max (first : Raster) (others : list Raster)
  : (nat * nat * (nat -> nat -> cell)) * Transform :=
  let sources := first :: others in
  let top := fold_left Z.min (map (fun r => t_top (r_transform r)) others)
                       (t_top (r_transform first)) in
  let left := fold_left Z.min (map (fun r => t_left (r_transform r)) others)
                        (t_left (r_transform first)) in
  let bot := fold_left Z.max (map bottom others) (bottom first) in
  let rgt := fold_left Z.max (map right others) (right first) in
  let band := fun i j : nat =>
    match fold_left copy_max
            (map (fun r => sample r (top + Z.of_nat i) (left + Z.of_nat j))%Z
                 sources) None with
    | Some c => c
    | None => fill_value first
    end in
  ((Z.to_nat (bot - top), Z.to_nat (rgt - left), band), mkTransform left top).

(** The unmasked cells the sources hold at a lattice pixel. *)
Definition contributions (sources : list Raster) (row col : Z) : list cell :=
  flat_map (fun r => match sample r row col with
                     | Some c => [c]
                     | None => []
                     end) sources.

(** The cell of [r] at a lattice pixel of its footprint. *)
Definition pixel (r : Raster) (row col : Z) : cell :=
  r_data r (Z.to_nat (row - t_top (r_transform r)))
           (Z.to_nat (col - t_left (r_transform r))).

(** Integer grids, as the publisher's are: no cell is not-a-number. *)
Definition integer_grid (r : Raster) : Prop :=
  forall i j, r_data r i j <> NaN.

(** The raster that lines 144-155 write: the merged band under the
    metadata of the first source, with shape and transform replaced. *)
Definition merged_raster (first : Raster) (others : list Raster) : Raster :=
  let '((height, width, band), transform) := merge_max first others in
  mkRaster height width transform (r_crs first) (r_nodata first) band.

(** [rasterio.open(f)] for reading, in a listed directory. *)
Definition open_raster (d : option Dir) (name : string) : result Raster :=
  match dir_lookup name (listing d) with
  | Some (RasterFile r) => Ok r
  | _ => Raise (IOError name)
  end.

Fixpoint open_all (d : option Dir) (names : list string) : result (list Raster) :=
  match names with
  | [] => Ok []
  | n :: ns =>
      r <- open_raster d n ;;
      rs <- open_all d ns ;;
      Ok (r :: rs)
  end.

Definition write_mosaic (name : string) (r : Raster) (w : World) : World :=
  mkWorld (grids w)
          (Some (dir_write name (RasterFile r) (listing (mosaic w))))
          (EvWriteRaster "NOAA_grids_mosaic" name :: trace w).

(** Lines 130-159.  The paths of [raster_list] are names in [NOAA_grids/],
    whose sibling [NOAA_grids_mosaic/] receives the output. *)
Definition mosaic_list_of_rasters (raster_list : list string)
    (event dur CI : string) (w : World) : World * result unit :=
  match raster_list with
  | [] => (w, Raise IndexError)
  | _ :: _ =>
    let w := mkWorld (grids w) (Some (listing (mosaic w)))
                     (EvMkdir "NOAA_grids_mosaic" :: trace w) in
    if negb (forallb (Naming.re_mosaic_member event dur) raster_list)
    then (w, Raise (ValueError "Unexpected file pattern in raster list"))
    else
      match open_all (grids w) raster_list with
      | Raise e => (w, Raise e)
      | Ok [] => (w, Raise IndexError)
      | Ok (first :: others) =>
          let '((height, width, band), transform) := merge_max first others in
          let meta := mkRaster height width transform (r_crs first)
                               (r_nodata first) band in
          let output_name := "comb" ++ event ++ "yr" ++ dur ++ "a" ++ CI ++ ".asc" in
          (write_mosaic output_name meta w, Ok tt)
      end
  end.

(** The files of one (event, duration, variant) group: the glob of lines 277
    and 288 filtered by the anchored expression of lines 278 and 289. *)
Definition group (d : option Dir) (e dur ci : string) : list string :=
  filter (Naming.re_exact e dur ci)
         (filter (Naming.glob_star (Naming.asc_name e dur ci))
                 (dir_names (listing d))).

Definition mosaic_task : Type := (list string * string * string * string)%type.

(** Lines 270-293. *)
Definition combine_tasks (d : option Dir) (event_list dur_list : list string)
  : list mosaic_task :=
  flat_map (fun e =>
    flat_map (fun dur =>
      let rasters := group d e dur "" in
      ((if Nat.ltb 1 (List.length rasters) then [(rasters, e, dur, "")] else [])
       ++
       (if String.eqb e "100" then
          flat_map (fun ci =>
            let ci_rasters := group d e dur ci in
            if Nat.ltb 1 (List.length ci_rasters)
            then [(ci_rasters, e, dur, ci)] else []) ["u"; "l"]
        else []))%list) dur_list) event_list.

(** Lines 295-303: every submitted task runs; [future.result()] raises the
    first failure in submission order. *)
Fixpoint run_mosaics (tasks : list mosaic_task) (w : World) : World * result unit :=
  match tasks with
  | [] => (w, Ok tt)
  | (rasters, e, d, ci) :: ts =>
      let '(w1, r) := mosaic_list_of_rasters rasters e d ci w in
      let '(w2, rs) := run_mosaics ts w1 in
      (w2, match r with Ok _ => rs | Raise ex => Raise ex end)
  end.

Definition combine_multiple_zones (event_list dur_list : list string) (w : World)
  : World * result unit :=
  run_mosaics (combine_tasks (grids w) event_list dur_list) w.

End Mosaicker.

(** ** ConfidenceIntervalEngine: [compute_1pct_plus_and_minus] and
       [process_confidence_intervals] *)

Module Confidence.

Local Open Scope R_scope.

(** A float of a numpy array: [None] is not-a-number, and a finite value
    is taken as the real number it stands for.  What is read from a file
    and what is written to one is rounded to float32 ([round_f32] below);
    the arithmetic in between, numpy's logarithm and exponential included,
    is taken exact. *)
Definition float : Type := option R.

Record Array : Type := mkArray {
  shape : nat * nat;
  at_ : nat -> nat -> float
}.

Definition map_array (f : float -> float) (a : Array) : Array :=
  mkArray (shape a) (fun i j => f (at_ a i j)).

(** numpy broadcasting of one dimension. *)
Definition bdim (a b : nat) : option nat :=
  if Nat.eqb a b then Some a
  else if Nat.eqb a 1 then Some b
  else if Nat.eqb b 1 then Some a
  else None.

Definition bidx (dim i : nat) : nat := if Nat.eqb dim 1 then O else i.

(** An elementwise binary operation on two arrays, with broadcasting. *)
Definition map2_array (f : float -> float -> float) (a b : Array) : result Array :=
  match bdim (fst (shape a)) (fst (shape b)),
        bdim (snd (shape a)) (snd (shape b)) with
  | Some h, Some w =>
      Ok (mkArray (h, w)
            (fun i j =>
               f (at_ a (bidx (fst (shape a)) i) (bidx (snd (shape a)) j))
                 (at_ b (bidx (fst (shape b)) i) (bidx (snd (shape b)) j))))
  | _, _ => Raise (ValueError "operands could not be broadcast together")
  end.

Definition lift1 (f : R -> R) (x : float) : float := option_map f x.

Definition lift2 (f : R -> R -> R) (x y : float) : float :=
  match x, y with
  | Some a, Some b => Some (f a b)
  | _, _ => None
  end.

(** The float32 nearest to an integer, ties going to the even mantissa:
    integers below 2^24 in magnitude are kept, larger ones lose their low
    bits.  (Magnitudes float32 cannot hold, from 2^128 on, do not occur in
    Int32 grids.) *)
Definition round_f32 (z : Z) : Z :=
  let a := Z.abs z in
  if (a <? 2 ^ 24)%Z then z
  else
    let e := (Z.log2 a - 23)%Z in
    let q := (a / 2 ^ e)%Z in
    let r := (a mod 2 ^ e)%Z in
    let q' := if (2 * r <? 2 ^ e)%Z then q
              else if (2 ^ e <? 2 * r)%Z then (q + 1)%Z
              else if Z.even q then q else (q + 1)%Z in
    (Z.sgn z * (q' * 2 ^ e))%Z.

(** [rast.read(1, out_dtype='float32')]: every cell as a float32. *)
Definition read_band (r : Raster) : Array :=
  mkArray (r_height r, r_width r)
          (fun i j => match r_data r i j with
                      | NaN => None
                      | Val z => Some (IZR (round_f32 z))
                      end).

(** Lines 176-178: [arr[arr <= 0] = np.nan; arr /= 1000.0]. *)
Definition mask_and_scale (x : float) : float :=
  match x with
  | Some v => if Rle_dec v 0 then None else Some (v / 1000)
  | None => None
  end.

(** [np.log]: not-a-number off the positive reals. *)
Definition np_log (x : float) : float :=
  match x with
  | Some v => if Rlt_dec 0 v then Some (ln v) else None
  | None => None
  end.

(** Round half to even, as [np.around] does. *)
Definition around (x : R) : Z :=
  let f := (up x - 1)%Z in
  let d := x - IZR f in
  if Rlt_dec d (1 / 2) then f
  else if Rlt_dec (1 / 2) d then (f + 1)%Z
  else if Z.even f then f else (f + 1)%Z.

(** [np.around(data * 1000, 0).astype(np.float32)]: the band handed to
    [dest.write]. *)
Definition to_cell (x : float) : cell :=
  match x with
  | Some v => Val (round_f32 (around (v * 1000)))
  | None => NaN
  end.

(** The data type GDAL gives an ASCII grid: Int32 when its cells and its
    nodata value are integers (the publisher's grids are), Float32
    otherwise. *)
Definition is_int32 (r : Raster) : bool :=
  forallb (fun i =>
    forallb (fun j => match r_data r i j with Val _ => true | NaN => false end)
            (seq 0 (r_width r)))
    (seq 0 (r_height r))
  && match r_nodata r with Some NaN => false | _ => true end.

Definition int32_min : Z := (- 2 ^ 31)%Z.

(** The cast of a float32 to the data type of the file that is written: in
    an Int32 file not-a-number and every value out of range become the
    minimum of the type (the conversion of x86-64). *)
Definition cast_cell (int32 : bool) (c : cell) : cell :=
  if int32 then
    match c with
    | Val k => if (int32_min <=? k)%Z && (k <? 2 ^ 31)%Z then Val k
               else Val int32_min
    | NaN => Val int32_min
    end
  else c.

Fixpoint rfind_dot (s : string) (pos : nat) : option nat :=
  match s with
  | EmptyString => None
  | String c rest =>
      match rfind_dot rest (S pos) with
      | Some i => Some i
      | None => if Ascii.eqb c "."%char then Some pos else None
      end
  end.

(** [Path(name).stem] *)
Definition stem (name : string) : string :=
  match rfind_dot name 0 with
  | Some i =>
      if Nat.ltb 0 i && Nat.ltb i (String.length name - 1)
      then substring 0 i name else name
  | None => name
  end.

(** The value of [sigma_max] at a pixel (lines 182-184), on reals. *)
Definition sigma_max_at (base lower upper : R) : R :=
  Rmax ((ln base - ln lower) / 1.645) ((ln upper - ln base) / 1.645).

(** The directory the confidence step works in. *)
Inductive folder : Type := NOAA_grids | NOAA_grids_mosaic.

Definition folder_name (f : folder) : string :=
  match f with
  | NOAA_grids => "NOAA_grids"
  | NOAA_grids_mosaic => "NOAA_grids_mosaic"
  end.

Definition folder_dir (f : folder) (w : World) : option Dir :=
  match f with
  | NOAA_grids => grids w
  | NOAA_grids_mosaic => mosaic w
  end.

(** The file written by lines 195-197; GDAL leaves its side file
    [name.aux.xml] next to it. *)
Definition write_raster (f : folder) (name : string) (r : Raster) (w : World)
  : World :=
  let d := Some (dir_write (name ++ ".aux.xml")%string Opaque
                   (dir_write name (RasterFile r) (listing (folder_dir f w)))) in
  match f with
  | NOAA_grids => mkWorld d (mosaic w) (EvWriteRaster (folder_name f) name :: trace w)
  | NOAA_grids_mosaic =>
      mkWorld (grids w) d (EvWriteRaster (folder_name f) name :: trace w)
  end.

Section Engine.
(** [scipy.special.erfinv] *)
Variable erfinv : R -> R.

(** Lines 181-187, on arrays already masked and rescaled; the result is
    [(p_1pct_plus, p_1pct_minus)]. *)
Definition bounds (p_100yr_arr p_lower_arr p_upper_arr : Array)
  : result (Array * Array) :=
  let mu := map_array np_log p_100yr_arr in
  d_lower <- map2_array (lift2 Rminus) mu (map_array np_log p_lower_arr) ;;
  let sigma_lower := map_array (lift1 (fun x => x / 1.645)) d_lower in
  d_upper <- map2_array (lift2 Rminus) (map_array np_log p_upper_arr) mu ;;
  let sigma_upper := map_array (lift1 (fun x => x / 1.645)) d_upper in
  sigma_max <- map2_array (lift2 Rmax) sigma_lower sigma_upper ;;
  let shift := fun p : R =>
    map_array (lift1 (fun s => s * sqrt 2 * erfinv (2 * p - 1))) sigma_max in
  t_minus <- map2_array (lift2 Rplus) mu (shift 0.16) ;;
  let p_1pct_minus := map_array (lift1 exp) t_minus in
  t_plus <- map2_array (lift2 Rplus) mu (shift 0.84) ;;
  let p_1pct_plus := map_array (lift1 exp) t_plus in
  Ok (p_1pct_plus, p_1pct_minus).

(** The position of the band that GDAL copies to position [i] of an axis
    of [n] cells when the band has [m]: [i] itself when [m = n], the
    nearest one otherwise. *)
Definition resample (m n i : nat) : nat :=
  if Nat.eqb m n then i else Nat.div ((2 * i + 1) * m) (2 * n).

(** Lines 194-197 for one suffix: the dataset is created with the metadata
    of the base raster (shape, transform, reference system, data type)
    and the nodata value not-a-number; the band is cast to the data type
    of the file.  A band of another shape is not refused: it is resampled
    onto the raster. *)
Definition band_raster (out_meta : Raster) (data : Array) : Raster :=
  let int32 := is_int32 out_meta in
  mkRaster (r_height out_meta) (r_width out_meta)
           (r_transform out_meta) (r_crs out_meta)
           (Some (cast_cell int32 NaN))
           (fun i j =>
              cast_cell int32
                (to_cell (at_ data
                            (resample (fst (shape data)) (r_height out_meta) i)
                            (resample (snd (shape data)) (r_width out_meta) j)))).

(** [rasterio.open(output_path, "w", **out_meta)] and [dest.write]. *)
Definition save (f : folder) (out_meta : Raster) (name : string) (data : Array)
    (w : World) : World :=
  write_raster f name (band_raster out_meta data) w.

(** The [try] block of lines 166-197. *)
Definition compute_body (f : folder)
    (path_to_100yr path_to_100yr_upper path_to_100yr_lower : string)
    (w : World) : World * result unit :=
  match Mosaicker.open_raster (folder_dir f w) path_to_100yr with
  | Raise e => (w, Raise e)
  | Ok rast =>
    let p_100yr_arr := read_band rast in
    let out_meta := rast in
    match Mosaicker.open_raster (folder_dir f w) path_to_100yr_lower with
    | Raise e => (w, Raise e)
    | Ok rast_l =>
      match Mosaicker.open_raster (folder_dir f w) path_to_100yr_upper with
      | Raise e => (w, Raise e)
      | Ok rast_u =>
        match bounds (map_array mask_and_scale p_100yr_arr)
                     (map_array mask_and_scale (read_band rast_l))
                     (map_array mask_and_scale (read_band rast_u)) with
        | Raise e => (w, Raise e)
        | Ok (p_1pct_plus, p_1pct_minus) =>
          let filename_100yr := stem path_to_100yr in
          let w1 :=
            save f out_meta (filename_100yr ++ "_plus" ++ ".asc")%string
                 p_1pct_plus w in
          (save f out_meta (filename_100yr ++ "_minus" ++ ".asc")%string
                p_1pct_minus w1, Ok tt)
        end
      end
    end
  end.

(** Lines 162-201: any exception is logged and raised again. *)
Definition compute_1pct_plus_and_minus (f : folder)
    (path_to_100yr path_to_100yr_upper path_to_100yr_lower : string)
    (w : World) : World * result unit :=
  let '(w1, r) :=
    compute_body f path_to_100yr path_to_100yr_upper path_to_100yr_lower w in
  match r with
  | Ok _ => (w1, Ok tt)
  | Raise e =>
      (log (LogError "Error in confidence interval computation") w1, Raise e)
  end.

(** [next(grids_folder.glob("*" + lit))] *)
Definition next_glob (d : option Dir) (lit : string) : result string :=
  match filter (Naming.glob_star lit) (dir_names (listing d)) with
  | name :: _ => Ok name
  | [] => Raise StopIteration
  end.

(** The [try] block of lines 311-316. *)
Definition duration_body (f : folder) (dur : string) (w : World)
  : World * result unit :=
  match next_glob (folder_dir f w) ("100yr" ++ dur ++ "a.asc")%string with
  | Raise e => (w, Raise e)
  | Ok base =>
    match next_glob (folder_dir f w) ("100yr" ++ dur ++ "au.asc")%string with
    | Raise e => (w, Raise e)
    | Ok upper =>
      match next_glob (folder_dir f w) ("100yr" ++ dur ++ "al.asc")%string with
      | Raise e => (w, Raise e)
      | Ok lower => compute_1pct_plus_and_minus f base upper lower w
      end
    end
  end.

(** One turn of the loop of lines 309-320, with its two handlers. *)
Definition process_duration (f : folder) (dur : string) (w : World)
  : World * result unit :=
  let '(w1, r) := duration_body f dur w in
  match r with
  | Ok _ => (w1, Ok tt)
  | Raise StopIteration =>
      (log (LogWarning ("Missing files for duration " ++ dur)%string) w1, Ok tt)
  | Raise _ =>
      (log (LogError ("Error processing duration " ++ dur)%string) w1, Ok tt)
  end.

Fixpoint durations_loop (f : folder) (dur_list : list string) (w : World)
  : World * result unit :=
  match dur_list with
  | [] => (w, Ok tt)
  | dur :: rest =>
      let '(w1, r) := process_duration f dur w in
      match r with
      | Ok _ => durations_loop f rest w1
      | Raise e => (w1, Raise e)
      end
  end.

(** Lines 306-320. *)
Definition process_confidence_intervals (f : folder) (dur_list : list string)
    (w : World) : World * result unit :=
  durations_loop f dur_list (log (LogInfo "Computing 1% plus/minus grids") w).
End Engine.

End Confidence.

(** ** Orchestrator: [NOAAGrids.get_noaa_grids] and [NOAAGrids.process_grids] *)

Module Orchestrator.

Section Pipeline.
Variable geom : Type.
Variable to_crs : string -> string -> geom -> geom.
Variable unary_union : list geom -> geom.
Variable intersects : geom -> geom -> bool.
Variable read_file : string -> option (ZoneResolver.GeoDataFrame geom).
Variable config : Config.
Variable net : string -> nat -> Fetcher.attempt_outcome.
Variable erfinv : R -> R.

(** Lines 239-266. *)
Definition get_noaa_grids (base_dir prj_area_shp_path : string)
    (event_list dur_list : list string) (states_shp_path : string)
    (CI_100yr : bool) (w : World) : World * result (list string) :=
  let grids_folder := base_dir ++ "/NOAA_grids" in
  let w := mkWorld (Some (listing (grids w))) (mosaic w)
                   (EvMkdir grids_folder :: trace w) in
  let '(w, r) :=
    ZoneResolver.find_noaa_zones geom to_crs unary_union intersects read_file
      prj_area_shp_path states_shp_path w in
  match r with
  | Raise e => (w, Raise e)
  | Ok zone_list =>
      let w := log (LogInfo "Processing zones") w in
      let file_tasks :=
        Fetcher.file_tasks grids_folder zone_list event_list dur_list CI_100yr in
      let '(w, r) := Fetcher.run_downloads config net file_tasks w in
      match r with
      | Raise e => (w, Raise e)
      | Ok _ => (w, Ok zone_list)
      end
  end.

(** The [try] block of lines 216-233. *)
Definition process_body (base_dir prj_area_shp_path states_shp_path : string)
    (event_list dur_list : list string) (CI_100yr : bool) (w : World)
  : World * result unit :=
  if negb (issubset event_list (VALID_EVENTS config))
  then (w, Raise (ValueError "Invalid events"))
  else if negb (issubset dur_list (VALID_DURATIONS config))
  then (w, Raise (ValueError "Invalid durations"))
  else
    let '(w, r) := get_noaa_grids base_dir prj_area_shp_path event_list
                     dur_list states_shp_path CI_100yr w in
    match r with
    | Raise e => (w, Raise e)
    | Ok zones =>
        let '(w, r, grids_folder) :=
          if Nat.ltb 1 (List.length zones)
          then (Mosaicker.combine_multiple_zones event_list dur_list w,
                Confidence.NOAA_grids_mosaic)
          else ((w, Ok tt), Confidence.NOAA_grids) in
        match r with
        | Raise e => (w, Raise e)
        | Ok _ =>
            if str_in "100" event_list && CI_100yr
            then Confidence.process_confidence_intervals erfinv grids_folder
                   dur_list w
            else (w, Ok tt)
        end
    end.

(** Lines 211-237: a failure is logged and raised again. *)
Definition process_grids (base_dir prj_area_shp_path states_shp_path : string)
    (event_list dur_list : list string) (CI_100yr : bool) (w : World)
  : World * result unit :=
  let '(w1, r) := process_body base_dir prj_area_shp_path states_shp_path
                    event_list dur_list CI_100yr w in
  match r with
  | Ok _ => (w1, Ok tt)
  | Raise e => (log (LogError "Error in grid processing") w1, Raise e)
  end.
End Pipeline.

End Orchestrator.


(** ** Notions used to state the properties of the confidence step *)

Module Invariants.

(** The three role patterns of a duration (lines 311-313). *)
Definition role_patterns (dur : string) : list string :=
  ["100yr" ++ dur ++ "a.asc"; "100yr" ++ dur ++ "au.asc";
   "100yr" ++ dur ++ "al.asc"].

(** No entry of the directory matches ["*" ++ lit]. *)
Definition absent (d : option Dir) (lit : string) : Prop :=
  forall name, In name (dir_names (listing d)) ->
               Naming.glob_star lit name = false.

(** The names of the rasters the confidence step writes. *)
Definition output_name (n : string) : Prop :=
  exists x, n = x ++ "_plus.asc" \/ n = x ++ "_minus.asc".

(** The names of their side files. *)
Definition side_name (n : string) : Prop :=
  exists m, output_name m /\ n = m ++ ".aux.xml".

Definition other_dir (f : Confidence.folder) (w : World) : option Dir :=
  match f with
  | Confidence.NOAA_grids => mosaic w
  | Confidence.NOAA_grids_mosaic => grids w
  end.

(** [w'] comes after [w] in a confidence step on folder [f]: the trace has
    grown, the folder has gained output files and their side files only,
    the other folder is as it was. *)
Record extends (f : Confidence.folder) (w w' : World) : Prop := mkExtends {
  ext_trace : forall ev, In ev (trace w) -> In ev (trace w');
  ext_names : forall n,
      In n (dir_names (listing (Confidence.folder_dir f w'))) ->
      In n (dir_names (listing (Confidence.folder_dir f w)))
      \/ output_name n \/ side_name n;
  ext_other : other_dir f w' = other_dir f w
}.

End Invariants.

(** ** Observations on traces *)

Module Observations.

(** The URLs requested in a trace, most recent first. *)
Definition http_gets (tr : list event) : list string :=
  flat_map (fun e => match e with EvHttpGet u => [u] | _ => [] end) tr.

(** The entries an attempt may unpack into the destination. *)
Definition unpacked (o : Fetcher.attempt_outcome) : list (string * File) :=
  match o with
  | Fetcher.ZipFails partial => partial
  | Fetcher.Succeeds files => files
  | _ => []
  end.

(** A failure that unpacks nothing. *)
Definition clean_failure (o : Fetcher.attempt_outcome) : Prop :=
  o = Fetcher.GetFails \/ o = Fetcher.StreamFails \/ o = Fetcher.ZipFails [].

(** Some attempt allowed by the configuration succeeds on the task. *)
Definition succeeds_within (config : Config)
    (net : string -> nat -> Fetcher.attempt_outcome) (t : Fetcher.task) : Prop :=
  let '(zone, fname, _) := t in
  exists k files, k < MAX_RETRIES config
                  /\ net (Fetcher.zipurl zone fname) k = Fetcher.Succeeds files.

End Observations.

(** ** The frames the zone resolver works on *)

Module ZoneFacts.

Section Frames.
Variable geom : Type.
Variable to_crs : string -> string -> geom -> geom.
Variable unary_union : list geom -> geom.

(** The frame after lines 107-116: reprojected unless already in the target
    reference system. *)
Definition reprojected (g : ZoneResolver.GeoDataFrame geom)
  : ZoneResolver.GeoDataFrame geom :=
  if String.eqb (ZoneResolver.crs geom g) ZoneResolver.target_crs then g
  else ZoneResolver.mkGDF geom ZoneResolver.target_crs
         (map (fun r => (fst r,
                         to_crs (ZoneResolver.crs geom g)
                                ZoneResolver.target_crs (snd r)))
              (ZoneResolver.rows geom g)).

(** The union of the project area after reprojection (line 119). *)
Definition project_union (prj_area_shp : ZoneResolver.GeoDataFrame geom) : geom :=
  unary_union (map snd (ZoneResolver.rows geom (reprojected prj_area_shp))).
End Frames.

End ZoneFacts.

(** ** The events a stage may add to the trace *)

Module Footprint.

(** [w'] has the trace of [w] extended by events that all satisfy [P]. *)
Definition grows_by (P : event -> Prop) (w w' : World) : Prop :=
  exists added, trace w' = (added ++ trace w)%list /\ Forall P added.

(** What the confidence step may do in folder [f]: log, and write rasters
    named [..._plus.asc] or [..._minus.asc] into [f]. *)
Definition confidence_event (f : Confidence.folder) (ev : event) : Prop :=
  match ev with
  | EvLog _ => True
  | EvWriteRaster fo n =>
      fo = Confidence.folder_name f /\ Invariants.output_name n
  | _ => False
  end.


(** The worlds the confidence step can reach from [w] in folder [f]: by
    logging, and by writing rasters named [..._plus.asc] or [..._minus.asc]
    (each with its side file) into [f]. *)
Inductive reach (f : Confidence.folder) (w : World) : World -> Prop :=
| reach_refl : reach f w w
| reach_log w' l : reach f w w' -> reach f w (log l w')
| reach_write w' name r :
    reach f w w' -> Invariants.output_name name ->
    reach f w (Confidence.write_raster f name r w').

End Footprint.

(** ** Names accepted by the mosaic step *)

Module MosaicNames.

(** A name of the shape [letters+ {event}yr{dur}a[ul]?.asc], possibly
    followed by one final newline (which Python's [$] lets through). *)
Definition well_named (event dur name : string) : Prop :=
  exists zone ci,
    zone <> "" /\ Naming.all_chars Naming.is_letter zone = true
    /\ In ci [""; "u"; "l"]
    /\ (name = zone ++ Naming.asc_name event dur ci
        \/ name = zone ++ Naming.asc_name event dur ci ++ Naming.newline).

(** The name is listed in the directory but is not a raster that opens. *)
Definition unreadable (d : option Dir) (name : string) : Prop :=
  forall r, dir_lookup name (listing d) <> Some (RasterFile r).

End MosaicNames.

(** ** Cells that count as missing *)

Module PixelBounds.

(** The cell is missing for the computation: not-a-number or not positive
    (line 177). *)
Definition missing (c : cell) : Prop :=
  match c with NaN => True | Val z => (z <= 0)%Z end.

End PixelBounds.

(** ** numpy broadcasting *)

Module Broadcast.

(** Two lengths of one axis that numpy cannot broadcast together. *)
Definition clash (a b : nat) : Prop := a <> b /\ a <> 1 /\ b <> 1.

End Broadcast.

(** ** The web front end ([streamlit_noaa_ui.py]) *)

Module Frontend.

(** The dictionary returned by [get_user_inputs]; an upload field is [None]
    or a list of uploaded files. *)
Record Inputs (upload : Type) : Type := mkInputs {
  base_dir : string;
  use_builtin_states : bool;
  states_files : option (list upload);
  use_builtin_project : bool;
  prj_area_files : option (list upload);
  events : list string;
  durations : list string;
  ci_100yr : bool
}.
Arguments mkInputs {upload}.
Arguments base_dir {upload}.
Arguments use_builtin_states {upload}.
Arguments states_files {upload}.
Arguments use_builtin_project {upload}.
Arguments prj_area_files {upload}.
Arguments events {upload}.
Arguments durations {upload}.
Arguments ci_100yr {upload}.

(** The dictionary returned by [validate_inputs]. *)
Record Validated : Type := mkValidated {
  valid : bool;
  errors : list string;
  v_base_dir : string;
  states_shp_path : option string;
  prj_area_shp_path : option string;
  event_list : list string;
  dur_list : list string;
  v_ci_100yr : bool;
  temp_paths : list string
}.

(** Python's truth value of an optional path: neither [None] nor empty. *)
Definition truthy (p : option string) : bool :=
  match p with
  | Some s => negb (String.eqb s "")
  | None => false
  end.

(** [sorted(Config.VALID_DURATIONS)]. *)
Definition sorted_durations : list string :=
  ["02h"; "03h"; "05m"; "06h"; "10m"; "12h"; "15m"; "24h"; "30m"; "60m"].

(** [default_events] is [sorted(Config.VALID_EVENTS, key=int)]. *)
Definition invalid_events : string :=
  "Invalid events. Valid options are: " ++ String.concat ", " default_events.

Definition invalid_durations : string :=
  "Invalid durations. Valid options are: "
  ++ String.concat ", " sorted_durations.

Section Validate.
Variable upload : Type.
(** The file system and the helpers of the module, as one call of
    [validate_inputs] sees them: [Path(p).exists()]; [mkdir], with the text
    of the exception when it fails; what the two shapefile finders answer
    during this call ([copy_files_to_single_dir] makes a fresh temporary
    directory each time it is called, and is called at most once per
    label); and [Path(shp).with_suffix('').with_suffix(ext).exists()]. *)
Variable path_exists : string -> bool.
Variable mkdir : string -> option string.
Variable find_builtin_shapefile : string -> option string.
Variable copy_files_to_single_dir : list upload -> string -> option string.
Variable component_exists : string -> string -> bool.
(** [list(s)] of a frozenset: its members in an unspecified order. *)
Variable set_to_list : list string -> list string.

(** Lines 218-226. *)
Definition base_errors (i : Inputs upload) : list string :=
  if String.eqb (base_dir i) "" then ["Base directory is required"]
  else if path_exists (base_dir i) then []
  else match mkdir (base_dir i) with
       | None => []
       | Some e => ["Cannot create base directory: " ++ e]
       end.

(** Lines 229-240 and 243-254, which differ in their texts only: the path,
    the errors and the temporary paths of one shapefile. *)
Definition shapefile (use_builtin : bool) (files : option (list upload))
    (folder shown title label : string)
  : option string * list string * list string :=
  if use_builtin then
    let p := find_builtin_shapefile folder in
    if truthy p then (p, [], [])
    else (p, ["Could not find .shp file in the " ++ shown ++ " folder"], [])
  else
    match files with
    | None | Some [] => (None, [title ++ " shapefile files are required"], [])
    | Some fs =>
        let p := copy_files_to_single_dir fs label in
        match p with
        | Some s =>
            if String.eqb s ""
            then (p, ["Missing .shp file in " ++ title ++ " shapefile upload"],
                  [])
            else (p, [], [s])
        | None =>
            (p, ["Missing .shp file in " ++ title ++ " shapefile upload"], [])
        end
    end.

(** Lines 257-262. *)
Definition component_errors (states prj : option string) : list string :=
  match states, prj with
  | Some s, Some p =>
      if truthy states && truthy prj then
        flat_map
          (fun '(shp_path, label) =>
             flat_map
               (fun ext =>
                  if component_exists shp_path ext then []
                  else ["Missing " ++ ext ++ " file for " ++ label
                        ++ " shapefile"])
               [".shp"; ".shx"; ".dbf"])
          [(s, "NOAA Zones"); (p, "Project Area")]
      else []
  | _, _ => []
  end.

(** Lines 265-277, once for the events and once for the durations. *)
Definition selection (chosen valid_set : list string) (message : string)
  : list string * list string :=
  if str_in "all" chosen then (set_to_list valid_set, [])
  else (chosen, if issubset chosen valid_set then [] else [message]).

(** Lines 210-289. *)
Definition validate_inputs (i : Inputs upload) : Validated :=
  let errors := base_errors i in
  let '(states, e, t1) :=
    shapefile (use_builtin_states i) (states_files i)
              "US_States" "US_States" "NOAA Zones" "noaa_zones" in
  let errors := (errors ++ e)%list in
  let '(prj, e, t2) :=
    shapefile (use_builtin_project i) (prj_area_files i)
              "Project Area" "Project_Area" "Project Area" "project_area" in
  let errors := (errors ++ e)%list in
  let errors := (errors ++ component_errors states prj)%list in
  let '(event_list, e) := selection (events i) default_events invalid_events in
  let errors := (errors ++ e)%list in
  let '(dur_list, e) :=
    selection (durations i) default_durations invalid_durations in
  let errors := (errors ++ e)%list in
  mkValidated (Nat.eqb (List.length errors) 0) errors (base_dir i) states prj
              event_list dur_list (ci_100yr i) (t1 ++ t2)%list.
End Validate.

End Frontend.
(** * Sample inputs *)

(** A zone index on a line: geometries are lists of unit cells, two of them
    intersect when they share a cell. *)
Definition line_intersects (a b : list nat) : bool :=
  existsb (fun x => existsb (Nat.eqb x) b) a.

Definition line_index : ZoneResolver.GeoDataFrame (list nat) :=
  ZoneResolver.mkGDF (list nat) "EPSG:4269"
    [("se", [0; 1; 2]); ("Atlas2", [2; 3]); ("orb", [3; 4]); ("se", [5]);
     ("mw", [9])]%nat.

Definition line_area : ZoneResolver.GeoDataFrame (list nat) :=
  ZoneResolver.mkGDF (list nat) "EPSG:4326" [("", [2]); ("", [3; 5])]%nat.

Definition line_read (path : string) : option (ZoneResolver.GeoDataFrame (list nat)) :=
  if String.eqb path "zones.shp" then Some line_index
  else if String.eqb path "area.shp" then Some line_area
  else None.

Definition empty_world : World := mkWorld None None [].


Definition sample_folder : string := "run/NOAA_grids".

(** A server on which every transfer breaks off mid-stream. *)
Definition broken_net (url : string) (attempt : nat) : Fetcher.attempt_outcome :=
  Fetcher.StreamFails.

(** A raster of constant value on a [height] x [width] window. *)
Definition const_raster (height width : nat) (left top v : Z) : Raster :=
  mkRaster height width (mkTransform left top) "EPSG:4269" (Some (Val (-9)))
           (fun _ _ => Val v).

(** Two zones, the 100-year triples of one duration, and a 1000-year and a
    25-year grid beside them. *)
Definition two_zone_grids : Dir :=
  [("se100yr24ha.asc", RasterFile (const_raster 2 3 0 0 1000));
   ("orb100yr24ha.asc", RasterFile (const_raster 2 3 2 1 900));
   ("se100yr24hau.asc", RasterFile (const_raster 2 3 0 0 1300));
   ("orb100yr24hau.asc", RasterFile (const_raster 2 3 2 1 1200));
   ("se100yr24hal.asc", RasterFile (const_raster 2 3 0 0 700));
   ("orb100yr24hal.asc", RasterFile (const_raster 2 3 2 1 600));
   ("se1000yr24ha.asc", RasterFile (const_raster 2 3 0 0 2000));
   ("se25yr24ha.asc", RasterFile (const_raster 2 3 0 0 500));
   ("se5yr24ha.asc", RasterFile (const_raster 2 3 0 0 300))].

Definition two_zone_world : World := mkWorld (Some two_zone_grids) None [].

(** A mosaic folder that holds the 100-year triple of 24h only. *)
Definition one_duration_mosaic : Dir :=
  [("comb100yr24ha.asc", RasterFile (const_raster 2 3 0 0 1000));
   ("comb100yr24hau.asc", RasterFile (const_raster 2 3 0 0 1300));
   ("comb100yr24hal.asc", RasterFile (const_raster 2 3 0 0 700));
   ("comb100yr06ha.asc", RasterFile (const_raster 2 3 0 0 800));
   ("comb100yr06hal.asc", RasterFile (const_raster 2 3 0 0 600))].

Definition one_duration_world : World :=
  mkWorld (Some two_zone_grids) (Some one_duration_mosaic) [].

(** A triple whose upper raster sits elsewhere on the lattice and whose
    lower raster is a single cell. *)
Definition mismatched_grids : Dir :=
  [("se100yr24ha.asc", RasterFile (const_raster 2 3 0 0 1000));
   ("se100yr24hau.asc", RasterFile (const_raster 2 3 5 7 1300));
   ("se100yr24hal.asc", RasterFile (const_raster 1 1 0 0 700))].

Definition mismatched_world : World := mkWorld (Some mismatched_grids) None [].

(** Two zones of which only one publishes the 06h grids: the archives of
    the other zone for that duration unpack to nothing. *)
Definition patchy_net (url : string) (attempt : nat) : Fetcher.attempt_outcome :=
  if Naming.glob_star "orb100yr06ha.zip" url
     || Naming.glob_star "orb100yr06hau.zip" url
     || Naming.glob_star "orb100yr06hal.zip" url
  then Fetcher.Succeeds []
  else if Naming.glob_star "se100yr06ha.zip" url
  then Fetcher.Succeeds
         [("se100yr06ha.asc", RasterFile (const_raster 2 3 0 0 800))]
  else if Naming.glob_star "se100yr06hau.zip" url
  then Fetcher.Succeeds
         [("se100yr06hau.asc", RasterFile (const_raster 2 3 0 0 1000))]
  else if Naming.glob_star "se100yr06hal.zip" url
  then Fetcher.Succeeds
         [("se100yr06hal.asc", RasterFile (const_raster 2 3 0 0 600))]
  else Fetcher.GetFails.

(** A 100-year triple of single cells that lie closer together than
    float32 can tell apart. *)
Definition close_grids : Dir :=
  [("se100yr24ha.asc", RasterFile (const_raster 1 1 0 0 2000000000));
   ("se100yr24hau.asc", RasterFile (const_raster 1 1 0 0 2000000001));
   ("se100yr24hal.asc", RasterFile (const_raster 1 1 0 0 1999999999))].

Definition close_world : World := mkWorld (Some close_grids) None [].

(** A run directory in which an earlier run has left the 100-year mosaics
    of the duration 06h. *)
Definition stale_mosaic : Dir :=
  [("comb100yr06ha.asc", RasterFile (const_raster 2 3 0 0 800));
   ("comb100yr06hau.asc", RasterFile (const_raster 2 3 0 0 1000));
   ("comb100yr06hal.asc", RasterFile (const_raster 2 3 0 0 600))].

Definition stale_world : World := mkWorld None (Some stale_mosaic) [].

(** A server that answers the third request for an archive. *)
Definition slow_net (url : string) (attempt : nat) : Fetcher.attempt_outcome :=
  match attempt with
  | 0 => Fetcher.GetFails
  | 1 => Fetcher.StreamFails
  | _ => Fetcher.Succeeds
           [("se100yr24ha.asc", RasterFile (const_raster 2 3 0 0 1000))]
  end.

(** A configuration that allows no attempt. *)
Definition no_retry_config : Config :=
  mkConfig (1024 * 1024) 0 30 default_events default_durations.

(** A project area inside the zone "se" alone, and one off every zone. *)
Definition line_read_inside (path : string)
  : option (ZoneResolver.GeoDataFrame (list nat)) :=
  if String.eqb path "zones.shp" then Some line_index
  else if String.eqb path "area.shp"
  then Some (ZoneResolver.mkGDF (list nat) "EPSG:4269" [("", [0%nat])])
  else if String.eqb path "offshore.shp"
  then Some (ZoneResolver.mkGDF (list nat) "EPSG:4269" [("", [7%nat])])
  else None.

(** [NOAA_grids/] with a corrupt member in the 100-year base group. *)
Definition corrupt_grids : Dir :=
  [("se100yr24ha.asc", RasterFile (const_raster 2 3 0 0 1000));
   ("orb100yr24ha.asc", Opaque);
   ("se25yr24ha.asc", RasterFile (const_raster 2 3 0 0 500));
   ("orb25yr24ha.asc", RasterFile (const_raster 2 3 2 1 400))].

Definition corrupt_world : World := mkWorld (Some corrupt_grids) None [].

(** A triple with a hole in the lower raster at (0, 1) and a flat band
    elsewhere in the first row. *)
Definition holed_lower : Raster :=
  mkRaster 2 3 (mkTransform 0 0) "EPSG:4269" (Some (Val (-9)))
           (fun i j => match i, j with
                       | 0, 1 => Val (-9)
                       | 0, _ => Val 1000
                       | _, _ => Val 700
                       end).

Definition flat_upper : Raster :=
  mkRaster 2 3 (mkTransform 0 0) "EPSG:4269" (Some (Val (-9)))
           (fun i j => match i with 0 => Val 1000 | _ => Val 1300 end).

Definition holed_grids : Dir :=
  [("se100yr24ha.asc", RasterFile (const_raster 2 3 0 0 1000));
   ("se100yr24hau.asc", RasterFile flat_upper);
   ("se100yr24hal.asc", RasterFile holed_lower)].

Definition holed_world : World := mkWorld (Some holed_grids) None [].

(** A triple whose upper raster has one row more. *)
Definition tall_grids : Dir :=
  [("se100yr24ha.asc", RasterFile (const_raster 2 3 0 0 1000));
   ("se100yr24hau.asc", RasterFile (const_raster 3 3 0 0 1300));
   ("se100yr24hal.asc", RasterFile (const_raster 2 3 0 0 700))].

Definition tall_world : World := mkWorld (Some tall_grids) None [].

(** A front-end session: the built-in zone index, an uploaded project area,
    every interval chosen together with one that does not exist. *)
Definition ui_builtin (folder : string) : option string :=
  Some (folder ++ "/zones.shp").

Definition ui_copy (files : list string) (label : string) : option string :=
  if str_in "area.shp" files then Some ("/tmp/" ++ label ++ "_k3/area.shp")
  else None.

Definition ui_inputs : Frontend.Inputs string :=
  Frontend.mkInputs "out" true None false
    (Some ["area.shp"; "area.shx"; "area.dbf"]) ["all"; "3"] ["24h"] true.

Definition ui_validate (i : Frontend.Inputs string) : Frontend.Validated :=
  Frontend.validate_inputs string (fun _ => true) (fun _ => None) ui_builtin
    ui_copy (fun _ _ => true) (fun l => rev l) i.
(** * Properties *)

(** ** Strings and lists *)

Lemma str_in_In s l : str_in s l = true <-> In s l.
Proof.
  unfold str_in. rewrite existsb_exists. split.
  - intros [x [Hx He]]. apply String.eqb_eq in He. now subst.
  - intros H. exists s. split; [assumption | apply String.eqb_refl].
Qed.

Lemma issubset_spec l valid :
  issubset l valid = true <-> (forall x, In x l -> In x valid).
Proof.
  unfold issubset. rewrite forallb_forall. split; intros H x Hx.
  - apply str_in_In. now apply H.
  - apply str_in_In. now apply H.
Qed.

Lemma append_nil_r (s : string) : s ++ "" = s.
Proof. induction s as [|c s IH]; simpl; [reflexivity | now rewrite IH]. Qed.

Lemma append_assoc' (a b c : string) : (a ++ b) ++ c = a ++ (b ++ c).
Proof. induction a as [|x a IH]; simpl; [reflexivity | now rewrite IH]. Qed.

Lemma append_inj_l (z a b : string) : z ++ a = z ++ b -> a = b.
Proof.
  induction z as [|c z IH]; simpl; intros H; [assumption|].
  injection H as H. now apply IH.
Qed.

Lemma length_append (a b : string) :
  String.length (a ++ b) = String.length a + String.length b.
Proof. induction a as [|c a IH]; simpl; [reflexivity | now rewrite IH]. Qed.

(** ** ZoneResolver *)

Section ZoneResolverProps.
Import ZoneResolver.

Lemma unique_In x l : In x (unique l) <-> In x l.
Proof.
  induction l as [|y l IH]; simpl; [tauto|].
  rewrite filter_In, IH. split.
  - intros [H | [H _]]; auto.
  - intros [H | H]; [now left|].
    destruct (String.eqb_spec x y) as [E | N]; [left; now subst|].
    right. split; [assumption | reflexivity].
Qed.

Lemma unique_NoDup l : NoDup (unique l).
Proof.
  induction l as [|y l IH]; simpl; constructor.
  - rewrite filter_In. intros [_ H].
    now rewrite String.eqb_refl in H.
  - now apply NoDup_filter.
Qed.

Variable geom : Type.
Variable to_crs : string -> string -> geom -> geom.
Variable unary_union : list geom -> geom.
Variable intersects : geom -> geom -> bool.
Variable read_file : string -> option (GeoDataFrame geom).

(** C8: whatever the project area and the zone index, a zone list returned
    by [find_noaa_zones] holds distinct codes only, and never the reserved
    code Atlas2, whether or not that zone intersects the project area. *)
Theorem find_noaa_zones_distinct_without_sentinel
    (prj_area_shp_path states_shp_path : string) (w w' : World)
    (zones : list string) :
  find_noaa_zones geom to_crs unary_union intersects read_file
    prj_area_shp_path states_shp_path w = (w', Ok zones) ->
  NoDup zones /\ ~ In "Atlas2" zones.
Proof.
  unfold find_noaa_zones.
  destruct (read_file states_shp_path) as [st|]; [|discriminate].
  destruct (read_file prj_area_shp_path) as [pa|]; [|discriminate].
  destruct (reproject _ _ _ st _) as [w1 st'].
  destruct (reproject _ _ _ pa _) as [w2 pa'].
  intros H. injection H as _ H. subst zones. split.
  - apply NoDup_filter, unique_NoDup.
  - rewrite filter_In. intros [_ H]. now rewrite String.eqb_refl in H.
Qed.
End ZoneResolverProps.

Lemma find_noaa_zones_distinct_without_sentinel_witness :
  NoDup ["se"; "orb"] /\ ~ In "Atlas2" ["se"; "orb"].
Proof.
  apply (find_noaa_zones_distinct_without_sentinel (list nat)
           (fun _ _ g => g) (@List.concat nat) line_intersects line_read
           "area.shp" "zones.shp" empty_world
           (fst (ZoneResolver.find_noaa_zones (list nat) (fun _ _ g => g)
                   (@List.concat nat) line_intersects line_read
                   "area.shp" "zones.shp" empty_world))).
  reflexivity.
Defined.

(** ** Orchestrator: entry validation *)

Section ValidationProps.
Variable geom : Type.
Variable to_crs : string -> string -> geom -> geom.
Variable unary_union : list geom -> geom.
Variable intersects : geom -> geom -> bool.
Variable read_file : string -> option (ZoneResolver.GeoDataFrame geom).
Variable config : Config.
Variable net : string -> nat -> Fetcher.attempt_outcome.
Variable erfinv : R -> R.

Lemma issubset_false l valid :
  ~ incl l valid -> issubset l valid = false.
Proof.
  intros H. destruct (issubset l valid) eqn:E; [|reflexivity].
  exfalso. apply H. intros x Hx. now apply (proj1 (issubset_spec l valid) E).
Qed.

(** C7: when the requested events or the requested durations are not a
    subset of the configured enumerations (1 ... 1000 years and 05m ... 24h
    in the default configuration), [process_grids] raises a [ValueError]
    and the world is left as it was but for the error line in the log: no
    directory is created, no shapefile is read, no download is attempted
    and no file is written. *)
Theorem process_grids_rejects_before_io
    (base_dir prj_area_shp_path states_shp_path : string)
    (event_list dur_list : list string) (CI_100yr : bool) (w : World) :
  ~ incl event_list (VALID_EVENTS config)
  \/ ~ incl dur_list (VALID_DURATIONS config) ->
  exists msg,
    Orchestrator.process_grids geom to_crs unary_union intersects read_file
      config net erfinv base_dir prj_area_shp_path states_shp_path
      event_list dur_list CI_100yr w
    = (mkWorld (grids w) (mosaic w)
         (EvLog (LogError "Error in grid processing") :: trace w),
       Raise (ValueError msg)).
Proof.
  intros H. unfold Orchestrator.process_grids, Orchestrator.process_body.
  destruct (issubset event_list (VALID_EVENTS config)) eqn:Ee; simpl.
  - destruct H as [H | H].
    + apply issubset_false in H. congruence.
    + apply issubset_false in H. rewrite H. simpl. now eexists.
  - now eexists.
Qed.
End ValidationProps.

Lemma process_grids_rejects_before_io_witness :
  exists msg,
    Orchestrator.process_grids (list nat) (fun _ _ g => g) (@List.concat nat)
      line_intersects line_read default_config (fun _ _ => Fetcher.GetFails)
      (fun x => x) "run" "area.shp" "zones.shp" ["3"] ["24h"] true empty_world
    = (mkWorld None None [EvLog (LogError "Error in grid processing")],
       Raise (ValueError msg)).
Proof.
  apply (process_grids_rejects_before_io (list nat) (fun _ _ g => g)
           (@List.concat nat) line_intersects line_read default_config
           (fun _ _ => Fetcher.GetFails) (fun x => x)
           "run" "area.shp" "zones.shp" ["3"] ["24h"] true empty_world).
  left. intros H. specialize (H "3" (or_introl eq_refl)).
  simpl in H. repeat (destruct H as [H | H]; [discriminate H|]). exact H.
Defined.

(** ** GridFetcher: the task list *)

Section TaskProps.
Import Fetcher.

Lemma task_eq_dec (x y : task) : {x = y} + {x <> y}.
Proof. repeat decide equality; apply string_dec. Defined.

Lemma count_occ_flat_map_mult {A B : Type}
    (decA : forall x y : A, {x = y} + {x <> y})
    (decB : forall x y : B, {x = y} + {x <> y})
    (f : A -> list B) (l : list A) (a0 : A) (x : B) :
  (forall a, In a l -> a <> a0 -> ~ In x (f a)) ->
  count_occ decB (flat_map f l) x
  = count_occ decA l a0 * count_occ decB (f a0) x.
Proof.
  induction l as [|a l IH]; intros Hother; [reflexivity|].
  cbn [flat_map]. rewrite count_occ_app.
  rewrite IH by (intros b Hb; apply Hother; now right).
  destruct (decA a a0) as [-> | Hne].
  - rewrite count_occ_cons_eq by reflexivity. lia.
  - rewrite count_occ_cons_neq by assumption.
    rewrite (proj1 (count_occ_not_In decB (f a) x)); [lia|].
    apply Hother; [now left | assumption].
Qed.

(** The archive names of the valid events and durations are pairwise
    distinct: checked by enumeration. *)
Lemma archive_names_checked :
  forallb (fun e => forallb (fun d => forallb (fun s =>
    forallb (fun e' => forallb (fun d' => forallb (fun s' =>
      implb (String.eqb (e ++ "yr" ++ d ++ "a" ++ s)
                        (e' ++ "yr" ++ d' ++ "a" ++ s'))
            (String.eqb e e' && String.eqb d d' && String.eqb s s'))
      [".zip"; "u.zip"; "l.zip"]) default_durations) default_events)
    [".zip"; "u.zip"; "l.zip"]) default_durations) default_events = true.
Proof. vm_compute. reflexivity. Qed.

Lemma archive_names_injective (e d s e' d' s' : string) :
  In e default_events -> In d default_durations ->
  In s [".zip"; "u.zip"; "l.zip"] ->
  In e' default_events -> In d' default_durations ->
  In s' [".zip"; "u.zip"; "l.zip"] ->
  e ++ "yr" ++ d ++ "a" ++ s = e' ++ "yr" ++ d' ++ "a" ++ s' ->
  e = e' /\ d = d' /\ s = s'.
Proof.
  intros He Hd Hs He' Hd' Hs' Heq.
  pose proof archive_names_checked as C.
  rewrite forallb_forall in C. specialize (C e He).
  rewrite forallb_forall in C. specialize (C d Hd).
  rewrite forallb_forall in C. specialize (C s Hs).
  rewrite forallb_forall in C. specialize (C e' He').
  rewrite forallb_forall in C. specialize (C d' Hd').
  rewrite forallb_forall in C. specialize (C s' Hs').
  rewrite Heq, String.eqb_refl in C. simpl in C.
  apply andb_true_iff in C. destruct C as [C C3].
  apply andb_true_iff in C. destruct C as [C1 C2].
  apply String.eqb_eq in C1, C2, C3. auto.
Qed.

Lemma tasks_for_eq folder zone event duration CI :
  tasks_for folder zone event duration CI =
  archive_task folder zone event duration ".zip"
  :: (if String.eqb event "100" && CI
      then [archive_task folder zone event duration "u.zip";
            archive_task folder zone event duration "l.zip"]
      else []).
Proof.
  unfold tasks_for, archive_task. rewrite !append_assoc'. reflexivity.
Qed.

Lemma in_tasks_for folder zone event duration CI t :
  In t (tasks_for folder zone event duration CI) ->
  exists s, In s [".zip"; "u.zip"; "l.zip"] /\
            t = archive_task folder zone event duration s.
Proof.
  rewrite tasks_for_eq. intros [H | H].
  - exists ".zip". simpl. auto.
  - destruct (String.eqb event "100" && CI); [|contradiction].
    destruct H as [H | [H | []]].
    + exists "u.zip". simpl. auto.
    + exists "l.zip". simpl. auto.
Qed.

Lemma archive_task_inj folder z e d s z' e' d' s' :
  In e default_events -> In d default_durations ->
  In s [".zip"; "u.zip"; "l.zip"] ->
  In e' default_events -> In d' default_durations ->
  In s' [".zip"; "u.zip"; "l.zip"] ->
  archive_task folder z e d s = archive_task folder z' e' d' s' ->
  z = z' /\ e = e' /\ d = d' /\ s = s'.
Proof.
  intros He Hd Hs He' Hd' Hs' Heq. unfold archive_task in Heq.
  injection Heq as Hz Hn. subst z'. split; [reflexivity|].
  apply append_inj_l in Hn. now apply archive_names_injective.
Qed.
End TaskProps.

Section TaskListProps.
Import Fetcher.

Variable folder : string.
Variables zones events durs : list string.
Variable CI : bool.
Hypothesis events_valid : incl events default_events.
Hypothesis durs_valid : incl durs default_durations.

Lemma in_file_tasks t :
  In t (file_tasks folder zones events durs CI) <->
  exists z e d, In z zones /\ In e events /\ In d durs /\
                In t (tasks_for folder z e d CI).
Proof.
  unfold file_tasks. rewrite in_flat_map. split.
  - intros [z [Hz H]]. rewrite in_flat_map in H. destruct H as [e [He H]].
    rewrite in_flat_map in H. destruct H as [d [Hd H]].
    exists z, e, d. auto.
  - intros [z [e [d [Hz [He [Hd H]]]]]]. exists z. split; [assumption|].
    rewrite in_flat_map. exists e. split; [assumption|].
    rewrite in_flat_map. exists d. auto.
Qed.

(** A task occurs as often as its zone, its event and its duration are
    listed, times its occurrences among the tasks of that triple. *)
Lemma count_in_file_tasks z e d s :
  In e default_events -> In d default_durations ->
  In s [".zip"; "u.zip"; "l.zip"] ->
  count_occ task_eq_dec (file_tasks folder zones events durs CI)
            (archive_task folder z e d s)
  = count_occ string_dec zones z * count_occ string_dec events e
    * count_occ string_dec durs d
    * count_occ task_eq_dec (tasks_for folder z e d CI)
                (archive_task folder z e d s).
Proof.
  intros He Hd Hs. unfold file_tasks.
  rewrite (count_occ_flat_map_mult string_dec task_eq_dec _ zones z).
  2:{ intros z' Hz' Hne H. rewrite in_flat_map in H.
      destruct H as [e' [He' H]]. rewrite in_flat_map in H.
      destruct H as [d' [Hd' H]]. apply in_tasks_for in H.
      destruct H as [s' [Hs' H]]. unfold archive_task in H.
      injection H as H _. congruence. }
  rewrite (count_occ_flat_map_mult string_dec task_eq_dec _ events e).
  2:{ intros e' He' Hne H. rewrite in_flat_map in H.
      destruct H as [d' [Hd' H]]. apply in_tasks_for in H.
      destruct H as [s' [Hs' H]].
      apply archive_task_inj in H; auto. destruct H as [_ [H _]].
      congruence. }
  rewrite (count_occ_flat_map_mult string_dec task_eq_dec _ durs d).
  2:{ intros d' Hd' Hne H. apply in_tasks_for in H.
      destruct H as [s' [Hs' H]].
      apply archive_task_inj in H; auto. destruct H as [_ [_ [H _]]].
      congruence. }
  lia.
Qed.

Lemma count_in_tasks_for z e d :
  count_occ task_eq_dec (tasks_for folder z e d CI)
            (archive_task folder z e d ".zip") = 1
  /\ count_occ task_eq_dec (tasks_for folder z e d CI)
                (archive_task folder z e d "u.zip")
     = (if String.eqb e "100" && CI then 1 else 0)
  /\ count_occ task_eq_dec (tasks_for folder z e d CI)
                (archive_task folder z e d "l.zip")
     = (if String.eqb e "100" && CI then 1 else 0).
Proof.
  rewrite tasks_for_eq.
  assert (Hab : forall s s', s <> s' ->
            archive_task folder z e d s <> archive_task folder z e d s').
  { intros s s' Hne H. unfold archive_task in H. injection H as H.
    apply append_inj_l in H. apply append_inj_l in H.
    simpl in H. injection H as H. apply append_inj_l in H.
    injection H as H. contradiction. }
  destruct (String.eqb e "100" && CI); cbn [count_occ].
  + repeat match goal with
      | |- context [task_eq_dec ?a ?b] =>
          destruct (task_eq_dec a b) as [E | E];
          [try (exfalso; revert E; apply Hab; discriminate)
          | try (exfalso; apply E; reflexivity)]; try clear E
      end; auto.
  + repeat match goal with
      | |- context [task_eq_dec ?a ?b] =>
          destruct (task_eq_dec a b) as [E | E];
          [try (exfalso; revert E; apply Hab; discriminate)
          | try (exfalso; apply E; reflexivity)]; try clear E
      end; auto.
Qed.

(** C5, as the code has it: for valid events and durations, the task list
    of [get_noaa_grids] holds the base archive
    [{zone}{event}yr{duration}a.zip] of a zone, an event and a duration as
    many times as the three are listed (the product of their numbers of
    occurrences in the zone, event and duration lists: once when each is
    listed once, never when one is not listed); it holds the upper
    ([...au.zip]) and lower ([...al.zip]) archives as many times when the
    event is "100" and confidence intervals are requested, and not at all
    otherwise; and it holds no other task. *)
Theorem file_tasks_exact :
  (forall z e d, In e default_events -> In d default_durations ->
     let n := count_occ string_dec zones z * count_occ string_dec events e
              * count_occ string_dec durs d in
     count_occ task_eq_dec (file_tasks folder zones events durs CI)
               (z, z ++ e ++ "yr" ++ d ++ "a.zip", folder) = n
     /\ count_occ task_eq_dec (file_tasks folder zones events durs CI)
                  (z, z ++ e ++ "yr" ++ d ++ "au.zip", folder)
        = (if String.eqb e "100" && CI then n else 0)
     /\ count_occ task_eq_dec (file_tasks folder zones events durs CI)
                  (z, z ++ e ++ "yr" ++ d ++ "al.zip", folder)
        = (if String.eqb e "100" && CI then n else 0))
  /\
  (forall t, In t (file_tasks folder zones events durs CI) ->
     exists z e d, In z zones /\ In e events /\ In d durs /\
       (t = (z, z ++ e ++ "yr" ++ d ++ "a.zip", folder)
        \/ (e = "100" /\ CI = true /\
            (t = (z, z ++ e ++ "yr" ++ d ++ "au.zip", folder)
             \/ t = (z, z ++ e ++ "yr" ++ d ++ "al.zip", folder))))).
Proof.
  split.
  - intros z e d He Hd n.
    change (z, z ++ e ++ "yr" ++ d ++ "a.zip", folder)
      with (archive_task folder z e d ".zip").
    change (z, z ++ e ++ "yr" ++ d ++ "au.zip", folder)
      with (archive_task folder z e d "u.zip").
    change (z, z ++ e ++ "yr" ++ d ++ "al.zip", folder)
      with (archive_task folder z e d "l.zip").
    rewrite !count_in_file_tasks by (simpl; auto).
    destruct (count_in_tasks_for z e d) as [-> [-> ->]]. fold n.
    destruct (String.eqb e "100" && CI); lia.
  - intros t Ht. apply in_file_tasks in Ht.
    destruct Ht as [z [e [d [Hz [He [Hd H]]]]]].
    exists z, e, d. repeat (split; [assumption|]).
    rewrite tasks_for_eq in H. destruct H as [H | H].
    + left. now subst t.
    + destruct (String.eqb e "100") eqn:E100; simpl in H; [|contradiction].
      destruct CI; simpl in H; [|contradiction].
      apply String.eqb_eq in E100. right. repeat split; auto.
      destruct H as [H | [H | []]]; subst t; auto.
Qed.
End TaskListProps.

(** Two zones, the events 100 and 25 and one duration, each listed once:
    every archive is requested once. *)
Lemma file_tasks_exact_witness :
  let T := Fetcher.file_tasks sample_folder ["se"; "orb"] ["100"; "25"] ["24h"] true in
  count_occ task_eq_dec T ("orb", "orb100yr24ha.zip", sample_folder) = 1
  /\ count_occ task_eq_dec T ("orb", "orb100yr24hau.zip", sample_folder) = 1
  /\ count_occ task_eq_dec T ("se", "se25yr24hal.zip", sample_folder) = 0.
Proof.
  assert (Ve : incl ["100"; "25"] default_events).
  { intros x Hx. simpl in *. intuition. }
  assert (Vd : incl ["24h"] default_durations).
  { intros x Hx. simpl in *. intuition. }
  destruct (file_tasks_exact sample_folder ["se"; "orb"] ["100"; "25"] ["24h"]
              true Ve Vd) as [Hc _].
  intros T. split; [|split].
  - apply (Hc "orb" "100" "24h"); simpl; auto 12.
  - apply (Hc "orb" "100" "24h"); simpl; auto 12.
  - apply (Hc "se" "25" "24h"); simpl; auto 12.
Defined.

(** C5, as stated, fails: the entry check accepts an event that is listed
    twice, and the base archive of that event is then requested twice. *)
Lemma repeated_event_repeats_tasks :
  issubset ["100"; "100"] default_events = true
  /\ count_occ task_eq_dec
       (Fetcher.file_tasks sample_folder ["se"] ["100"; "100"] ["24h"] true)
       ("se", "se100yr24ha.zip", sample_folder) = 2.
Proof. split; vm_compute; reflexivity. Qed.

(** ** GridFetcher: retry and cleanup *)

Section DownloadProps.
Import Fetcher.

Lemma dir_mem_remove name d : dir_mem name (dir_remove name d) = false.
Proof.
  unfold dir_mem, dir_remove, dir_names.
  destruct (str_in name (map fst (filter _ d))) eqn:E; [|reflexivity].
  apply str_in_In in E. apply in_map_iff in E.
  destruct E as [[n f] [Hn Hin]]. simpl in Hn. subst n.
  apply filter_In in Hin. destruct Hin as [_ Hin]. simpl in Hin.
  now rewrite String.eqb_refl in Hin.
Qed.

Lemma archive_exists_unlink fname w :
  archive_exists fname (unlink fname w) = false.
Proof.
  unfold archive_exists, unlink. simpl.
  destruct (grids w) as [d|]; simpl; [apply dir_mem_remove | reflexivity].
Qed.

Variable config : Config.
Variable net : string -> nat -> attempt_outcome.

Lemma try_attempt_sleeps zone fname attempt w :
  sleeps (trace (fst (try_attempt net zone fname attempt w))) = sleeps (trace w).
Proof.
  unfold try_attempt. destruct (net _ attempt); reflexivity.
Qed.

Lemma try_attempt_fails zone fname attempt w :
  (forall files, net (zipurl zone fname) attempt <> Succeeds files) ->
  exists e, snd (try_attempt net zone fname attempt w) = Raise e.
Proof.
  intros H. unfold try_attempt.
  destruct (net _ attempt) eqn:E; simpl; try (eexists; reflexivity).
  exfalso. now apply (H files).
Qed.

(** The last handler: the archive is gone and the failure raised again. *)
Lemma on_failure_last fname attempt e w :
  attempt = MAX_RETRIES config - 1 ->
  exists w', on_failure config fname attempt e w = (w', Some e)
             /\ archive_exists fname w' = false
             /\ sleeps (trace w') = sleeps (trace w).
Proof.
  intros ->. unfold on_failure. rewrite Nat.eqb_refl.
  destruct (archive_exists fname (log _ w)) eqn:E.
  - eexists. split; [reflexivity|]. split.
    + apply archive_exists_unlink.
    + reflexivity.
  - eexists. split; [reflexivity|]. split; [exact E | reflexivity].
Qed.

(** An earlier handler: nothing is deleted, the loop sleeps [2 ^ attempt]. *)
Lemma on_failure_early fname attempt e w :
  attempt <> MAX_RETRIES config - 1 ->
  on_failure config fname attempt e w
  = (mkWorld (grids w) (mosaic w) (EvSleep (2 ^ attempt) :: trace w), None).
Proof.
  intros H. unfold on_failure.
  apply Nat.eqb_neq in H. rewrite H. reflexivity.
Qed.

Lemma retry_loop_exhausted zone fname :
  forall remaining attempt w,
    0 < remaining ->
    attempt + remaining = MAX_RETRIES config ->
    (forall k files, k < MAX_RETRIES config ->
                     net (zipurl zone fname) k <> Succeeds files) ->
    exists w' e,
      retry_loop config net zone fname remaining attempt w = (w', Raise e)
      /\ archive_exists fname w' = false
      /\ sleeps (trace w')
         = (rev (map (Nat.pow 2) (seq attempt (remaining - 1)))
            ++ sleeps (trace w))%list.
Proof.
  induction remaining as [|k IH]; intros attempt w Hpos Hsum Hnet; [lia|].
  simpl retry_loop.
  destruct (try_attempt net zone fname attempt w) as [w1 r] eqn:Et.
  destruct (try_attempt_fails zone fname attempt w) as [e He].
  { intros files. apply Hnet. lia. }
  rewrite Et in He. simpl in He. subst r.
  pose proof (try_attempt_sleeps zone fname attempt w) as Hs.
  rewrite Et in Hs. simpl in Hs.
  destruct k as [|k].
  - destruct (on_failure_last fname attempt e w1) as [w' [Ho [Ha Hsl]]]; [lia|].
    rewrite Ho. exists w', e. split; [reflexivity|]. split; [assumption|].
    simpl. congruence.
  - rewrite on_failure_early by lia.
    destruct (IH (S attempt)
                (mkWorld (grids w1) (mosaic w1)
                         (EvSleep (2 ^ attempt) :: trace w1)))
      as [w' [e' [Hr [Ha Hsl]]]]; [lia | lia | assumption |].
    exists w', e'. split; [exact Hr|]. split; [assumption|].
    rewrite Hsl. cbn [trace sleeps flat_map].
    replace (S (S k) - 1) with (S (S k - 1)) by lia.
    cbn [seq map rev]. rewrite <- app_assoc.
    fold (sleeps (trace w1)). now rewrite Hs.
Qed.

(** C4, as the code has it: with at least one attempt allowed and a server
    on which every attempt fails, [download_and_unzip_noaa_grid] raises,
    leaves no archive of that name in the destination, and has slept
    1, 2, ..., 2^(MAX_RETRIES - 2) seconds, once between consecutive
    attempts; a failed attempt other than the last deletes nothing (it
    only sleeps [2 ^ attempt]), the deletion being the last handler's. *)
Theorem download_exhausted_cleans_up (zone fname target : string) (w : World) :
  0 < MAX_RETRIES config ->
  (forall k files, k < MAX_RETRIES config ->
                   net (zipurl zone fname) k <> Succeeds files) ->
  (exists w' e,
     download_and_unzip_noaa_grid config net (zone, fname, target) w
     = (w', Raise e)
     /\ archive_exists fname w' = false
     /\ sleeps (trace w')
        = (rev (map (Nat.pow 2) (seq 0 (MAX_RETRIES config - 1)))
           ++ sleeps (trace w))%list)
  /\ (forall attempt e w1,
        attempt <> MAX_RETRIES config - 1 ->
        on_failure config fname attempt e w1
        = (mkWorld (grids w1) (mosaic w1) (EvSleep (2 ^ attempt) :: trace w1),
           None)).
Proof.
  intros Hpos Hnet. split.
  - unfold download_and_unzip_noaa_grid.
    apply retry_loop_exhausted; auto.
  - intros attempt e w1 H. now apply on_failure_early.
Qed.
End DownloadProps.

Lemma download_exhausted_cleans_up_witness :
  exists w' e,
    Fetcher.download_and_unzip_noaa_grid default_config broken_net
      ("se", "se100yr24ha.zip", sample_folder) empty_world = (w', Raise e)
    /\ Fetcher.archive_exists "se100yr24ha.zip" w' = false
    /\ Fetcher.sleeps (trace w') = [2; 1].
Proof.
  destruct (download_exhausted_cleans_up default_config broken_net
              "se" "se100yr24ha.zip" sample_folder empty_world)
    as [[w' [e [H1 [H2 H3]]]] _].
  - simpl. lia.
  - intros k files _. unfold broken_net. discriminate.
  - exists w', e. auto.
Defined.

(** C4, as stated, fails: with the default three attempts, the first attempt
    breaks off mid-stream; when its handler has run the partial archive is
    still in the destination, nothing has been unlinked, and the loop is
    sleeping. *)
Lemma failed_attempt_keeps_partial_archive :
  let '(w1, r) := Fetcher.try_attempt broken_net "se" "se100yr24ha.zip" 0
                    empty_world in
  let '(w2, again) := Fetcher.on_failure default_config "se100yr24ha.zip" 0
                        (IOError "stream interrupted") w1 in
  r = Raise (IOError "stream interrupted")
  /\ again = None
  /\ Fetcher.archive_exists "se100yr24ha.zip" w2 = true
  /\ Fetcher.unlinks (trace w2) = []
  /\ Fetcher.sleeps (trace w2) = [1].
Proof. vm_compute. repeat split; reflexivity. Qed.

(** ** File name patterns *)

Section NamingProps.
Import Naming.

Lemma glob_star_spec lit name :
  glob_star lit name = true <-> exists p, name = p ++ lit.
Proof.
  induction name as [|c name IH]; cbn [glob_star].
  - split.
    + destruct (String.eqb_spec "" lit) as [E | N]; [|discriminate].
      intros _. exists "". now rewrite <- E.
    + intros [p H]. destruct p; [|discriminate].
      simpl in H. subst lit. reflexivity.
  - destruct (String.eqb_spec (String c name) lit) as [E | N].
    + split; [|reflexivity]. intros _. exists "". now rewrite <- E.
    + rewrite IH. split.
      * intros [p H]. exists (String c p). simpl. now rewrite H.
      * intros [p H]. destruct p as [|c' p].
        -- simpl in H. congruence.
        -- simpl in H. injection H as _ H. now exists p.
Qed.

Lemma at_dollar_spec lits rest :
  at_dollar lits rest = true <->
  exists lit, In lit lits /\ (rest = lit \/ rest = lit ++ newline).
Proof.
  unfold at_dollar. rewrite existsb_exists. split.
  - intros [lit [Hin H]]. exists lit. split; [assumption|].
    apply orb_true_iff in H. destruct H as [H | H];
      apply String.eqb_eq in H; auto.
  - intros [lit [Hin H]]. exists lit. split; [assumption|].
    apply orb_true_iff. destruct H as [-> | ->];
      [left | right]; apply String.eqb_refl.
Qed.

Lemma letters_then_spec lits name :
  letters_then lits name = true <->
  exists zone lit,
    zone <> "" /\ all_chars is_letter zone = true /\ In lit lits
    /\ (name = zone ++ lit \/ name = zone ++ lit ++ newline).
Proof.
  induction name as [|c name IH]; simpl.
  - split; [discriminate|].
    intros [zone [lit [Hne [_ [_ H]]]]].
    destruct zone; [contradiction|]. destruct H; discriminate.
  - rewrite andb_true_iff, orb_true_iff, at_dollar_spec, IH. split.
    + intros [Hc [[lit [Hin H]] | [zone [lit [Hne [Hl [Hin H]]]]]]].
      * exists (String c ""), lit. simpl. rewrite Hc.
        repeat split; try assumption; try discriminate.
        destruct H as [-> | ->]; auto.
      * exists (String c zone), lit. simpl. rewrite Hc, Hl.
        repeat split; try assumption; try discriminate.
        destruct H as [-> | ->]; auto.
    + intros [zone [lit [Hne [Hl [Hin H]]]]].
      destruct zone as [|c' zone]; [contradiction|].
      simpl in Hl. apply andb_true_iff in Hl. destruct Hl as [Hc Hl].
      assert (c = c' /\ (name = zone ++ lit \/ name = zone ++ lit ++ newline))
        as [-> Hn].
      { destruct H as [H | H]; simpl in H; injection H as -> ->; auto. }
      split; [assumption|].
      destruct zone as [|c'' zone].
      * left. exists lit. auto.
      * right. exists (String c'' zone), lit.
        repeat split; try assumption; discriminate.
Qed.

Lemma append_same_length_suffix (a b x y : string) :
  a ++ x = b ++ y -> String.length x = String.length y -> a = b /\ x = y.
Proof.
  revert b. induction a as [|c a IH]; intros b H Hl.
  - destruct b as [|c' b]; [auto|].
    simpl in H. subst x. simpl in Hl. rewrite length_append in Hl. lia.
  - destruct b as [|c' b].
    + simpl in H. subst y. simpl in Hl. rewrite length_append in Hl. lia.
    + simpl in H. injection H as -> H.
      destruct (IH b H Hl) as [-> ->]. auto.
Qed.

Lemma asc_name_last e d ci :
  asc_name e d ci = (e ++ "yr" ++ d ++ "a" ++ ci ++ ".as") ++ "c".
Proof. unfold asc_name. rewrite !append_assoc'. reflexivity. Qed.

(** The glob and the anchored expression together: the name is a
    non-empty run of letters followed by exactly the literal. *)
Lemma exact_member e d ci name :
  glob_star (asc_name e d ci) name = true /\ re_exact e d ci name = true <->
  exists zone, zone <> "" /\ all_chars is_letter zone = true
               /\ name = zone ++ asc_name e d ci.
Proof.
  unfold re_exact. rewrite glob_star_spec, letters_then_spec. split.
  - intros [[p Hp] [zone [lit [Hne [Hl [Hin H]]]]]].
    destruct Hin as [<- | []]. exists zone. repeat split; auto.
    destruct H as [H | H]; [assumption|]. exfalso.
    rewrite H in Hp. rewrite asc_name_last in Hp.
    rewrite <- !append_assoc' in Hp.
    apply append_same_length_suffix in Hp; [|reflexivity].
    destruct Hp as [_ Hp]. discriminate.
  - intros [zone [Hne [Hl ->]]]. split.
    + now exists zone.
    + exists zone, (asc_name e d ci). simpl. auto.
Qed.

(** Two letter prefixes followed by non-letters agree. *)
Lemma letters_prefix_unique z z' c a c' b :
  all_chars is_letter z = true -> all_chars is_letter z' = true ->
  is_letter c = false -> is_letter c' = false ->
  z ++ String c a = z' ++ String c' b -> z = z' /\ String c a = String c' b.
Proof.
  revert z'. induction z as [|x z IH]; intros z' Hz Hz' Hc Hc' H.
  - destruct z' as [|x' z']; [auto|].
    simpl in H. injection H as -> _. simpl in Hz'.
    rewrite Hc in Hz'. discriminate.
  - destruct z' as [|x' z'].
    + simpl in H. injection H as -> _. simpl in Hz.
      rewrite Hc' in Hz. discriminate.
    + simpl in H. injection H as -> H.
      simpl in Hz, Hz'. apply andb_true_iff in Hz, Hz'.
      destruct (IH z' (proj2 Hz) (proj2 Hz') Hc Hc' H) as [-> ->]. auto.
Qed.

(** The raster names of the valid events, durations and variants start
    with a digit and are pairwise distinct: checked by enumeration. *)
Lemma raster_names_checked :
  forallb (fun e => forallb (fun d => forallb (fun s =>
    match asc_name e d s with
    | EmptyString => false
    | String c _ => negb (is_letter c)
    end &&
    forallb (fun e' => forallb (fun d' => forallb (fun s' =>
      implb (String.eqb (asc_name e d s) (asc_name e' d' s'))
            (String.eqb e e' && String.eqb d d' && String.eqb s s'))
      [""; "u"; "l"]) default_durations) default_events)
    [""; "u"; "l"]) default_durations) default_events = true.
Proof. vm_compute. reflexivity. Qed.

Lemma raster_name_head e d s :
  In e default_events -> In d default_durations -> In s [""; "u"; "l"] ->
  exists c rest, asc_name e d s = String c rest /\ is_letter c = false.
Proof.
  intros He Hd Hs. pose proof raster_names_checked as C.
  rewrite forallb_forall in C. specialize (C e He).
  rewrite forallb_forall in C. specialize (C d Hd).
  rewrite forallb_forall in C. specialize (C s Hs).
  apply andb_true_iff in C. destruct C as [C _].
  destruct (asc_name e d s) as [|c rest]; [discriminate|].
  exists c, rest. split; [reflexivity|]. now apply negb_true_iff.
Qed.

Lemma raster_names_injective e d s e' d' s' :
  In e default_events -> In d default_durations -> In s [""; "u"; "l"] ->
  In e' default_events -> In d' default_durations -> In s' [""; "u"; "l"] ->
  asc_name e d s = asc_name e' d' s' -> e = e' /\ d = d' /\ s = s'.
Proof.
  intros He Hd Hs He' Hd' Hs' Heq. pose proof raster_names_checked as C.
  rewrite forallb_forall in C. specialize (C e He).
  rewrite forallb_forall in C. specialize (C d Hd).
  rewrite forallb_forall in C. specialize (C s Hs).
  apply andb_true_iff in C. destruct C as [_ C].
  rewrite forallb_forall in C. specialize (C e' He').
  rewrite forallb_forall in C. specialize (C d' Hd').
  rewrite forallb_forall in C. specialize (C s' Hs').
  rewrite Heq, String.eqb_refl in C. simpl in C.
  apply andb_true_iff in C. destruct C as [C C3].
  apply andb_true_iff in C. destruct C as [C1 C2].
  apply String.eqb_eq in C1, C2, C3. auto.
Qed.
End NamingProps.

(** ** Directories *)

Lemma dir_names_write name f d n :
  In n (dir_names (dir_write name f d)) <-> n = name \/ In n (dir_names d).
Proof.
  unfold dir_names. induction d as [|[m g] d IH]; simpl.
  - intuition.
  - destruct (String.eqb_spec m name) as [E | N]; simpl.
    + subst m. intuition.
    + rewrite IH. intuition.
Qed.

Lemma dir_mem_In name d : dir_mem name d = true <-> In name (dir_names d).
Proof. unfold dir_mem. apply str_in_In. Qed.

(** ** RasterMosaicker: groups and tasks *)

Section GroupProps.
Import Naming Mosaicker.

Lemma group_spec d e dur ci name :
  In name (group d e dur ci) <->
  In name (dir_names (listing d))
  /\ exists zone, zone <> "" /\ all_chars is_letter zone = true
                  /\ name = zone ++ asc_name e dur ci.
Proof.
  unfold group. rewrite !filter_In, <- exact_member. tauto.
Qed.

Lemma ltb_1_length {A} (l : list A) :
  Nat.ltb 1 (List.length l) = true <-> 2 <= List.length l.
Proof. rewrite Nat.ltb_lt. lia. Qed.

Lemma combine_tasks_spec d event_list dur_list rasters e dur ci :
  In (rasters, e, dur, ci) (combine_tasks d event_list dur_list) <->
  In e event_list /\ In dur dur_list
  /\ (ci = "" \/ (e = "100" /\ (ci = "u" \/ ci = "l")))
  /\ rasters = group d e dur ci /\ 2 <= List.length rasters.
Proof.
  unfold combine_tasks. rewrite in_flat_map. split.
  - intros [e' [He H]]. rewrite in_flat_map in H.
    destruct H as [d' [Hd H]]. apply in_app_or in H. destruct H as [H | H].
    + destruct (Nat.ltb 1 (List.length (group d e' d' ""))) eqn:L;
        [|contradiction].
      destruct H as [H | []]. injection H as <- <- <- <-.
      apply ltb_1_length in L. auto 6.
    + destruct (String.eqb_spec e' "100") as [E | N]; [|contradiction].
      simpl in H. rewrite app_nil_r in H. apply in_app_or in H.
      destruct H as [H | H].
      * destruct (Nat.ltb 1 (List.length (group d e' d' "u"))) eqn:L;
          [|contradiction].
        destruct H as [H | []]. injection H as <- <- <- <-.
        apply ltb_1_length in L. auto 8.
      * destruct (Nat.ltb 1 (List.length (group d e' d' "l"))) eqn:L;
          [|contradiction].
        destruct H as [H | []]. injection H as <- <- <- <-.
        apply ltb_1_length in L. auto 8.
  - intros [He [Hd [Hci [-> L]]]]. apply ltb_1_length in L.
    exists e. split; [assumption|]. rewrite in_flat_map.
    exists dur. split; [assumption|]. apply in_or_app.
    destruct Hci as [-> | [-> [-> | ->]]].
    + left. rewrite L. now left.
    + right. simpl. rewrite app_nil_r. apply in_or_app. left.
      rewrite L. now left.
    + right. simpl. rewrite app_nil_r. apply in_or_app. right.
      rewrite L. now left.
Qed.

Lemma mosaic_list_grids rasters e d ci w :
  grids (fst (mosaic_list_of_rasters rasters e d ci w)) = grids w.
Proof.
  unfold mosaic_list_of_rasters. destruct rasters as [|r rs]; [reflexivity|].
  destruct (negb _); [reflexivity|]. cbn [grids].
  destruct (open_all _ _) as [[|first others] | ex]; try reflexivity.
Qed.

Lemma run_mosaics_grids tasks :
  forall w, grids (fst (run_mosaics tasks w)) = grids w.
Proof.
  induction tasks as [|[[[rasters e] d] ci] ts IH]; intros w; [reflexivity|].
  simpl. pose proof (mosaic_list_grids rasters e d ci w) as H1.
  destruct (mosaic_list_of_rasters rasters e d ci w) as [w1 r].
  pose proof (IH w1) as H2.
  destruct (run_mosaics ts w1) as [w2 rs]. simpl in *. congruence.
Qed.

(** What a mosaic call leaves in [NOAA_grids_mosaic/]: the names that were
    there, and its own output when it succeeds. *)
Lemma mosaic_list_names rasters e d ci w name :
  In name (dir_names (listing (mosaic
             (fst (mosaic_list_of_rasters rasters e d ci w))))) <->
  In name (dir_names (listing (mosaic w)))
  \/ (snd (mosaic_list_of_rasters rasters e d ci w) = Ok tt
      /\ name = "comb" ++ e ++ "yr" ++ d ++ "a" ++ ci ++ ".asc").
Proof.
  unfold mosaic_list_of_rasters. destruct rasters as [|r rs].
  - simpl. intuition discriminate.
  - destruct (negb _); [simpl; intuition discriminate|]. cbn [grids].
    destruct (open_all _ _) as [[|first others] | ex].
    + simpl. intuition discriminate.
    + destruct (merge_max first others) as [[[h wd] band] tr].
      cbn [fst snd write_mosaic mosaic listing].
      rewrite dir_names_write. intuition.
    + simpl. intuition discriminate.
Qed.

Lemma run_mosaics_names tasks :
  forall w name,
    In name (dir_names (listing (mosaic (fst (run_mosaics tasks w))))) ->
    In name (dir_names (listing (mosaic w)))
    \/ exists rasters e d ci,
         In (rasters, e, d, ci) tasks
         /\ name = "comb" ++ e ++ "yr" ++ d ++ "a" ++ ci ++ ".asc".
Proof.
  induction tasks as [|[[[rasters e] d] ci] ts IH]; intros w name;
    [simpl; auto|].
  simpl. pose proof (mosaic_list_names rasters e d ci w name) as H1.
  destruct (mosaic_list_of_rasters rasters e d ci w) as [w1 r].
  pose proof (IH w1 name) as H2.
  destruct (run_mosaics ts w1) as [w2 rs]. simpl in *.
  intros H. destruct (H2 H) as [H3 | [ra [e' [d' [ci' [Hin Hn]]]]]].
  - apply H1 in H3. destruct H3 as [H3 | [_ H3]]; [now left|].
    right. exists rasters, e, d, ci. auto.
  - right. exists ra, e', d', ci'. auto.
Qed.

Lemma run_mosaics_done tasks :
  forall w rasters e d ci,
    snd (run_mosaics tasks w) = Ok tt ->
    In (rasters, e, d, ci) tasks ->
    In ("comb" ++ e ++ "yr" ++ d ++ "a" ++ ci ++ ".asc")
       (dir_names (listing (mosaic (fst (run_mosaics tasks w))))).
Proof.
  assert (Hmono : forall ts w name,
            In name (dir_names (listing (mosaic w))) ->
            In name (dir_names (listing (mosaic (fst (run_mosaics ts w)))))).
  { induction ts as [|[[[rasters e] d] ci] ts IH]; intros w name H;
      [assumption|].
    simpl. pose proof (mosaic_list_names rasters e d ci w name) as H1.
    destruct (mosaic_list_of_rasters rasters e d ci w) as [w1 r].
    pose proof (IH w1 name) as H2.
    destruct (run_mosaics ts w1) as [w2 rs]. simpl in *.
    apply H2, H1. now left. }
  induction tasks as [|[[[rasters e] d] ci] ts IH];
    intros w ra e' d' ci' Hok Hin; [contradiction|].
  simpl in *.
  pose proof (mosaic_list_names rasters e d ci w) as H1.
  destruct (mosaic_list_of_rasters rasters e d ci w) as [w1 r].
  pose proof (IH w1 ra e' d' ci') as H2.
  pose proof (Hmono ts w1) as H3.
  destruct (run_mosaics ts w1) as [w2 rs]. simpl in *.
  destruct r as [[]|ex]; [|discriminate].
  destruct Hin as [Hin | Hin].
  - injection Hin as <- <- <- <-. apply H3, H1. now right.
  - now apply H2.
Qed.
End GroupProps.

Lemma dir_lookup_write_other name name' f d :
  name <> name' -> dir_lookup name (dir_write name' f d) = dir_lookup name d.
Proof.
  intros Hne. induction d as [|[n g] d IH]; simpl.
  - destruct (String.eqb_spec name' name); [congruence | reflexivity].
  - destruct (String.eqb_spec n name') as [E | N]; simpl.
    + subst n. destruct (String.eqb_spec name' name); [congruence | reflexivity].
    + destruct (String.eqb_spec n name); [reflexivity | exact IH].
Qed.

Lemma dir_lookup_write name f d : dir_lookup name (dir_write name f d) = Some f.
Proof.
  induction d as [|[n g] d IH]; simpl.
  - now rewrite String.eqb_refl.
  - destruct (String.eqb_spec n name) as [E | N]; simpl.
    + subst n. now rewrite String.eqb_refl.
    + apply String.eqb_neq in N. now rewrite N.
Qed.

Section CombineProps.
Import Naming Mosaicker.

Lemma mosaic_list_lookup_other rasters e d ci w n :
  n <> "comb" ++ e ++ "yr" ++ d ++ "a" ++ ci ++ ".asc" ->
  dir_lookup n (listing (mosaic (fst (mosaic_list_of_rasters rasters e d ci w))))
  = dir_lookup n (listing (mosaic w)).
Proof.
  intros Hne. unfold mosaic_list_of_rasters.
  destruct rasters as [|r rs]; [reflexivity|].
  destruct (negb _); [reflexivity|]. cbn [grids].
  destruct (open_all _ _) as [[|first others] | ex]; try reflexivity.
  destruct (merge_max first others) as [[[h wd] band] tr].
  cbn [fst write_mosaic mosaic listing].
  now apply dir_lookup_write_other.
Qed.

(** A call on a well-named list whose files open writes the merge of
    these rasters under the name of the group. *)
Lemma mosaic_list_written rasters e d ci w first others :
  forallb (re_mosaic_member e d) rasters = true ->
  open_all (grids w) rasters = Ok (first :: others) ->
  dir_lookup ("comb" ++ e ++ "yr" ++ d ++ "a" ++ ci ++ ".asc")
    (listing (mosaic (fst (mosaic_list_of_rasters rasters e d ci w))))
  = Some (RasterFile (merged_raster first others)).
Proof.
  intros Hre Hopen. unfold mosaic_list_of_rasters.
  destruct rasters as [|n ns]; [discriminate Hopen|].
  rewrite Hre. cbn [negb grids]. rewrite Hopen.
  unfold merged_raster.
  destruct (merge_max first others) as [[[h wd] band] tr].
  cbn [fst write_mosaic mosaic listing].
  apply dir_lookup_write.
Qed.

(** In a run of tasks of which those of one output name have one raster
    list, event and duration, a task whose files open leaves the merge of
    its rasters under that name, whatever becomes of the other tasks. *)
Lemma run_mosaics_content tasks rasters e d ci first others :
  forallb (re_mosaic_member e d) rasters = true ->
  (forall ra' e' d' ci',
     In (ra', e', d', ci') tasks ->
     "comb" ++ e' ++ "yr" ++ d' ++ "a" ++ ci' ++ ".asc"
     = "comb" ++ e ++ "yr" ++ d ++ "a" ++ ci ++ ".asc" ->
     ra' = rasters /\ e' = e /\ d' = d) ->
  forall w,
    open_all (grids w) rasters = Ok (first :: others) ->
    In (rasters, e, d, ci) tasks
    \/ dir_lookup ("comb" ++ e ++ "yr" ++ d ++ "a" ++ ci ++ ".asc")
         (listing (mosaic w))
       = Some (RasterFile (merged_raster first others)) ->
    dir_lookup ("comb" ++ e ++ "yr" ++ d ++ "a" ++ ci ++ ".asc")
      (listing (mosaic (fst (run_mosaics tasks w))))
    = Some (RasterFile (merged_raster first others)).
Proof.
  intros Hre. induction tasks as [|[[[ra0 e0] d0] ci0] ts IH];
    intros Hsame w Hopen Hcase.
  - destruct Hcase as [[] | H]. exact H.
  - cbn [run_mosaics].
    pose proof (mosaic_list_grids ra0 e0 d0 ci0 w) as Hg.
    pose proof (mosaic_list_lookup_other ra0 e0 d0 ci0 w
                  ("comb" ++ e ++ "yr" ++ d ++ "a" ++ ci ++ ".asc")) as Hother.
    pose proof (fun f o H1 H2 =>
                  mosaic_list_written ra0 e0 d0 ci0 w f o H1 H2) as Hwritten.
    destruct (mosaic_list_of_rasters ra0 e0 d0 ci0 w) as [w1 r1].
    cbn [fst] in Hg, Hother, Hwritten.
    assert (Hnext :
      dir_lookup ("comb" ++ e ++ "yr" ++ d ++ "a" ++ ci ++ ".asc")
        (listing (mosaic (fst (run_mosaics ts w1))))
      = Some (RasterFile (merged_raster first others))).
    { apply IH.
      - intros ra' e' d' ci' Hin. apply Hsame. now right.
      - now rewrite Hg.
      - destruct (string_dec
                    ("comb" ++ e0 ++ "yr" ++ d0 ++ "a" ++ ci0 ++ ".asc")
                    ("comb" ++ e ++ "yr" ++ d ++ "a" ++ ci ++ ".asc"))
          as [Heq | Hne].
        + right.
          destruct (Hsame ra0 e0 d0 ci0 (or_introl eq_refl) Heq)
            as [-> [-> ->]].
          rewrite <- Heq. apply Hwritten; assumption.
        + destruct Hcase as [[Hin | Hin] | Hold].
          * injection Hin as -> -> -> ->. contradiction.
          * now left.
          * right. rewrite Hother by (intros H; apply Hne; now rewrite H).
            exact Hold. }
    destruct (run_mosaics ts w1) as [w2 rs]. exact Hnext.
Qed.

Lemma open_all_ok d names :
  (forall n, In n names ->
             exists r, dir_lookup n (listing d) = Some (RasterFile r)) ->
  exists rs, open_all d names = Ok rs /\ List.length rs = List.length names.
Proof.
  induction names as [|n ns IH]; intros H.
  - exists []. auto.
  - destruct (H n (or_introl eq_refl)) as [r Hr].
    destruct IH as [rs [Hrs Hl]]; [intros m Hm; apply H; now right|].
    exists (r :: rs). simpl. unfold open_raster. rewrite Hr. simpl.
    rewrite Hrs. simpl. auto.
Qed.

Lemma mosaic_list_ok rasters e d ci w :
  rasters <> [] ->
  forallb (re_mosaic_member e d) rasters = true ->
  (forall n, In n rasters ->
             exists r, dir_lookup n (listing (grids w)) = Some (RasterFile r)) ->
  snd (mosaic_list_of_rasters rasters e d ci w) = Ok tt.
Proof.
  intros Hne Hre Hfiles. unfold mosaic_list_of_rasters.
  destruct rasters as [|n ns]; [contradiction|].
  rewrite Hre. cbn [negb grids].
  destruct (open_all_ok (grids w) (n :: ns) Hfiles) as [rs [Hrs Hl]].
  rewrite Hrs. destruct rs as [|first others]; [discriminate|].
  reflexivity.
Qed.

Lemma mosaic_list_result_grids rasters e d ci w w' :
  grids w = grids w' ->
  snd (mosaic_list_of_rasters rasters e d ci w)
  = snd (mosaic_list_of_rasters rasters e d ci w').
Proof.
  intros H. unfold mosaic_list_of_rasters.
  destruct rasters as [|n ns]; [reflexivity|].
  destruct (negb _); [reflexivity|]. cbn [grids]. rewrite H.
  destruct (open_all _ _) as [[|first others] | ex]; reflexivity.
Qed.

Lemma run_mosaics_keeps tasks :
  forall w name,
    In name (dir_names (listing (mosaic w))) ->
    In name (dir_names (listing (mosaic (fst (run_mosaics tasks w))))).
Proof.
  induction tasks as [|[[[rasters e] d] ci] ts IH]; intros w name H;
    [assumption|].
  simpl. pose proof (mosaic_list_names rasters e d ci w name) as H1.
  destruct (mosaic_list_of_rasters rasters e d ci w) as [w1 r].
  pose proof (IH w1 name) as H2.
  destruct (run_mosaics ts w1) as [w2 rs]. simpl in *.
  apply H2, H1. now left.
Qed.

(** A task that can succeed on the fetched files is carried out, whatever
    becomes of the other tasks. *)
Lemma run_mosaics_each tasks :
  forall w rasters e d ci,
    In (rasters, e, d, ci) tasks ->
    snd (mosaic_list_of_rasters rasters e d ci w) = Ok tt ->
    In ("comb" ++ e ++ "yr" ++ d ++ "a" ++ ci ++ ".asc")
       (dir_names (listing (mosaic (fst (run_mosaics tasks w))))).
Proof.
  induction tasks as [|[[[ra0 e0] d0] ci0] ts IH];
    intros w rasters e d ci Hin Hok; [contradiction|].
  simpl.
  pose proof (mosaic_list_names ra0 e0 d0 ci0 w) as H1.
  pose proof (mosaic_list_grids ra0 e0 d0 ci0 w) as Hg.
  destruct (mosaic_list_of_rasters ra0 e0 d0 ci0 w) as [w1 r] eqn:E1.
  pose proof (IH w1 rasters e d ci) as H2.
  pose proof (run_mosaics_keeps ts w1) as H3.
  destruct (run_mosaics ts w1) as [w2 rs]. simpl in *.
  destruct Hin as [Hin | Hin].
  - injection Hin as -> -> -> ->. apply H3, H1. right.
    rewrite E1 in Hok. simpl in Hok. auto.
  - apply H2; [assumption|].
    rewrite <- Hok. apply mosaic_list_result_grids. assumption.
Qed.

Lemma group_members_match d e dur ci :
  ci = "" \/ ci = "u" \/ ci = "l" ->
  forallb (re_mosaic_member e dur) (group d e dur ci) = true.
Proof.
  intros Hci. apply forallb_forall. intros name Hn.
  apply group_spec in Hn. destruct Hn as [_ [zone [Hne [Hl ->]]]].
  unfold re_mosaic_member. apply letters_then_spec.
  exists zone, (asc_name e dur ci). repeat split; auto.
  simpl. destruct Hci as [-> | [-> | ->]]; auto.
Qed.

(** C6: [combine_multiple_zones] puts in the group of an event, a duration
    and a variant exactly the files of [NOAA_grids/] named by a non-empty
    run of letters followed by [{event}yr{duration}a{variant}.asc] and
    nothing else; among the valid events, durations and variants no file of
    one group enters another (a 1000-year file never enters a 100-year
    group, an upper or lower file never a base group); a group is handed to
    the mosaic step exactly when it has two files or more (upper and lower
    groups being formed for the event "100" only); [NOAA_grids/] itself is
    left as it was; and every group so handed over whose files are readable
    rasters has its mosaic [comb{event}yr{duration}a{variant}.asc] in
    [NOAA_grids_mosaic/] afterwards, which, the events and durations being
    valid, is the merge of the rasters of that group, opened in the order
    of the group. *)
Theorem combine_groups_exact (event_list dur_list : list string) (w : World) :
  (forall e d ci name,
     plain e = true -> plain d = true ->
     (In name (group (grids w) e d ci) <->
      In name (dir_names (listing (grids w)))
      /\ exists zone, zone <> "" /\ all_chars is_letter zone = true
                      /\ name = zone ++ e ++ "yr" ++ d ++ "a" ++ ci ++ ".asc"))
  /\ (forall e d ci e' d' ci' zone,
        In e default_events -> In d default_durations ->
        In ci [""; "u"; "l"] ->
        In e' default_events -> In d' default_durations ->
        In ci' [""; "u"; "l"] ->
        all_chars is_letter zone = true ->
        In (zone ++ e' ++ "yr" ++ d' ++ "a" ++ ci' ++ ".asc")
           (group (grids w) e d ci) ->
        e' = e /\ d' = d /\ ci' = ci)
  /\ (forall rasters e d ci,
        In (rasters, e, d, ci) (combine_tasks (grids w) event_list dur_list) <->
        In e event_list /\ In d dur_list
        /\ (ci = "" \/ (e = "100" /\ (ci = "u" \/ ci = "l")))
        /\ rasters = group (grids w) e d ci /\ 2 <= List.length rasters)
  /\ grids (fst (combine_multiple_zones event_list dur_list w)) = grids w
  /\ (forall rasters e d ci,
        In (rasters, e, d, ci) (combine_tasks (grids w) event_list dur_list) ->
        (forall n, In n rasters ->
           exists r, dir_lookup n (listing (grids w)) = Some (RasterFile r)) ->
        In ("comb" ++ e ++ "yr" ++ d ++ "a" ++ ci ++ ".asc")
           (dir_names (listing (mosaic
              (fst (combine_multiple_zones event_list dur_list w))))))
  /\ (forall rasters e d ci,
        incl event_list default_events -> incl dur_list default_durations ->
        In (rasters, e, d, ci) (combine_tasks (grids w) event_list dur_list) ->
        (forall n, In n rasters ->
           exists r, dir_lookup n (listing (grids w)) = Some (RasterFile r)) ->
        exists first others,
          open_all (grids w) rasters = Ok (first :: others)
          /\ dir_lookup ("comb" ++ e ++ "yr" ++ d ++ "a" ++ ci ++ ".asc")
               (listing (mosaic
                  (fst (combine_multiple_zones event_list dur_list w))))
             = Some (RasterFile (merged_raster first others))).
Proof.
  split; [|split; [|split; [|split; [|split]]]].
  - intros e d ci name _ _. apply group_spec.
  - intros e d ci e' d' ci' zone He Hd Hci He' Hd' Hci' Hz Hin.
    apply group_spec in Hin. destruct Hin as [_ [zone' [_ [Hz' Heq]]]].
    fold (asc_name e' d' ci') in Heq.
    destruct (raster_name_head e d ci He Hd Hci) as [c [rest [Hn Hc]]].
    destruct (raster_name_head e' d' ci' He' Hd' Hci') as [c' [rest' [Hn' Hc']]].
    rewrite Hn, Hn' in Heq.
    apply letters_prefix_unique in Heq; auto. destruct Heq as [_ Heq].
    rewrite <- Hn, <- Hn' in Heq.
    apply raster_names_injective in Heq; auto.
  - intros rasters e d ci. apply combine_tasks_spec.
  - apply run_mosaics_grids.
  - intros rasters e d ci Hin Hfiles. unfold combine_multiple_zones.
    apply (run_mosaics_each _ w rasters); [assumption|].
    apply combine_tasks_spec in Hin.
    destruct Hin as [_ [_ [Hci [Hr Hlen]]]].
    apply mosaic_list_ok; auto.
    + intros ->. simpl in Hlen. lia.
    + subst rasters. apply group_members_match. tauto.
  - intros rasters e d ci Hev Hdu Hin Hfiles.
    destruct (open_all_ok (grids w) rasters Hfiles) as [rs [Hopen Hlen]].
    pose proof Hin as Htask. apply combine_tasks_spec in Htask.
    destruct Htask as [He [Hd [Hci [Hr Hlen2]]]].
    destruct rs as [|first others]; [simpl in Hlen; lia|].
    exists first, others. split; [exact Hopen|].
    unfold combine_multiple_zones.
    apply (run_mosaics_content _ rasters e d ci first others).
    + subst rasters. apply group_members_match. tauto.
    + intros ra' e' d' ci' Hin' Hname.
      apply combine_tasks_spec in Hin'.
      destruct Hin' as [He' [Hd' [Hci' [Hr' _]]]].
      apply append_inj_l in Hname.
      change (e' ++ "yr" ++ d' ++ "a" ++ ci' ++ ".asc")
        with (asc_name e' d' ci') in Hname.
      change (e ++ "yr" ++ d ++ "a" ++ ci ++ ".asc")
        with (asc_name e d ci) in Hname.
      apply raster_names_injective in Hname; auto.
      * destruct Hname as [-> [-> ->]]. subst. auto.
      * simpl. destruct Hci' as [-> | [_ [-> | ->]]]; auto.
      * simpl. destruct Hci as [-> | [_ [-> | ->]]]; auto.
    + exact Hopen.
    + now left.
Qed.
End CombineProps.

Lemma combine_groups_exact_witness :
  Mosaicker.group (Some two_zone_grids) "100" "24h" ""
  = ["se100yr24ha.asc"; "orb100yr24ha.asc"]
  /\ ~ In "se1000yr24ha.asc" (Mosaicker.group (Some two_zone_grids) "100" "24h" "")
  /\ ~ In "se100yr24hau.asc" (Mosaicker.group (Some two_zone_grids) "100" "24h" "")
  /\ ~ In "se25yr24ha.asc" (Mosaicker.group (Some two_zone_grids) "5" "24h" "")
  /\ In "comb100yr24hau.asc"
        (dir_names (listing (mosaic
           (fst (Mosaicker.combine_multiple_zones ["100"; "5"] ["24h"]
                   two_zone_world)))))
  /\ dir_lookup "comb100yr24hau.asc"
       (listing (mosaic
          (fst (Mosaicker.combine_multiple_zones ["100"; "5"] ["24h"]
                  two_zone_world))))
     = Some (RasterFile
               (Mosaicker.merged_raster (const_raster 2 3 0 0 1300)
                  [const_raster 2 3 2 1 1200])).
Proof.
  destruct (combine_groups_exact ["100"; "5"] ["24h"] two_zone_world)
    as [_ [Hmix [Htasks [_ [Hdone Hmerge]]]]].
  split; [reflexivity|]. split; [|split; [|split; [|split]]].
  - intros H.
    apply (Hmix "100" "24h" "" "1000" "24h" "" "se") in H;
      simpl; auto 12. destruct H as [H _]. discriminate.
  - intros H.
    apply (Hmix "100" "24h" "" "100" "24h" "u" "se") in H;
      simpl; auto 12. destruct H as [_ [_ H]]. discriminate.
  - intros H.
    apply (Hmix "5" "24h" "" "25" "24h" "" "se") in H;
      simpl; auto 12. destruct H as [H _]. discriminate.
  - apply (Hdone (Mosaicker.group (Some two_zone_grids) "100" "24h" "u")
                 "100" "24h" "u").
    + apply Htasks. simpl. repeat split; auto.
    + intros n Hn. vm_compute in Hn.
      destruct Hn as [<- | [<- | []]]; eexists; reflexivity.
  - destruct (Hmerge (Mosaicker.group (Some two_zone_grids) "100" "24h" "u")
                     "100" "24h" "u") as [first [others [Hopen Hfile]]].
    + intros x Hx. simpl in *. intuition.
    + intros x Hx. simpl in *. intuition.
    + apply Htasks. simpl. repeat split; auto.
    + intros n Hn. vm_compute in Hn.
      destruct Hn as [<- | [<- | []]]; eexists; reflexivity.
    + injection Hopen as <- <-. exact Hfile.
Defined.

(** ** RasterMosaicker: the max composite *)

Section MergeProps.
Import Mosaicker.
Local Open Scope Z_scope.

Lemma fold_min_le l : forall a, fold_left Z.min l a <= a.
Proof.
  induction l as [|x l IH]; intros a; simpl; [lia|].
  specialize (IH (Z.min a x)). lia.
Qed.

Lemma fold_min_le_In l : forall a x, In x l -> fold_left Z.min l a <= x.
Proof.
  induction l as [|y l IH]; intros a x Hin; [contradiction|].
  simpl. destruct Hin as [-> | Hin].
  - pose proof (fold_min_le l (Z.min a x)). lia.
  - now apply IH.
Qed.

Lemma fold_max_ge l : forall a, a <= fold_left Z.max l a.
Proof.
  induction l as [|x l IH]; intros a; simpl; [lia|].
  specialize (IH (Z.max a x)). lia.
Qed.

Lemma fold_max_ge_In l : forall a x, In x l -> x <= fold_left Z.max l a.
Proof.
  induction l as [|y l IH]; intros a x Hin; [contradiction|].
  simpl. destruct Hin as [-> | Hin].
  - pose proof (fold_max_ge l (Z.max a x)). lia.
  - now apply IH.
Qed.

(** Folding [copy_max] over integer samples: nothing if there is none,
    their maximum otherwise. *)
Lemma fold_copy_max_spec (l : list (option cell)) :
  forall acc,
    (forall c, In (Some c) (acc :: l) -> exists z, c = Val z) ->
    match fold_left copy_max l acc with
    | None => forall x, In x (acc :: l) -> x = None
    | Some c =>
        exists m, c = Val m /\ In (Some (Val m)) (acc :: l)
                  /\ forall z, In (Some (Val z)) (acc :: l) -> z <= m
    end.
Proof.
  induction l as [|x l IH]; intros acc Hint.
  - simpl. destruct acc as [c|].
    + destruct (Hint c (or_introl eq_refl)) as [z ->].
      exists z. split; [reflexivity|]. split; [now left|].
      intros z' [H | []]. injection H as ->. lia.
    + intros x [<- | []]. reflexivity.
  - simpl fold_left.
    assert (Hint' : forall c, In (Some c) (copy_max acc x :: l) ->
                              exists z, c = Val z).
    { intros c [H | H].
      - destruct acc as [a|], x as [b|]; simpl in H.
        + destruct (Hint a (or_introl eq_refl)) as [za ->].
          destruct (Hint b (or_intror (or_introl eq_refl))) as [zb ->].
          simpl in H. injection H as <-. eauto.
        + apply Hint. left. exact H.
        + apply Hint. right. left. exact H.
        + discriminate.
      - apply Hint. right. right. exact H. }
    specialize (IH (copy_max acc x) Hint').
    destruct (fold_left copy_max l (copy_max acc x)) as [c|].
    + destruct IH as [m [-> [Hin Hmax]]]. exists m. split; [reflexivity|].
      destruct acc as [a|], x as [b|]; simpl in Hin, Hmax.
      * destruct (Hint a (or_introl eq_refl)) as [za ->].
        destruct (Hint b (or_intror (or_introl eq_refl))) as [zb ->].
        simpl in Hin, Hmax. split.
        -- destruct Hin as [H | H]; [|right; right; exact H].
           injection H as <-.
           destruct (Z.max_spec za zb) as [[_ ->] | [_ ->]];
             [right; left | left]; reflexivity.
        -- intros z [H | [H | H]].
           ++ injection H as ->.
              specialize (Hmax (Z.max z zb) (or_introl eq_refl)). lia.
           ++ injection H as ->.
              specialize (Hmax (Z.max za z) (or_introl eq_refl)). lia.
           ++ apply Hmax. right. exact H.
      * split.
        -- destruct Hin as [H | H]; [left; exact H | right; right; exact H].
        -- intros z [H | [H | H]]; [| discriminate |].
           ++ apply Hmax. left. exact H.
           ++ apply Hmax. right. exact H.
      * split.
        -- destruct Hin as [H | H]; [right; left; exact H | right; right; exact H].
        -- intros z [H | [H | H]]; [discriminate | |].
           ++ apply Hmax. left. exact H.
           ++ apply Hmax. right. exact H.
      * split.
        -- destruct Hin as [H | H]; [discriminate | right; right; exact H].
        -- intros z [H | [H | H]]; try discriminate.
           apply Hmax. right. exact H.
    + intros y [<- | [<- | H]].
      * specialize (IH (copy_max acc x) (or_introl eq_refl)).
        destruct acc as [a|], x as [b|]; simpl in IH; congruence.
      * specialize (IH (copy_max acc x) (or_introl eq_refl)).
        destruct acc as [a|], x as [b|]; simpl in IH; congruence.
      * apply IH. right. exact H.
Qed.

Lemma in_contributions sources row col c :
  In c (contributions sources row col) <->
  In (Some c) (map (fun r => sample r row col) sources).
Proof.
  unfold contributions. rewrite in_flat_map, in_map_iff. split.
  - intros [r [Hr H]]. exists r. split; [|assumption].
    destruct (sample r row col) as [c'|]; [|contradiction].
    destruct H as [-> | []]. reflexivity.
  - intros [r [H Hr]]. exists r. split; [assumption|].
    rewrite H. now left.
Qed.

Lemma sample_integer r row col c :
  integer_grid r -> sample r row col = Some c -> exists z, c = Val z.
Proof.
  intros Hint. unfold sample, masked.
  destruct (covers r row col); [|discriminate].
  set (v := r_data r _ _). assert (Hv : v <> NaN) by apply Hint.
  destruct (r_nodata r) as [n|].
  - destruct (cell_eqb v n); [discriminate|].
    intros H. injection H as <-. destruct v; [contradiction | eauto].
  - intros H. injection H as <-. destruct v; [contradiction | eauto].
Qed.
End MergeProps.

Section MosaicTheorem.
Import Mosaicker.
Local Open Scope Z_scope.

Variables first : Raster.
Variable others : list Raster.

Lemma merged_covers row col :
  covers (merged_raster first others) row col = true <->
  fold_left Z.min (map (fun r => t_top (r_transform r)) others)
            (t_top (r_transform first)) <= row
  /\ row < fold_left Z.max (map bottom others) (bottom first)
  /\ fold_left Z.min (map (fun r => t_left (r_transform r)) others)
               (t_left (r_transform first)) <= col
  /\ col < fold_left Z.max (map right others) (right first).
Proof.
  unfold covers, bottom, right, merged_raster, merge_max. cbn.
  pose proof (fold_min_le (map (fun r => t_top (r_transform r)) others)
                          (t_top (r_transform first))).
  pose proof (fold_max_ge (map bottom others) (bottom first)).
  pose proof (fold_min_le (map (fun r => t_left (r_transform r)) others)
                          (t_left (r_transform first))).
  pose proof (fold_max_ge (map right others) (right first)).
  unfold bottom, right in *.
  rewrite !andb_true_iff, !Z.leb_le, !Z.ltb_lt. lia.
Qed.

Lemma merged_covers_source src row col :
  In src (first :: others) -> covers src row col = true ->
  covers (merged_raster first others) row col = true.
Proof.
  intros Hin Hc. apply merged_covers.
  unfold covers in Hc.
  rewrite !andb_true_iff, !Z.leb_le, !Z.ltb_lt in Hc.
  destruct Hin as [<- | Hin].
  - pose proof (fold_min_le (map (fun r => t_top (r_transform r)) others)
                            (t_top (r_transform first))).
    pose proof (fold_max_ge (map bottom others) (bottom first)).
    pose proof (fold_min_le (map (fun r => t_left (r_transform r)) others)
                            (t_left (r_transform first))).
    pose proof (fold_max_ge (map right others) (right first)).
    lia.
  - pose proof (fold_min_le_In (map (fun r => t_top (r_transform r)) others)
                  (t_top (r_transform first)) (t_top (r_transform src))
                  (in_map _ _ _ Hin)).
    pose proof (fold_max_ge_In (map bottom others) (bottom first) (bottom src)
                  (in_map _ _ _ Hin)).
    pose proof (fold_min_le_In (map (fun r => t_left (r_transform r)) others)
                  (t_left (r_transform first)) (t_left (r_transform src))
                  (in_map _ _ _ Hin)).
    pose proof (fold_max_ge_In (map right others) (right first) (right src)
                  (in_map _ _ _ Hin)).
    lia.
Qed.

Lemma merged_pixel row col :
  covers (merged_raster first others) row col = true ->
  pixel (merged_raster first others) row col =
  match fold_left copy_max (map (fun r => sample r row col) (first :: others)) None with
  | Some c => c
  | None => fill_value first
  end.
Proof.
  intros Hc. apply merged_covers in Hc.
  unfold pixel, merged_raster, merge_max. cbn [r_data r_transform t_top t_left].
  rewrite !Z2Nat.id by lia.
  replace (_ + (row - _)) with row by lia.
  replace (_ + (col - _)) with col by lia.
  reflexivity.
Qed.

Hypothesis integer_sources : forall src, In src (first :: others) -> integer_grid src.

Lemma merged_pixel_max row col :
  covers (merged_raster first others) row col = true ->
  match contributions (first :: others) row col with
  | [] => pixel (merged_raster first others) row col = fill_value first
  | _ :: _ =>
      exists m, pixel (merged_raster first others) row col = Val m
                /\ In (Val m) (contributions (first :: others) row col)
                /\ forall z, In (Val z) (contributions (first :: others) row col) ->
                             z <= m
  end.
Proof.
  intros Hc. rewrite (merged_pixel row col Hc).
  pose proof (fold_copy_max_spec
                (map (fun r => sample r row col) (first :: others)) None) as F.
  assert (Hint : forall c,
             In (Some c) (None :: map (fun r => sample r row col) (first :: others)) ->
             exists z, c = Val z).
  { intros c [H | H]; [discriminate|].
    apply in_map_iff in H. destruct H as [r [Hs Hr]].
    apply (sample_integer r row col); auto. }
  specialize (F Hint).
  destruct (fold_left copy_max _ None) as [c|].
  - destruct F as [m [-> [Hin Hmax]]].
    destruct Hin as [Hin | Hin]; [discriminate|].
    apply in_contributions in Hin.
    destruct (contributions (first :: others) row col) as [|c0 cs] eqn:E;
      [contradiction|].
    exists m. split; [reflexivity|]. split; [assumption|].
    intros z Hz. apply Hmax. right. apply in_contributions.
    rewrite E. exact Hz.
  - destruct (contributions (first :: others) row col) as [|c0 cs] eqn:E;
      [reflexivity|].
    assert (Hc0 : In c0 (contributions (first :: others) row col))
      by (rewrite E; now left).
    apply in_contributions in Hc0.
    specialize (F (Some c0) (or_intror Hc0)). discriminate.
Qed.

Lemma merged_pixel_dominant A row col a :
  In A (first :: others) -> sample A row col = Some (Val a) ->
  (forall B b, In B (first :: others) -> sample B row col = Some (Val b) -> b <= a) ->
  pixel (merged_raster first others) row col = Val a.
Proof.
  intros HA Ha Hdom.
  assert (Hc : covers (merged_raster first others) row col = true).
  { apply (merged_covers_source A); [assumption|].
    unfold sample in Ha. destruct (covers A row col); [reflexivity|discriminate]. }
  pose proof (merged_pixel_max row col Hc) as H.
  assert (Hin : In (Val a) (contributions (first :: others) row col)).
  { apply in_contributions. apply in_map_iff. exists A. auto. }
  destruct (contributions (first :: others) row col) as [|c0 cs] eqn:E; [contradiction|].
  destruct H as [m [-> [Hm Hmax]]].
  specialize (Hmax a Hin). rewrite <- E in Hm.
  apply in_contributions in Hm. apply in_map_iff in Hm.
  destruct Hm as [B [Hb HB]]. specialize (Hdom B m HB Hb).
  f_equal. lia.
Qed.

(** C1: when the names of [raster_list] pass the pattern check and the
    files open as the integer grids [first :: others],
    [mosaic_list_of_rasters] writes [comb{event}yr{dur}a{CI}.asc] into
    [NOAA_grids_mosaic/]; the footprint of that raster contains the
    footprint of every input; at each of its pixels the value is the
    maximum of the unmasked cells the inputs hold there (the nodata value
    of the first input, or 0, where they hold none); in particular where
    the value of one input is at least that of every other input, the
    output carries that value. *)
Theorem mosaic_is_max_composite
    (raster_list : list string) (event dur CI : string) (w : World) :
  forallb (Naming.re_mosaic_member event dur) raster_list = true ->
  open_all (grids w) raster_list = Ok (first :: others) ->
  exists merged w',
    mosaic_list_of_rasters raster_list event dur CI w = (w', Ok tt)
    /\ dir_lookup ("comb" ++ event ++ "yr" ++ dur ++ "a" ++ CI ++ ".asc")%string
                  (listing (mosaic w')) = Some (RasterFile merged)
    /\ (forall src row col,
          In src (first :: others) -> covers src row col = true ->
          covers merged row col = true)
    /\ (forall row col,
          covers merged row col = true ->
          match contributions (first :: others) row col with
          | [] => pixel merged row col = fill_value first
          | _ :: _ =>
              exists m,
                pixel merged row col = Val m
                /\ In (Val m) (contributions (first :: others) row col)
                /\ forall z,
                     In (Val z) (contributions (first :: others) row col) ->
                     z <= m
          end)
    /\ (forall A row col a,
          In A (first :: others) -> sample A row col = Some (Val a) ->
          (forall B b, In B (first :: others) ->
                       sample B row col = Some (Val b) -> b <= a) ->
          pixel merged row col = Val a).
Proof.
  intros Hre Hopen.
  exists (merged_raster first others),
    (write_mosaic ("comb" ++ event ++ "yr" ++ dur ++ "a" ++ CI ++ ".asc")%string
       (merged_raster first others) (mkWorld (grids w) (Some (listing (mosaic w)))
                    (EvMkdir "NOAA_grids_mosaic" :: trace w))).
  split; [|split; [|split; [|split]]].
  - unfold mosaic_list_of_rasters.
    destruct raster_list as [|n ns]; [discriminate|].
    rewrite Hre. cbn [negb grids]. rewrite Hopen. reflexivity.
  - cbn [write_mosaic mosaic listing]. apply dir_lookup_write.
  - apply merged_covers_source.
  - apply merged_pixel_max.
  - apply merged_pixel_dominant.
Qed.
End MosaicTheorem.

(** The two 100-year base grids of the sample directory overlap at the
    lattice pixel (1, 2), where the first holds 1000 and the second 900. *)
Lemma mosaic_is_max_composite_witness :
  exists merged w',
    Mosaicker.mosaic_list_of_rasters ["se100yr24ha.asc"; "orb100yr24ha.asc"]
      "100" "24h" "" two_zone_world = (w', Ok tt)
    /\ dir_lookup "comb100yr24ha.asc" (listing (mosaic w'))
       = Some (RasterFile merged)
    /\ Mosaicker.covers merged 2%Z 4%Z = true
    /\ Mosaicker.pixel merged 1%Z 2%Z = Val 1000.
Proof.
  destruct (mosaic_is_max_composite
              (const_raster 2 3 0 0 1000) [const_raster 2 3 2 1 900])
    with (raster_list := ["se100yr24ha.asc"; "orb100yr24ha.asc"])
         (event := "100") (dur := "24h") (CI := "") (w := two_zone_world)
    as [merged [w' [Hrun [Hfile [Hcov [_ Hdom]]]]]].
  - intros src [<- | [<- | []]] i j; discriminate.
  - reflexivity.
  - reflexivity.
  - exists merged, w'. split; [exact Hrun|]. split; [exact Hfile|]. split.
    + apply (Hcov (const_raster 2 3 2 1 900)); [simpl; auto | reflexivity].
    + apply (Hdom (const_raster 2 3 0 0 1000)); [simpl; auto | reflexivity |].
      intros B b [<- | [<- | []]] H; vm_compute in H; injection H as <-; lia.
Defined.

(** ** ConfidenceIntervalEngine: the lognormal bounds *)

Section BoundsProps.
Import Confidence.
Local Open Scope R_scope.

Lemma bidx_id dim i : (i < dim)%nat -> bidx dim i = i.
Proof.
  intros H. unfold bidx. destruct (Nat.eqb_spec dim 1); [lia | reflexivity].
Qed.

Lemma mask_and_scale_pos (v : R) :
  0 < v -> mask_and_scale (Some v) = Some (v / 1000).
Proof.
  intros H. unfold mask_and_scale. destruct (Rle_dec v 0); [lra | reflexivity].
Qed.

Lemma np_log_pos (v : R) : 0 < v -> np_log (Some v) = Some (ln v).
Proof.
  intros H. unfold np_log. destruct (Rlt_dec 0 v); [reflexivity | lra].
Qed.

Lemma sqrt2_pos : 0 < sqrt 2.
Proof. apply sqrt_lt_R0. lra. Qed.

Variable erfinv : R -> R.
Hypothesis erfinv_odd : forall x, erfinv (- x) = - erfinv x.
Hypothesis erfinv_pos : 0 < erfinv 0.68.

Lemma half_width_pos base lower upper :
  0 < lower -> lower < base -> base < upper ->
  0 < sigma_max_at base lower upper * sqrt 2 * erfinv 0.68.
Proof.
  intros Hl Hlb Hbu. unfold sigma_max_at.
  assert (Hu : 0 < (ln upper - ln base) / 1.645).
  { assert (ln base < ln upper) by (apply ln_increasing; lra).
    apply Rdiv_lt_0_compat; lra. }
  pose proof (Rmax_r ((ln base - ln lower) / 1.645)
                     ((ln upper - ln base) / 1.645)) as Hm.
  pose proof sqrt2_pos.
  apply Rmult_lt_0_compat; [apply Rmult_lt_0_compat|]; lra.
Qed.

(** The arrays of lines 181-187 at a pixel where the values read satisfy
    0 < lower < base < upper. *)
Lemma bounds_values
    (rast rast_l rast_u : Raster) (i j : nat) (vb vl vu : Z) :
  r_height rast_l = r_height rast -> r_width rast_l = r_width rast ->
  r_height rast_u = r_height rast -> r_width rast_u = r_width rast ->
  (i < r_height rast)%nat -> (j < r_width rast)%nat ->
  r_data rast i j = Val vb -> r_data rast_l i j = Val vl ->
  r_data rast_u i j = Val vu ->
  (0 < round_f32 vl < round_f32 vb)%Z -> (round_f32 vb < round_f32 vu)%Z ->
  let base := IZR (round_f32 vb) / 1000 in
  let lower := IZR (round_f32 vl) / 1000 in
  let upper := IZR (round_f32 vu) / 1000 in
  exists p_1pct_plus p_1pct_minus plus minus,
    bounds erfinv (map_array mask_and_scale (read_band rast))
                  (map_array mask_and_scale (read_band rast_l))
                  (map_array mask_and_scale (read_band rast_u))
    = Ok (p_1pct_plus, p_1pct_minus)
    /\ shape p_1pct_plus = (r_height rast, r_width rast)
    /\ shape p_1pct_minus = (r_height rast, r_width rast)
    /\ at_ p_1pct_plus i j = Some plus
    /\ at_ p_1pct_minus i j = Some minus
    /\ minus < base < plus
    /\ ln plus - ln base = ln base - ln minus
    /\ ln plus - ln base = sigma_max_at base lower upper * sqrt 2 * erfinv 0.68.
Proof.
  intros Hhl Hwl Hhu Hwu Hi Hj Db Dl Du [Hl Hlb] Hbu base lower upper.
  assert (Pl : 0 < IZR (round_f32 vl)) by (apply (IZR_lt 0); lia).
  assert (Pb : IZR (round_f32 vl) < IZR (round_f32 vb)) by (apply IZR_lt; lia).
  assert (Pu : IZR (round_f32 vb) < IZR (round_f32 vu)) by (apply IZR_lt; lia).
  assert (Hlower : 0 < lower) by (unfold lower; lra).
  assert (Hbase : lower < base) by (unfold lower, base; lra).
  assert (Hupper : base < upper) by (unfold base, upper; lra).
  pose proof (half_width_pos base lower upper Hlower Hbase Hupper) as Ht.
  set (t := sigma_max_at base lower upper * sqrt 2 * erfinv 0.68) in *.
  unfold bounds, map2_array, map_array, read_band. cbn [shape fst snd at_].
  rewrite Hhl, Hwl, Hhu, Hwu. unfold bdim.
  repeat (rewrite !Nat.eqb_refl; cbn [bind shape fst snd at_]).
  do 2 eexists. exists (exp (ln base + t)), (exp (ln base - t)).
  split; [reflexivity|]. cbn [at_ shape].
  split; [reflexivity|]. split; [reflexivity|].
  rewrite !(bidx_id _ i Hi), !(bidx_id _ j Hj), Db, Dl, Du.
  rewrite !mask_and_scale_pos by lra.
  fold base lower upper.
  rewrite !np_log_pos by lra.
  cbn [lift1 lift2 option_map].
  replace (2 * 0.84 - 1) with 0.68 by lra.
  replace (2 * 0.16 - 1) with (Ropp 0.68) by lra.
  rewrite erfinv_odd.
  split; [reflexivity|]. split.
  { f_equal. f_equal. unfold t, sigma_max_at. ring. }
  rewrite !ln_exp.
  assert (Eb : base = exp (ln base)) by (symmetry; apply exp_ln; lra).
  split; [|split; lra].
  split.
  - rewrite Eb at 2. apply exp_increasing. lra.
  - rewrite Eb at 1. apply exp_increasing. lra.
Qed.
(** A band without width: where the three values read are one positive
    value, both arrays hold that value. *)
Lemma bounds_flat
    (rast rast_l rast_u : Raster) (i j : nat) (vb vl vu v : Z) :
  r_height rast_l = r_height rast -> r_width rast_l = r_width rast ->
  r_height rast_u = r_height rast -> r_width rast_u = r_width rast ->
  (i < r_height rast)%nat -> (j < r_width rast)%nat ->
  r_data rast i j = Val vb -> r_data rast_l i j = Val vl ->
  r_data rast_u i j = Val vu ->
  round_f32 vb = v -> round_f32 vl = v -> round_f32 vu = v -> (0 < v)%Z ->
  exists p_1pct_plus p_1pct_minus,
    bounds erfinv (map_array mask_and_scale (read_band rast))
                  (map_array mask_and_scale (read_band rast_l))
                  (map_array mask_and_scale (read_band rast_u))
    = Ok (p_1pct_plus, p_1pct_minus)
    /\ shape p_1pct_plus = (r_height rast, r_width rast)
    /\ shape p_1pct_minus = (r_height rast, r_width rast)
    /\ at_ p_1pct_plus i j = Some (IZR v / 1000)
    /\ at_ p_1pct_minus i j = Some (IZR v / 1000).
Proof.
  intros Hhl Hwl Hhu Hwu Hi Hj Db Dl Du Eb El Eu Hv.
  assert (Pv : 0 < IZR v) by (apply (IZR_lt 0); lia).
  assert (Hpos : 0 < IZR v / 1000) by lra.
  unfold bounds, map2_array, map_array, read_band. cbn [shape fst snd at_].
  rewrite Hhl, Hwl, Hhu, Hwu. unfold bdim.
  repeat (rewrite !Nat.eqb_refl; cbn [bind shape fst snd at_]).
  do 2 eexists. split; [reflexivity|]. cbn [at_ shape].
  split; [reflexivity|]. split; [reflexivity|].
  rewrite !(bidx_id _ i Hi), !(bidx_id _ j Hj), Db, Dl, Du, Eb, El, Eu.
  rewrite !mask_and_scale_pos by lra.
  rewrite !np_log_pos by lra.
  cbn [lift1 lift2 option_map].
  assert (E : forall k, exp (ln (IZR v / 1000)
                              + Rmax ((ln (IZR v / 1000) - ln (IZR v / 1000))
                                      / 1.645)
                                     ((ln (IZR v / 1000) - ln (IZR v / 1000))
                                      / 1.645) * sqrt 2 * k)
                       = IZR v / 1000).
  { intros k.
    replace ((ln (IZR v / 1000) - ln (IZR v / 1000)) / 1.645) with 0 by lra.
    rewrite Rmax_left by lra.
    replace (ln (IZR v / 1000) + 0 * sqrt 2 * k) with (ln (IZR v / 1000))
      by ring.
    now apply exp_ln. }
  now rewrite !E.
Qed.

Lemma around_IZR z : around (IZR z) = z.
Proof.
  unfold around.
  assert (Hup : up (IZR z) = (z + 1)%Z).
  { symmetry. apply up_tech; [lra|]. rewrite plus_IZR. lra. }
  rewrite Hup. replace (z + 1 - 1)%Z with z by lia.
  destruct (Rlt_dec (IZR z - IZR z) (1 / 2)) as [_ | N]; [reflexivity|].
  exfalso. apply N. lra.
Qed.

Lemma to_cell_thousandths z :
  to_cell (Some (IZR z / 1000)) = Val (round_f32 z).
Proof.
  unfold to_cell. replace (IZR z / 1000 * 1000) with (IZR z) by lra.
  now rewrite around_IZR.
Qed.
End BoundsProps.

(** ** ConfidenceIntervalEngine: the loop over durations *)

Section ConfidenceWorld.
Import Confidence Invariants.

Lemma extends_refl f w : extends f w w.
Proof. constructor; auto. Qed.

Lemma extends_trans f w1 w2 w3 :
  extends f w1 w2 -> extends f w2 w3 -> extends f w1 w3.
Proof.
  intros [T1 N1 O1] [T2 N2 O2]. constructor.
  - auto.
  - intros n H. destruct (N2 n H) as [H' | H']; auto.
  - congruence.
Qed.

Lemma extends_log f l w : extends f w (log l w).
Proof.
  constructor.
  - intros ev H. right. exact H.
  - destruct f; auto.
  - destruct f; reflexivity.
Qed.

Lemma extends_write f name r w :
  output_name name -> extends f w (write_raster f name r w).
Proof.
  intros Hout. constructor.
  - intros ev H. destruct f; right; exact H.
  - intros n H.
    assert (Hn : In n (dir_names
                         (dir_write (name ++ ".aux.xml") Opaque
                            (dir_write name (RasterFile r)
                               (listing (folder_dir f w))))))
      by (destruct f; exact H).
    apply dir_names_write in Hn. destruct Hn as [-> | Hn].
    + right. right. now exists name.
    + apply dir_names_write in Hn. destruct Hn as [-> | Hn]; auto.
  - destruct f; reflexivity.
Qed.

Lemma save_extends f out_meta name data w :
  output_name name -> extends f w (save f out_meta name data w).
Proof. intros Hout. unfold save. now apply extends_write. Qed.

Variable erfinv : R -> R.

Lemma compute_body_extends f b u l w :
  extends f w (fst (compute_body erfinv f b u l w)).
Proof.
  unfold compute_body.
  destruct (Mosaicker.open_raster _ b) as [rast|]; [|apply extends_refl].
  destruct (Mosaicker.open_raster _ l) as [rast_l|]; [|apply extends_refl].
  destruct (Mosaicker.open_raster _ u) as [rast_u|]; [|apply extends_refl].
  destruct (bounds _ _ _ _) as [[pp pm]|]; [|apply extends_refl].
  cbn [fst].
  apply (extends_trans f w (save f rast (stem b ++ "_plus" ++ ".asc") pp w)).
  - apply save_extends. exists (stem b). now left.
  - apply save_extends. exists (stem b). now right.
Qed.

Lemma compute_extends f b u l w :
  extends f w (fst (compute_1pct_plus_and_minus erfinv f b u l w)).
Proof.
  unfold compute_1pct_plus_and_minus.
  pose proof (compute_body_extends f b u l w) as H.
  destruct (compute_body erfinv f b u l w) as [w1 [[]|e]]; simpl in *.
  - exact H.
  - apply (extends_trans f w w1); [exact H | apply extends_log].
Qed.

Lemma duration_body_extends f dur w :
  extends f w (fst (duration_body erfinv f dur w)).
Proof.
  unfold duration_body.
  destruct (next_glob _ _) as [b|]; [|apply extends_refl].
  destruct (next_glob _ _) as [u|]; [|apply extends_refl].
  destruct (next_glob _ _) as [l|]; [|apply extends_refl].
  apply compute_extends.
Qed.

Lemma process_duration_extends f dur w :
  extends f w (fst (process_duration erfinv f dur w)).
Proof.
  unfold process_duration.
  pose proof (duration_body_extends f dur w) as H.
  destruct (duration_body erfinv f dur w) as [w1 [[]|e]]; simpl in *.
  - exact H.
  - destruct e; simpl;
      (apply (extends_trans f w w1); [exact H | apply extends_log]).
Qed.

(** One turn of the loop never raises. *)
Lemma process_duration_ok f dur w :
  snd (process_duration erfinv f dur w) = Ok tt.
Proof.
  unfold process_duration.
  destruct (duration_body erfinv f dur w) as [w1 [[]|e]]; [reflexivity|].
  destruct e; reflexivity.
Qed.

Lemma durations_loop_step f dur rest w :
  durations_loop erfinv f (dur :: rest) w
  = durations_loop erfinv f rest (fst (process_duration erfinv f dur w)).
Proof.
  simpl. pose proof (process_duration_ok f dur w) as H.
  destruct (process_duration erfinv f dur w) as [w1 r]. simpl in *.
  now rewrite H.
Qed.

Lemma durations_loop_ok f dur_list :
  forall w, snd (durations_loop erfinv f dur_list w) = Ok tt.
Proof.
  induction dur_list as [|dur rest IH]; intros w; [reflexivity|].
  rewrite durations_loop_step. apply IH.
Qed.

Lemma durations_loop_extends f dur_list :
  forall w, extends f w (fst (durations_loop erfinv f dur_list w)).
Proof.
  induction dur_list as [|dur rest IH]; intros w; [apply extends_refl|].
  rewrite durations_loop_step.
  apply (extends_trans f w (fst (process_duration erfinv f dur w)));
    [apply process_duration_extends | apply IH].
Qed.

Lemma next_glob_absent d lit :
  absent d lit <-> next_glob d lit = Raise StopIteration.
Proof.
  unfold absent, next_glob. split.
  - intros H.
    destruct (filter _ _) as [|n ns] eqn:E; [reflexivity|].
    assert (Hin : In n (filter (Naming.glob_star lit) (dir_names (listing d))))
      by (rewrite E; now left).
    apply filter_In in Hin. destruct Hin as [Hin Hm].
    rewrite (H n Hin) in Hm. discriminate.
  - intros H name Hin.
    destruct (Naming.glob_star lit name) eqn:E; [|reflexivity].
    assert (Hf : In name (filter (Naming.glob_star lit) (dir_names (listing d))))
      by (apply filter_In; auto).
    destruct (filter _ _); [contradiction | discriminate].
Qed.

Lemma next_glob_raise d lit e :
  next_glob d lit = Raise e -> e = StopIteration.
Proof.
  unfold next_glob. destruct (filter _ _); [|discriminate].
  intros H. now injection H as <-.
Qed.

(** A duration with a role file missing: a warning, and nothing else. *)
Lemma process_duration_missing f dur w lit :
  In lit (role_patterns dur) -> absent (folder_dir f w) lit ->
  process_duration erfinv f dur w
  = (log (LogWarning ("Missing files for duration " ++ dur)) w, Ok tt).
Proof.
  intros Hlit Habs. apply next_glob_absent in Habs.
  unfold process_duration, duration_body.
  destruct (next_glob (folder_dir f w) ("100yr" ++ dur ++ "a.asc"))
    as [b|e] eqn:Eb.
  2:{ apply next_glob_raise in Eb. subst e. reflexivity. }
  destruct (next_glob (folder_dir f w) ("100yr" ++ dur ++ "au.asc"))
    as [u|e] eqn:Eu.
  2:{ apply next_glob_raise in Eu. subst e. reflexivity. }
  destruct (next_glob (folder_dir f w) ("100yr" ++ dur ++ "al.asc"))
    as [l|e] eqn:El.
  2:{ apply next_glob_raise in El. subst e. reflexivity. }
  exfalso. destruct Hlit as [<- | [<- | [<- | []]]]; congruence.
Qed.
End ConfidenceWorld.

Section ConfidenceLoopProps.
Import Confidence Invariants.

Lemma suffix_clash (a b x y : string) :
  String.length x = String.length y -> x <> y -> a ++ x <> b ++ y.
Proof.
  intros Hl Hne H. apply append_same_length_suffix in H; [|assumption].
  destruct H as [_ H]. contradiction.
Qed.

Lemma role_pattern_tail dur lit :
  In lit (role_patterns dur) ->
  exists pre suf, lit = pre ++ suf /\ In suf ["a.asc"; "u.asc"; "l.asc"].
Proof.
  intros [<- | [<- | [<- | []]]].
  - exists ("100yr" ++ dur), "a.asc". rewrite append_assoc'. simpl. auto.
  - exists ("100yr" ++ dur ++ "a"), "u.asc".
    rewrite !append_assoc'. simpl. auto.
  - exists ("100yr" ++ dur ++ "a"), "l.asc".
    rewrite !append_assoc'. simpl. auto.
Qed.

(** The files the confidence step writes match no role pattern. *)
Lemma output_not_role dur lit n :
  In lit (role_patterns dur) -> output_name n ->
  Naming.glob_star lit n = false.
Proof.
  intros Hlit [x Hn].
  destruct (Naming.glob_star lit n) eqn:E; [|reflexivity].
  exfalso. apply glob_star_spec in E. destruct E as [p Hp].
  destruct (role_pattern_tail dur lit Hlit) as [pre [suf [-> Hsuf]]].
  rewrite <- append_assoc' in Hp.
  assert (Hs : n = (x ++ "_plu") ++ "s.asc" \/ n = (x ++ "_minu") ++ "s.asc").
  { destruct Hn as [-> | ->]; [left | right];
      rewrite append_assoc'; reflexivity. }
  destruct Hs as [Hs | Hs]; rewrite Hs in Hp; revert Hp;
    apply suffix_clash;
    destruct Hsuf as [<- | [<- | [<- | []]]];
    try reflexivity; discriminate.
Qed.

(** Nor do their side files. *)
Lemma side_not_role dur lit n :
  In lit (role_patterns dur) -> side_name n ->
  Naming.glob_star lit n = false.
Proof.
  intros Hlit [m [_ ->]].
  destruct (Naming.glob_star lit (m ++ ".aux.xml")) eqn:E; [|reflexivity].
  exfalso. apply glob_star_spec in E. destruct E as [p Hp].
  destruct (role_pattern_tail dur lit Hlit) as [pre [suf [-> Hsuf]]].
  rewrite <- append_assoc' in Hp.
  replace (m ++ ".aux.xml") with ((m ++ ".au") ++ "x.xml") in Hp
    by (rewrite append_assoc'; reflexivity).
  revert Hp. apply suffix_clash;
    destruct Hsuf as [<- | [<- | [<- | []]]];
    try reflexivity; discriminate.
Qed.

Lemma absent_extends f w w' dur lit :
  In lit (role_patterns dur) ->
  extends f w w' -> absent (folder_dir f w) lit -> absent (folder_dir f w') lit.
Proof.
  intros Hlit [_ Hn _] Habs name Hin.
  destruct (Hn name Hin) as [H | [H | H]].
  - now apply Habs.
  - now apply (output_not_role dur).
  - now apply (side_not_role dur).
Qed.

Variable erfinv : R -> R.

Lemma durations_loop_warns f dur lit dur_list :
  forall w,
    In dur dur_list -> In lit (role_patterns dur) ->
    absent (folder_dir f w) lit ->
    In (EvLog (LogWarning ("Missing files for duration " ++ dur)))
       (trace (fst (durations_loop erfinv f dur_list w))).
Proof.
  induction dur_list as [|d rest IH]; intros w Hin Hlit Habs; [contradiction|].
  rewrite durations_loop_step. destruct Hin as [-> | Hin].
  - rewrite (process_duration_missing erfinv f dur w lit Hlit Habs).
    cbn [fst].
    apply (ext_trace f _ _ (durations_loop_extends erfinv f rest _)).
    now left.
  - apply IH; [assumption | assumption |].
    apply (absent_extends f w _ dur lit Hlit); [|assumption].
    apply process_duration_extends.
Qed.

(** C9: [process_confidence_intervals] never raises; for every duration
    of the list for which one of the three role files (base
    [*100yr{dur}a.asc], upper [*100yr{dur}au.asc], lower
    [*100yr{dur}al.asc]) is absent from the folder, the warning "Missing
    files for duration {dur}" is logged; such a turn of the loop does
    nothing else; a turn in which the computation raises another error
    logs it and returns normally; and after every turn the loop goes on
    with the remaining durations. *)
Theorem missing_roles_skipped_with_warning
    (f : folder) (dur_list : list string) (w : World) :
  snd (process_confidence_intervals erfinv f dur_list w) = Ok tt
  /\ (forall dur lit,
        In dur dur_list -> In lit (role_patterns dur) ->
        absent (folder_dir f w) lit ->
        In (EvLog (LogWarning ("Missing files for duration " ++ dur)))
           (trace (fst (process_confidence_intervals erfinv f dur_list w))))
  /\ (forall dur lit w1,
        In lit (role_patterns dur) -> absent (folder_dir f w1) lit ->
        process_duration erfinv f dur w1
        = (log (LogWarning ("Missing files for duration " ++ dur)) w1, Ok tt))
  /\ (forall dur w1 w2 e,
        duration_body erfinv f dur w1 = (w2, Raise e) ->
        e <> StopIteration ->
        process_duration erfinv f dur w1
        = (log (LogError ("Error processing duration " ++ dur)) w2, Ok tt))
  /\ (forall dur rest w1,
        durations_loop erfinv f (dur :: rest) w1
        = durations_loop erfinv f rest
            (fst (process_duration erfinv f dur w1))).
Proof.
  split; [|split; [|split; [|split]]].
  - apply durations_loop_ok.
  - intros dur lit Hin Hlit Habs. unfold process_confidence_intervals.
    apply (durations_loop_warns f dur lit); auto.
  - intros dur lit w1. apply process_duration_missing.
  - intros dur w1 w2 e Hb Hne. unfold process_duration. rewrite Hb.
    destruct e; try reflexivity. contradiction.
  - intros dur rest w1. apply durations_loop_step.
Qed.
End ConfidenceLoopProps.

(** In the sample mosaic folder the duration 06h lacks its upper file and
    the duration 12h all three. *)
Lemma missing_roles_skipped_with_warning_witness :
  let w' := fst (Confidence.process_confidence_intervals (fun x => x)
                   Confidence.NOAA_grids_mosaic ["06h"; "24h"; "12h"]
                   one_duration_world) in
  In (EvLog (LogWarning "Missing files for duration 06h")) (trace w')
  /\ In (EvLog (LogWarning "Missing files for duration 12h")) (trace w')
  /\ snd (Confidence.process_confidence_intervals (fun x => x)
            Confidence.NOAA_grids_mosaic ["06h"; "24h"; "12h"]
            one_duration_world) = Ok tt.
Proof.
  destruct (missing_roles_skipped_with_warning (fun x => x)
              Confidence.NOAA_grids_mosaic ["06h"; "24h"; "12h"]
              one_duration_world) as [Hok [Hwarn _]].
  split; [|split; [|exact Hok]].
  - apply (Hwarn "06h" "100yr06hau.asc"); [simpl; auto | simpl; auto |].
    intros name Hin. simpl in Hin.
    repeat (destruct Hin as [<- | Hin]; [reflexivity|]). contradiction.
  - apply (Hwarn "12h" "100yr12ha.asc"); [simpl; auto | simpl; auto |].
    intros name Hin. simpl in Hin.
    repeat (destruct Hin as [<- | Hin]; [reflexivity|]). contradiction.
Defined.

(** ** ConfidenceIntervalEngine: what is checked before the computation *)

Section ComputeProps.
Import Confidence Invariants.

Variable erfinv : R -> R.

Lemma bounds_same_shape (a l u : Array) :
  shape l = shape a -> shape u = shape a ->
  exists pp pm, bounds erfinv a l u = Ok (pp, pm)
                /\ shape pp = shape a /\ shape pm = shape a.
Proof.
  intros Hl Hu. unfold bounds, map2_array, map_array.
  cbn [shape fst snd at_]. rewrite Hl, Hu. unfold bdim.
  repeat (rewrite !Nat.eqb_refl; cbn [bind shape fst snd at_]).
  do 2 eexists. split; [reflexivity|].
  cbn [shape]. destruct (shape a). auto.
Qed.

Lemma read_shape r : shape (map_array mask_and_scale (read_band r))
                     = (r_height r, r_width r).
Proof. reflexivity. Qed.

Lemma folder_dir_write f name r w :
  folder_dir f (write_raster f name r w)
  = Some (dir_write (name ++ ".aux.xml") Opaque
            (dir_write name (RasterFile r) (listing (folder_dir f w)))).
Proof. destruct f; reflexivity. Qed.

Lemma stem_names_differ (x s t : string) : s <> t -> x ++ s <> x ++ t.
Proof. intros Hne H. apply append_inj_l in H. contradiction. Qed.

(** Once the three rasters are open and the arrays computed, both outputs
    are written, under the metadata of the base raster. *)
Lemma compute_outputs
    (f : folder) (b u l : string) (w : World) (rast rast_u rast_l : Raster)
    (pp pm : Array) :
  dir_lookup b (listing (folder_dir f w)) = Some (RasterFile rast) ->
  dir_lookup u (listing (folder_dir f w)) = Some (RasterFile rast_u) ->
  dir_lookup l (listing (folder_dir f w)) = Some (RasterFile rast_l) ->
  bounds erfinv (map_array mask_and_scale (read_band rast))
                (map_array mask_and_scale (read_band rast_l))
                (map_array mask_and_scale (read_band rast_u)) = Ok (pp, pm) ->
  exists w',
    compute_1pct_plus_and_minus erfinv f b u l w = (w', Ok tt)
    /\ dir_lookup (stem b ++ "_plus.asc") (listing (folder_dir f w'))
       = Some (RasterFile (band_raster rast pp))
    /\ dir_lookup (stem b ++ "_minus.asc") (listing (folder_dir f w'))
       = Some (RasterFile (band_raster rast pm)).
Proof.
  intros Hb Hu Hl Hbounds.
  unfold compute_1pct_plus_and_minus, compute_body, Mosaicker.open_raster.
  rewrite Hb, Hl, Hu, Hbounds. unfold save.
  eexists. split; [reflexivity|].
  rewrite !folder_dir_write. cbn [listing].
  change (stem b ++ "_plus" ++ ".asc") with (stem b ++ "_plus.asc").
  change (stem b ++ "_minus" ++ ".asc") with (stem b ++ "_minus.asc").
  rewrite !append_assoc'. cbn [append].
  split.
  - rewrite !dir_lookup_write_other
      by (apply stem_names_differ; discriminate).
    apply dir_lookup_write.
  - rewrite dir_lookup_write_other
      by (apply stem_names_differ; discriminate).
    apply dir_lookup_write.
Qed.

(** C3, as the code has it: [compute_1pct_plus_and_minus] compares neither
    shapes nor transforms.  On three readable rasters of one shape it
    succeeds whatever their transforms, and writes both outputs with the
    shape and the transform of the base raster.  What fails is what numpy
    and the file layer refuse (a band that cannot be read, shapes that
    cannot be broadcast): such a failure is raised by the function, and in
    [process_confidence_intervals] it is logged and the loop returns
    normally, so that sibling durations are computed. *)
Theorem compute_checks_no_transform
    (f : folder) (b u l : string) (w : World) (rast rast_u rast_l : Raster) :
  dir_lookup b (listing (folder_dir f w)) = Some (RasterFile rast) ->
  dir_lookup u (listing (folder_dir f w)) = Some (RasterFile rast_u) ->
  dir_lookup l (listing (folder_dir f w)) = Some (RasterFile rast_l) ->
  r_height rast_u = r_height rast -> r_width rast_u = r_width rast ->
  r_height rast_l = r_height rast -> r_width rast_l = r_width rast ->
  (exists plus minus w',
     compute_1pct_plus_and_minus erfinv f b u l w = (w', Ok tt)
     /\ dir_lookup (stem b ++ "_plus.asc") (listing (folder_dir f w'))
        = Some (RasterFile plus)
     /\ dir_lookup (stem b ++ "_minus.asc") (listing (folder_dir f w'))
        = Some (RasterFile minus)
     /\ r_transform plus = r_transform rast
     /\ r_transform minus = r_transform rast
     /\ (r_height plus, r_width plus) = (r_height rast, r_width rast)
     /\ (r_height minus, r_width minus) = (r_height rast, r_width rast))
  /\ (forall dur w1 w2 e,
        duration_body erfinv f dur w1 = (w2, Raise e) ->
        exists l,
          process_duration erfinv f dur w1 = (log l w2, Ok tt))
  /\ (forall dur_list w1,
        snd (process_confidence_intervals erfinv f dur_list w1) = Ok tt).
Proof.
  intros Hb Hu Hl Hhu Hwu Hhl Hwl. split; [|split].
  - destruct (bounds_same_shape
                (map_array mask_and_scale (read_band rast))
                (map_array mask_and_scale (read_band rast_l))
                (map_array mask_and_scale (read_band rast_u)))
      as [pp [pm [Hbounds [Spp Spm]]]].
    { rewrite !read_shape. congruence. }
    { rewrite !read_shape. congruence. }
    destruct (compute_outputs f b u l w rast rast_u rast_l pp pm
                Hb Hu Hl Hbounds) as [w' [Hrun [Hplus Hminus]]].
    exists (band_raster rast pp), (band_raster rast pm), w'.
    repeat split; assumption.
  - intros dur w1 w2 e Hbody. unfold process_duration. rewrite Hbody.
    destruct e; eexists; reflexivity.
  - intros dur_list w1. apply durations_loop_ok.
Qed.
End ComputeProps.

Lemma compute_checks_no_transform_witness :
  exists plus minus w',
    Confidence.compute_1pct_plus_and_minus (fun x => x) Confidence.NOAA_grids
      "se100yr24ha.asc" "se100yr24hau.asc" "se100yr24hal.asc" two_zone_world
    = (w', Ok tt)
    /\ dir_lookup "se100yr24ha_plus.asc" (listing (grids w'))
       = Some (RasterFile plus)
    /\ dir_lookup "se100yr24ha_minus.asc" (listing (grids w'))
       = Some (RasterFile minus)
    /\ r_transform plus = mkTransform 0 0
    /\ r_transform minus = mkTransform 0 0.
Proof.
  destruct (compute_checks_no_transform (fun x => x) Confidence.NOAA_grids
              "se100yr24ha.asc" "se100yr24hau.asc" "se100yr24hal.asc"
              two_zone_world
              (const_raster 2 3 0 0 1000) (const_raster 2 3 0 0 1300)
              (const_raster 2 3 0 0 700)
              eq_refl eq_refl eq_refl eq_refl eq_refl eq_refl eq_refl)
    as [[plus [minus [w' [H1 [H2 [H3 [H4 [H5 _]]]]]]]] _].
  exists plus, minus, w'. auto.
Defined.

(** C3, as stated, fails: the upper raster has another transform than the
    base raster and the lower raster another shape, and the computation goes
    through, both outputs being written and no error logged. *)
Lemma mismatched_triple_is_computed :
  transform_eqb (r_transform (const_raster 2 3 5 7 1300))
                (r_transform (const_raster 2 3 0 0 1000)) = false
  /\ (r_height (const_raster 1 1 0 0 700), r_width (const_raster 1 1 0 0 700))
     <> (r_height (const_raster 2 3 0 0 1000), r_width (const_raster 2 3 0 0 1000))
  /\ snd (Confidence.compute_1pct_plus_and_minus (fun x => x)
            Confidence.NOAA_grids "se100yr24ha.asc" "se100yr24hau.asc"
            "se100yr24hal.asc" mismatched_world) = Ok tt
  /\ trace (fst (Confidence.process_confidence_intervals (fun x => x)
                   Confidence.NOAA_grids ["24h"] mismatched_world))
     = [EvWriteRaster "NOAA_grids" "se100yr24ha_minus.asc";
        EvWriteRaster "NOAA_grids" "se100yr24ha_plus.asc";
        EvLog (LogInfo "Computing 1% plus/minus grids")].
Proof.
  split; [reflexivity|]. split; [discriminate|]. split; reflexivity.
Qed.

(** ** ConfidenceIntervalEngine: the bounds and the files that hold them *)

Section BoundsFiles.
Import Confidence.
Local Open Scope R_scope.

Variable erfinv : R -> R.
Hypothesis erfinv_odd : forall x, erfinv (- x) = - erfinv x.
Hypothesis erfinv_pos : 0 < erfinv 0.68.

Lemma resample_same n i : resample n n i = i.
Proof. unfold resample. now rewrite Nat.eqb_refl. Qed.

Lemma band_raster_cell (out_meta : Raster) (data : Array) (i j : nat) :
  shape data = (r_height out_meta, r_width out_meta) ->
  r_data (band_raster out_meta data) i j
  = cast_cell (is_int32 out_meta) (to_cell (at_ data i j)).
Proof.
  intros Hs. unfold band_raster. cbn [r_data]. rewrite Hs. cbn [fst snd].
  now rewrite !resample_same.
Qed.

(** C2, as the code has it: at a pixel where the three cells, read as
    float32, satisfy 0 < lower < base < upper, the bounds of lines 181-187
    taken in exact arithmetic satisfy minus < base < plus and
    ln plus - ln base = ln base - ln minus = sigma * sqrt 2 * erfinv 0.68,
    with sigma the larger of (ln base - ln lower) / 1.645 and
    (ln upper - ln base) / 1.645, the values being rescaled from
    thousandths; [compute_1pct_plus_and_minus] returns normally and the two
    rasters it writes hold, at that pixel, these bounds in thousandths,
    rounded to the nearest integer and cast to float32 and to the data type
    of the base file. *)
Theorem bounds_symmetric_in_log_space
    (f : folder) (b u l : string) (w : World) (rast rast_u rast_l : Raster)
    (i j : nat) (vb vl vu : Z) :
  dir_lookup b (listing (folder_dir f w)) = Some (RasterFile rast) ->
  dir_lookup u (listing (folder_dir f w)) = Some (RasterFile rast_u) ->
  dir_lookup l (listing (folder_dir f w)) = Some (RasterFile rast_l) ->
  r_height rast_l = r_height rast -> r_width rast_l = r_width rast ->
  r_height rast_u = r_height rast -> r_width rast_u = r_width rast ->
  (i < r_height rast)%nat -> (j < r_width rast)%nat ->
  r_data rast i j = Val vb -> r_data rast_l i j = Val vl ->
  r_data rast_u i j = Val vu ->
  (0 < round_f32 vl < round_f32 vb)%Z -> (round_f32 vb < round_f32 vu)%Z ->
  let base := IZR (round_f32 vb) / 1000 in
  let lower := IZR (round_f32 vl) / 1000 in
  let upper := IZR (round_f32 vu) / 1000 in
  exists plus minus file_plus file_minus w',
    compute_1pct_plus_and_minus erfinv f b u l w = (w', Ok tt)
    /\ dir_lookup (stem b ++ "_plus.asc") (listing (folder_dir f w'))
       = Some (RasterFile file_plus)
    /\ dir_lookup (stem b ++ "_minus.asc") (listing (folder_dir f w'))
       = Some (RasterFile file_minus)
    /\ r_data file_plus i j = cast_cell (is_int32 rast) (to_cell (Some plus))
    /\ r_data file_minus i j = cast_cell (is_int32 rast) (to_cell (Some minus))
    /\ (minus < base < plus)%R
    /\ (ln plus - ln base = ln base - ln minus)%R
    /\ (ln plus - ln base
        = sigma_max_at base lower upper * sqrt 2 * erfinv 0.68)%R.
Proof.
  intros Hb Hu Hl Hhl Hwl Hhu Hwu Hi Hj Db Dl Du Hlow Hup base lower upper.
  destruct (bounds_values erfinv erfinv_odd erfinv_pos rast rast_l rast_u
              i j vb vl vu Hhl Hwl Hhu Hwu Hi Hj Db Dl Du Hlow Hup)
    as [pp [pm [plus [minus [Hbounds [Spp [Spm [Hp [Hm Hrel]]]]]]]]].
  destruct (compute_outputs erfinv f b u l w rast rast_u rast_l pp pm
              Hb Hu Hl Hbounds) as [w' [Hrun [Hplus Hminus]]].
  exists plus, minus, (band_raster rast pp), (band_raster rast pm), w'.
  split; [exact Hrun|]. split; [exact Hplus|]. split; [exact Hminus|].
  rewrite !band_raster_cell by assumption. rewrite Hp, Hm.
  split; [reflexivity|]. split; [reflexivity|]. exact Hrel.
Qed.
End BoundsFiles.

(** The symmetric band of the specification: base 1000, lower 700,
    upper 1300 thousandths. *)
Lemma bounds_symmetric_in_log_space_witness :
  exists plus minus file_plus file_minus w',
    Confidence.compute_1pct_plus_and_minus (fun x => x) Confidence.NOAA_grids
      "se100yr24ha.asc" "se100yr24hau.asc" "se100yr24hal.asc" two_zone_world
    = (w', Ok tt)
    /\ dir_lookup "se100yr24ha_plus.asc" (listing (grids w'))
       = Some (RasterFile file_plus)
    /\ dir_lookup "se100yr24ha_minus.asc" (listing (grids w'))
       = Some (RasterFile file_minus)
    /\ r_data file_plus 1 2
       = Confidence.cast_cell true (Confidence.to_cell (Some plus))
    /\ r_data file_minus 1 2
       = Confidence.cast_cell true (Confidence.to_cell (Some minus))
    /\ (minus < IZR (Confidence.round_f32 1000) / 1000 < plus)%R.
Proof.
  destruct (bounds_symmetric_in_log_space (fun x => x)
              (fun x => eq_refl) ltac:(lra) Confidence.NOAA_grids
              "se100yr24ha.asc" "se100yr24hau.asc" "se100yr24hal.asc"
              two_zone_world
              (const_raster 2 3 0 0 1000) (const_raster 2 3 0 0 1300)
              (const_raster 2 3 0 0 700) 1 2 1000%Z 700%Z 1300%Z
              eq_refl eq_refl eq_refl eq_refl eq_refl eq_refl eq_refl
              ltac:(simpl; lia) ltac:(simpl; lia) eq_refl eq_refl eq_refl
              ltac:(vm_compute; split; reflexivity)
              ltac:(vm_compute; reflexivity))
    as [plus [minus [fp [fm [w' [H1 [H2 [H3 [H4 [H5 [H6 _]]]]]]]]]]].
  exists plus, minus, fp, fm, w'. repeat split; try assumption; apply H6.
Defined.

(** C2, as stated, fails on the rasters that are written: the cells
    1999999999 < 2000000000 < 2000000001 are one and the same float32, so
    the band has no width and the plus and the minus raster hold the same
    value, whatever the inverse error function. *)
Lemma close_cells_give_equal_bounds :
  (0 < 1999999999 < 2000000000)%Z /\ (2000000000 < 2000000001)%Z
  /\ forall erfinv : R -> R,
       exists file_plus file_minus w' k,
         Confidence.compute_1pct_plus_and_minus erfinv Confidence.NOAA_grids
           "se100yr24ha.asc" "se100yr24hau.asc" "se100yr24hal.asc" close_world
         = (w', Ok tt)
         /\ dir_lookup "se100yr24ha_plus.asc" (listing (grids w'))
            = Some (RasterFile file_plus)
         /\ dir_lookup "se100yr24ha_minus.asc" (listing (grids w'))
            = Some (RasterFile file_minus)
         /\ r_data file_plus 0 0 = Val k
         /\ r_data file_minus 0 0 = Val k.
Proof.
  split; [lia|]. split; [lia|]. intros erfinv.
  destruct (bounds_flat erfinv
              (const_raster 1 1 0 0 2000000000)
              (const_raster 1 1 0 0 1999999999)
              (const_raster 1 1 0 0 2000000001)
              0 0 2000000000 1999999999 2000000001 2000000000
              eq_refl eq_refl eq_refl eq_refl
              ltac:(simpl; lia) ltac:(simpl; lia) eq_refl eq_refl eq_refl
              ltac:(vm_compute; reflexivity) ltac:(vm_compute; reflexivity)
              ltac:(vm_compute; reflexivity) ltac:(lia))
    as [pp [pm [Hbounds [Spp [Spm [Hp Hm]]]]]].
  destruct (compute_outputs erfinv Confidence.NOAA_grids
              "se100yr24ha.asc" "se100yr24hau.asc" "se100yr24hal.asc"
              close_world
              (const_raster 1 1 0 0 2000000000)
              (const_raster 1 1 0 0 2000000001)
              (const_raster 1 1 0 0 1999999999) pp pm
              eq_refl eq_refl eq_refl Hbounds) as [w' [Hrun [Hplus Hminus]]].
  exists (Confidence.band_raster (const_raster 1 1 0 0 2000000000) pp),
         (Confidence.band_raster (const_raster 1 1 0 0 2000000000) pm), w'.
  exists 2000000000%Z.
  split; [exact Hrun|]. split; [exact Hplus|]. split; [exact Hminus|].
  rewrite !band_raster_cell by assumption. rewrite Hp, Hm.
  rewrite to_cell_thousandths. split; vm_compute; reflexivity.
Qed.

(** ** Orchestrator: the folder of the confidence step *)

Section PipelineProps.
Import Naming Mosaicker Confidence Invariants.

(** Among the mosaics of valid events, durations and variants, only the
    100-year base mosaic of a duration matches its base pattern: checked by
    enumeration. *)
Lemma comb_names_checked :
  forallb (fun dur => forallb (fun e => forallb (fun d => forallb (fun ci =>
    implb (glob_star ("100yr" ++ dur ++ "a.asc")
                     ("comb" ++ e ++ "yr" ++ d ++ "a" ++ ci ++ ".asc"))
          (String.eqb e "100" && String.eqb d dur && String.eqb ci ""))
    [""; "u"; "l"]) default_durations) default_events) default_durations
  = true.
Proof. vm_compute. reflexivity. Qed.

Lemma comb_name_matches dur e d ci :
  In dur default_durations -> In e default_events ->
  In d default_durations -> In ci [""; "u"; "l"] ->
  glob_star ("100yr" ++ dur ++ "a.asc")
            ("comb" ++ e ++ "yr" ++ d ++ "a" ++ ci ++ ".asc") = true ->
  e = "100" /\ d = dur /\ ci = "".
Proof.
  intros Hdur He Hd Hci Hm. pose proof comb_names_checked as C.
  rewrite forallb_forall in C. specialize (C dur Hdur).
  rewrite forallb_forall in C. specialize (C e He).
  rewrite forallb_forall in C. specialize (C d Hd).
  rewrite forallb_forall in C. specialize (C ci Hci).
  rewrite Hm in C. simpl in C.
  apply andb_true_iff in C. destruct C as [C C3].
  apply andb_true_iff in C. destruct C as [C1 C2].
  apply String.eqb_eq in C1, C2, C3. auto.
Qed.

(** A 100-year group of fewer than two files leaves no base mosaic. *)
Lemma no_mosaic_for_small_group event_list dur_list dur w :
  incl event_list default_events -> incl dur_list default_durations ->
  In dur dur_list ->
  absent (mosaic w) ("100yr" ++ dur ++ "a.asc") ->
  List.length (group (grids w) "100" dur "") < 2 ->
  absent (mosaic (fst (combine_multiple_zones event_list dur_list w)))
         ("100yr" ++ dur ++ "a.asc").
Proof.
  intros Hev Hdu Hdur Habs Hfew name Hin.
  unfold combine_multiple_zones in Hin.
  apply run_mosaics_names in Hin.
  destruct Hin as [Hin | [rasters [e [d [ci [Htask ->]]]]]];
    [now apply Habs|].
  apply combine_tasks_spec in Htask.
  destruct Htask as [He [Hd [Hci [-> Hlen]]]].
  destruct (glob_star _ _) eqn:E; [|reflexivity]. exfalso.
  apply comb_name_matches in E; auto.
  - destruct E as [-> [-> ->]]. lia.
  - simpl. destruct Hci as [-> | [_ [-> | ->]]]; auto.
Qed.

Variable geom : Type.
Variable to_crs : string -> string -> geom -> geom.
Variable unary_union : list geom -> geom.
Variable intersects : geom -> geom -> bool.
Variable read_file : string -> option (ZoneResolver.GeoDataFrame geom).
Variable config : Config.
Variable net : string -> nat -> Fetcher.attempt_outcome.
Variable erfinv : R -> R.

Hypothesis config_events : VALID_EVENTS config = default_events.
Hypothesis config_durations : VALID_DURATIONS config = default_durations.

(** C10: with more than one zone resolved, [process_grids] runs the
    confidence step on [NOAA_grids_mosaic/] only.  For a requested
    duration whose 100-year base group in [NOAA_grids/] has fewer than two
    files (and for which the mosaic folder held no base mosaic beforehand),
    the run ends normally with the warning "Missing files for duration
    {dur}" in the log, and [NOAA_grids/] is left as the download step left
    it, whatever single-zone rasters of that duration it holds. *)
Theorem confidence_step_reads_mosaic_folder_only
    (base_dir prj_area_shp_path states_shp_path : string)
    (event_list dur_list zones : list string) (dur : string) (w0 w1 : World) :
  incl event_list default_events -> incl dur_list default_durations ->
  Orchestrator.get_noaa_grids geom to_crs unary_union intersects read_file
    config net base_dir prj_area_shp_path event_list dur_list
    states_shp_path true w0 = (w1, Ok zones) ->
  1 < List.length zones ->
  snd (combine_multiple_zones event_list dur_list w1) = Ok tt ->
  In "100" event_list -> In dur dur_list ->
  absent (mosaic w1) ("100yr" ++ dur ++ "a.asc") ->
  List.length (group (grids w1) "100" dur "") < 2 ->
  exists w3,
    Orchestrator.process_grids geom to_crs unary_union intersects read_file
      config net erfinv base_dir prj_area_shp_path states_shp_path
      event_list dur_list true w0 = (w3, Ok tt)
    /\ In (EvLog (LogWarning ("Missing files for duration " ++ dur)))
          (trace w3)
    /\ grids w3 = grids w1.
Proof.
  intros Hev Hdu Hget Hz Hcomb H100 Hdur Habs Hfew.
  unfold Orchestrator.process_grids, Orchestrator.process_body.
  rewrite config_events, config_durations.
  rewrite (proj2 (issubset_spec event_list default_events) Hev).
  rewrite (proj2 (issubset_spec dur_list default_durations) Hdu).
  cbn [negb]. rewrite Hget.
  apply Nat.ltb_lt in Hz. rewrite Hz.
  pose proof (no_mosaic_for_small_group event_list dur_list dur w1
                Hev Hdu Hdur Habs Hfew) as Habs2.
  pose proof (run_mosaics_grids
                (combine_tasks (grids w1) event_list dur_list) w1) as Hg.
  fold (combine_multiple_zones event_list dur_list w1) in Hg.
  destruct (combine_multiple_zones event_list dur_list w1) as [w2 r2].
  cbn [fst snd] in *. subst r2.
  rewrite (proj2 (str_in_In "100" event_list) H100). cbn [andb].
  pose proof (durations_loop_ok erfinv NOAA_grids_mosaic dur_list
                (log (LogInfo "Computing 1% plus/minus grids") w2)) as Hok.
  pose proof (durations_loop_warns erfinv NOAA_grids_mosaic dur
                ("100yr" ++ dur ++ "a.asc") dur_list
                (log (LogInfo "Computing 1% plus/minus grids") w2)
                Hdur (or_introl eq_refl) Habs2) as Hwarn.
  pose proof (ext_other _ _ _
                (durations_loop_extends erfinv NOAA_grids_mosaic dur_list
                   (log (LogInfo "Computing 1% plus/minus grids") w2)))
    as Hother.
  unfold process_confidence_intervals.
  destruct (durations_loop erfinv NOAA_grids_mosaic dur_list _) as [w3 r3].
  cbn [fst snd] in *. subst r3.
  exists w3. split; [reflexivity|]. split; [exact Hwarn|].
  cbn in Hother. congruence.
Qed.
End PipelineProps.

(** Two zones resolved, of which only "se" delivers the 06h grids: the run
    warns about 06h although [se100yr06ha.asc] and its bounds lie in
    [NOAA_grids/]. *)
Lemma confidence_step_reads_mosaic_folder_only_witness :
  exists w3,
    Orchestrator.process_grids (list nat) (fun _ _ g => g) (@List.concat nat)
      line_intersects line_read default_config patchy_net (fun x => x)
      "run" "area.shp" "zones.shp" ["100"] ["06h"] true empty_world
    = (w3, Ok tt)
    /\ In (EvLog (LogWarning "Missing files for duration 06h")) (trace w3)
    /\ dir_mem "se100yr06ha.asc" (listing (grids w3)) = true
    /\ dir_mem "se100yr06hau.asc" (listing (grids w3)) = true
    /\ dir_mem "se100yr06hal.asc" (listing (grids w3)) = true.
Proof.
  destruct (confidence_step_reads_mosaic_folder_only (list nat)
              (fun _ _ g => g) (@List.concat nat) line_intersects line_read
              default_config patchy_net (fun x => x) eq_refl eq_refl
              "run" "area.shp" "zones.shp" ["100"] ["06h"] ["se"; "orb"] "06h"
              empty_world
              (fst (Orchestrator.get_noaa_grids (list nat) (fun _ _ g => g)
                      (@List.concat nat) line_intersects line_read
                      default_config patchy_net "run" "area.shp" ["100"]
                      ["06h"] "zones.shp" true empty_world)))
    as [w3 [Hrun [Hwarn Hgrids]]].
  - intros x Hx. simpl in *. intuition.
  - intros x Hx. simpl in *. intuition.
  - vm_compute. reflexivity.
  - simpl. lia.
  - vm_compute. reflexivity.
  - simpl. auto.
  - simpl. auto.
  - intros name Hin. vm_compute in Hin. contradiction.
  - vm_compute. lia.
  - exists w3. split; [exact Hrun|]. split; [exact Hwarn|].
    rewrite Hgrids. repeat split; vm_compute; reflexivity.
Defined.

(** C10, as stated, fails when the mosaic folder is not empty at the start:
    it is created with [exist_ok] and never emptied.  Two zones are
    resolved and only "se" delivers the 06h grids, so that the 100-year base
    group of 06h has one file and no mosaic is written for it; yet the run
    logs no warning and computes the bounds of 06h, from the mosaics an
    earlier run has left. *)
Lemma stale_mosaic_is_used :
  let run :=
    Orchestrator.process_grids (list nat) (fun _ _ g => g) (@List.concat nat)
      line_intersects line_read default_config patchy_net (fun x => x)
      "run" "area.shp" "zones.shp" ["100"] ["06h"] true stale_world in
  snd (Orchestrator.get_noaa_grids (list nat) (fun _ _ g => g)
         (@List.concat nat) line_intersects line_read default_config
         patchy_net "run" "area.shp" ["100"] ["06h"] "zones.shp" true
         stale_world) = Ok ["se"; "orb"]
  /\ Mosaicker.group (grids (fst run)) "100" "06h" "" = ["se100yr06ha.asc"]
  /\ snd run = Ok tt
  /\ warnings (trace (fst run)) = []
  /\ rasters_written (trace (fst run))
     = [("NOAA_grids_mosaic", "comb100yr06ha_minus.asc");
        ("NOAA_grids_mosaic", "comb100yr06ha_plus.asc")].
Proof.
  cbv zeta. repeat split; vm_compute; reflexivity.
Qed.


(** * Further properties of the code *)

(** ** GridFetcher: one download *)

Section DownloadExtras.
Import Fetcher Observations.

Variable config : Config.
Variable net : string -> nat -> attempt_outcome.

Lemma try_attempt_gets zone fname attempt w :
  http_gets (trace (fst (try_attempt net zone fname attempt w)))
  = zipurl zone fname :: http_gets (trace w).
Proof. unfold try_attempt. destruct (net _ attempt); reflexivity. Qed.

Lemma try_attempt_ok_unlinked zone fname attempt w w1 :
  try_attempt net zone fname attempt w = (w1, Ok tt) ->
  archive_exists fname w1 = false.
Proof.
  unfold try_attempt. destruct (net _ attempt); try discriminate.
  intros H. injection H as <-. apply archive_exists_unlink.
Qed.

Lemma on_failure_gets fname attempt e w :
  http_gets (trace (fst (on_failure config fname attempt e w)))
  = http_gets (trace w).
Proof.
  unfold on_failure. destruct (Nat.eqb _ _); [|reflexivity].
  destruct (archive_exists _ _); reflexivity.
Qed.

Lemma retry_loop_no_archive zone fname :
  forall remaining attempt w,
    0 < remaining -> attempt + remaining = MAX_RETRIES config ->
    archive_exists fname
      (fst (retry_loop config net zone fname remaining attempt w)) = false.
Proof.
  induction remaining as [|k IH]; intros attempt w Hpos Hsum; [lia|].
  simpl retry_loop.
  destruct (try_attempt net zone fname attempt w) as [w1 [[]|e]] eqn:Et.
  - simpl. now apply (try_attempt_ok_unlinked zone fname attempt w).
  - destruct k as [|k].
    + destruct (on_failure_last config fname attempt e w1) as [w' [Ho [Ha _]]];
        [lia|].
      rewrite Ho. exact Ha.
    + rewrite on_failure_early by lia. apply IH; lia.
Qed.

(** X1: whatever the server does, once [download_and_unzip_noaa_grid] has
    returned or raised (at least one attempt being allowed), no file of the
    archive's name is left in the destination directory. *)
Theorem download_never_leaves_archive (zone fname target : string) (w : World) :
  0 < MAX_RETRIES config ->
  archive_exists fname
    (fst (download_and_unzip_noaa_grid config net (zone, fname, target) w))
  = false.
Proof.
  intros Hpos. unfold download_and_unzip_noaa_grid.
  apply retry_loop_no_archive; lia.
Qed.

Lemma retry_loop_attempts zone fname :
  forall remaining attempt w,
    0 < remaining -> attempt + remaining = MAX_RETRIES config ->
    exists n,
      1 <= n <= remaining
      /\ http_gets (trace (fst (retry_loop config net zone fname remaining
                                  attempt w)))
         = (repeat (zipurl zone fname) n ++ http_gets (trace w))%list
      /\ sleeps (trace (fst (retry_loop config net zone fname remaining
                               attempt w)))
         = (rev (map (Nat.pow 2) (seq attempt (n - 1))) ++ sleeps (trace w))%list.
Proof.
  induction remaining as [|k IH]; intros attempt w Hpos Hsum; [lia|].
  simpl retry_loop.
  pose proof (try_attempt_gets zone fname attempt w) as Hg.
  pose proof (try_attempt_sleeps net zone fname attempt w) as Hs.
  destruct (try_attempt net zone fname attempt w) as [w1 [[]|e]] eqn:Et;
    cbn [fst] in Hg, Hs.
  - exists 1. split; [lia|]. cbn [fst]. rewrite Hg, Hs. split; reflexivity.
  - destruct k as [|k].
    + destruct (on_failure_last config fname attempt e w1)
        as [w' [Ho [_ Hsl]]]; [lia|].
      pose proof (on_failure_gets fname attempt e w1) as Hog.
      rewrite Ho in *. cbn [fst] in *.
      exists 1. split; [lia|]. rewrite Hog, Hg, Hsl, Hs. split; reflexivity.
    + rewrite on_failure_early by lia.
      destruct (IH (S attempt)
                  (mkWorld (grids w1) (mosaic w1)
                           (EvSleep (2 ^ attempt) :: trace w1)))
        as [n [Hn [Hgets Hsl]]]; [lia | lia |].
      exists (S n). split; [lia|]. rewrite Hgets, Hsl.
      cbn [trace http_gets sleeps flat_map]. fold (http_gets (trace w1)).
      fold (sleeps (trace w1)). rewrite Hg, Hs. split.
      * change (repeat (zipurl zone fname) (S n))
          with (zipurl zone fname :: repeat (zipurl zone fname) n).
        rewrite (repeat_cons n (zipurl zone fname)).
        rewrite <- app_assoc. reflexivity.
      * replace (S n - 1) with (S (n - 1)) by lia.
        cbn [seq map rev]. rewrite <- app_assoc. reflexivity.
Qed.

(** X2: whatever the server does, a download makes between one and
    MAX_RETRIES requests, all for its own URL, and has slept 1, 2, ...,
    2^(n-2) seconds when it has made n requests: one wait between
    consecutive attempts and none after the last. *)
Theorem download_attempts_bounded (zone fname target : string) (w : World) :
  0 < MAX_RETRIES config ->
  exists n,
    1 <= n <= MAX_RETRIES config
    /\ http_gets (trace (fst (download_and_unzip_noaa_grid config net
                                (zone, fname, target) w)))
       = (repeat (zipurl zone fname) n ++ http_gets (trace w))%list
    /\ sleeps (trace (fst (download_and_unzip_noaa_grid config net
                             (zone, fname, target) w)))
       = (rev (map (Nat.pow 2) (seq 0 (n - 1))) ++ sleeps (trace w))%list.
Proof.
  intros Hpos. unfold download_and_unzip_noaa_grid.
  apply retry_loop_attempts; lia.
Qed.
End DownloadExtras.

Lemma download_never_leaves_archive_witness :
  Fetcher.archive_exists "se100yr24ha.zip"
    (fst (Fetcher.download_and_unzip_noaa_grid default_config slow_net
            ("se", "se100yr24ha.zip", sample_folder) empty_world)) = false.
Proof.
  apply (download_never_leaves_archive default_config slow_net).
  simpl. lia.
Defined.

Lemma download_attempts_bounded_witness :
  exists n,
    1 <= n <= 3
    /\ Observations.http_gets
         (trace (fst (Fetcher.download_and_unzip_noaa_grid default_config
                        slow_net ("se", "se100yr24ha.zip", sample_folder)
                        empty_world)))
       = (repeat (Fetcher.zipurl "se" "se100yr24ha.zip") n ++ [])%list
    /\ Fetcher.sleeps
         (trace (fst (Fetcher.download_and_unzip_noaa_grid default_config
                        slow_net ("se", "se100yr24ha.zip", sample_folder)
                        empty_world)))
       = (rev (map (Nat.pow 2) (seq 0 (n - 1))) ++ [])%list.
Proof.
  apply (download_attempts_bounded default_config slow_net
           "se" "se100yr24ha.zip" sample_folder empty_world).
  simpl. lia.
Defined.

Lemma dir_write_write name f g d :
  dir_write name f (dir_write name g d) = dir_write name f d.
Proof.
  induction d as [|[n h] d IH]; simpl.
  - now rewrite String.eqb_refl.
  - destruct (String.eqb_spec n name) as [E | N]; simpl.
    + subst n. now rewrite String.eqb_refl.
    + apply String.eqb_neq in N. rewrite N. now rewrite IH.
Qed.

Lemma dir_lookup_remove_other name n d :
  name <> n -> dir_lookup name (dir_remove n d) = dir_lookup name d.
Proof.
  intros Hne. induction d as [|[m g] d IH]; [reflexivity|].
  simpl. destruct (String.eqb_spec m n) as [E | N]; simpl.
  - subst m. destruct (String.eqb_spec n name); [congruence | exact IH].
  - destruct (String.eqb_spec m name); [reflexivity | exact IH].
Qed.

Lemma dir_lookup_write_all_other name files :
  forall d, ~ In name (map fst files) ->
            dir_lookup name (dir_write_all files d) = dir_lookup name d.
Proof.
  unfold dir_write_all.
  induction files as [|[n f] files IH]; intros d Hnot; [reflexivity|].
  simpl. rewrite IH.
  - apply dir_lookup_write_other. intros ->. apply Hnot. now left.
  - intros H. apply Hnot. now right.
Qed.

Section DownloadOutcome.
Import Fetcher Observations.

Variable config : Config.
Variable net : string -> nat -> attempt_outcome.

Lemma retry_loop_transparent zone fname files (L : Dir) :
  forall k remaining attempt w,
    k < remaining -> attempt + remaining = MAX_RETRIES config ->
    (forall j, j < k -> clean_failure (net (zipurl zone fname) (attempt + j))) ->
    net (zipurl zone fname) (attempt + k) = Succeeds files ->
    (listing (grids w) = L
     \/ exists c, listing (grids w) = dir_write fname (Archive c) L) ->
    snd (retry_loop config net zone fname remaining attempt w) = Ok tt
    /\ grids (fst (retry_loop config net zone fname remaining attempt w))
       = Some (dir_remove fname
                 (dir_write_all files (dir_write fname (Archive true) L))).
Proof.
  induction k as [|k IH]; intros remaining attempt w Hk Hsum Hclean Hok HL.
  - destruct remaining as [|r]; [lia|]. simpl retry_loop.
    rewrite Nat.add_0_r in Hok. unfold try_attempt. rewrite Hok.
    unfold unlink, extract, write_archive. cbn [fst snd grids emit option_map].
    split; [reflexivity|].
    remember (listing (grids w)) as L0 eqn:E0. cbn [listing].
    destruct HL as [-> | [c ->]]; [reflexivity|].
    now rewrite dir_write_write.
  - destruct remaining as [|r]; [lia|]. simpl retry_loop.
    assert (H0 : clean_failure (net (zipurl zone fname) attempt)).
    { rewrite <- (Nat.add_0_r attempt). apply Hclean. lia. }
    assert (Hnext : exists w1 e,
               try_attempt net zone fname attempt w = (w1, Raise e)
               /\ (listing (grids w1) = L
                   \/ exists c, listing (grids w1)
                                = dir_write fname (Archive c) L)).
    { unfold try_attempt.
      destruct H0 as [-> | [-> | ->]]; do 2 eexists; (split; [reflexivity|]).
      - exact HL.
      - right. exists false. unfold write_archive. cbn [grids emit].
        remember (listing (grids w)) as L0 eqn:E0. cbn [listing].
        destruct HL as [-> | [c ->]]; [reflexivity | apply dir_write_write].
      - right. exists true. unfold extract, write_archive.
        cbn [grids emit dir_write_all fold_left].
        remember (listing (grids w)) as L0 eqn:E0. cbn [listing].
        destruct HL as [-> | [c ->]]; [reflexivity | apply dir_write_write]. }
    destruct Hnext as [w1 [e [-> HL1]]].
    rewrite on_failure_early by lia.
    apply IH; try lia.
    + intros j Hj. replace (S attempt + j) with (attempt + S j) by lia.
      apply Hclean. lia.
    + replace (S attempt + k) with (attempt + S k) by lia. exact Hok.
    + exact HL1.
Qed.

(** X3: retrying is transparent to the output.  When the attempts before
    number [k] fail without unpacking anything and attempt [k] (one of the
    MAX_RETRIES allowed) succeeds, the download returns normally and the
    destination directory is what a success on the first attempt leaves:
    the unpacked files written, no archive. *)
Theorem retry_is_transparent
    (zone fname target : string) (w : World) (k : nat)
    (files : list (string * File)) :
  k < MAX_RETRIES config ->
  (forall j, j < k -> clean_failure (net (zipurl zone fname) j)) ->
  net (zipurl zone fname) k = Succeeds files ->
  snd (download_and_unzip_noaa_grid config net (zone, fname, target) w) = Ok tt
  /\ grids (fst (download_and_unzip_noaa_grid config net
                   (zone, fname, target) w))
     = Some (dir_remove fname
               (dir_write_all files
                  (dir_write fname (Archive true) (listing (grids w))))).
Proof.
  intros Hk Hclean Hok. unfold download_and_unzip_noaa_grid.
  apply (retry_loop_transparent zone fname files (listing (grids w)) k);
    auto.
Qed.

Lemma try_attempt_lookup_other zone fname attempt w name :
  name <> fname ->
  ~ In name (map fst (unpacked (net (zipurl zone fname) attempt))) ->
  dir_lookup name (listing (grids (fst (try_attempt net zone fname attempt w))))
  = dir_lookup name (listing (grids w)).
Proof.
  intros Hne Hnot. unfold try_attempt.
  destruct (net (zipurl zone fname) attempt) as [| |partial|files];
    cbn [fst unlink extract write_archive grids listing option_map emit unpacked]
    in *.
  - reflexivity.
  - now apply dir_lookup_write_other.
  - rewrite dir_lookup_write_all_other by assumption.
    now apply dir_lookup_write_other.
  - rewrite dir_lookup_remove_other by assumption.
    rewrite dir_lookup_write_all_other by assumption.
    now apply dir_lookup_write_other.
Qed.

Lemma on_failure_lookup_other fname attempt e w name :
  name <> fname ->
  dir_lookup name (listing (grids (fst (on_failure config fname attempt e w))))
  = dir_lookup name (listing (grids w)).
Proof.
  intros Hne. unfold on_failure. destruct (Nat.eqb _ _); [|reflexivity].
  destruct (archive_exists _ _); [|reflexivity].
  cbn [fst unlink grids log emit].
  destruct (grids w) as [d|]; [|reflexivity].
  cbn. now apply dir_lookup_remove_other.
Qed.

Lemma retry_loop_lookup_other zone fname name :
  name <> fname ->
  forall remaining attempt w,
    attempt + remaining = MAX_RETRIES config ->
    (forall j, j < MAX_RETRIES config ->
               ~ In name (map fst (unpacked (net (zipurl zone fname) j)))) ->
    dir_lookup name (listing (grids (fst (retry_loop config net zone fname
                                            remaining attempt w))))
    = dir_lookup name (listing (grids w)).
Proof.
  intros Hne. induction remaining as [|k IH]; intros attempt w Hsum Hnot;
    [reflexivity|].
  simpl retry_loop.
  pose proof (try_attempt_lookup_other zone fname attempt w name Hne) as Ht.
  destruct (try_attempt net zone fname attempt w) as [w1 [[]|e]];
    cbn [fst] in Ht.
  - cbn [fst]. apply Ht, Hnot. lia.
  - pose proof (on_failure_lookup_other fname attempt e w1 name Hne) as Ho.
    destruct (on_failure config fname attempt e w1) as [w2 [e'|]];
      cbn [fst] in Ho.
    + cbn [fst]. rewrite Ho. apply Ht, Hnot. lia.
    + rewrite IH; [| lia | assumption].
      rewrite Ho. apply Ht, Hnot. lia.
Qed.

(** X4: a download leaves the other files of the destination alone: a file
    that is neither the archive nor an entry unpacked by one of the attempts
    is, afterwards, what it was before. *)
Theorem download_preserves_other_files
    (zone fname target name : string) (w : World) :
  name <> fname ->
  (forall j, j < MAX_RETRIES config ->
             ~ In name (map fst (unpacked (net (zipurl zone fname) j)))) ->
  dir_lookup name
    (listing (grids (fst (download_and_unzip_noaa_grid config net
                            (zone, fname, target) w))))
  = dir_lookup name (listing (grids w)).
Proof.
  intros Hne Hnot. unfold download_and_unzip_noaa_grid.
  now apply retry_loop_lookup_other.
Qed.

Lemma try_attempt_result zone fname attempt w :
  snd (try_attempt net zone fname attempt w) = Ok tt <->
  exists files, net (zipurl zone fname) attempt = Succeeds files.
Proof.
  unfold try_attempt.
  destruct (net (zipurl zone fname) attempt); cbn [snd]; split;
    try discriminate; try (intros [fs H]; discriminate).
  - intros _. eexists. reflexivity.
  - reflexivity.
Qed.

Lemma retry_loop_result zone fname :
  forall remaining attempt w,
    0 < remaining -> attempt + remaining = MAX_RETRIES config ->
    (snd (retry_loop config net zone fname remaining attempt w) = Ok tt <->
     exists j files, j < remaining
                     /\ net (zipurl zone fname) (attempt + j) = Succeeds files).
Proof.
  induction remaining as [|k IH]; intros attempt w Hpos Hsum; [lia|].
  simpl retry_loop.
  pose proof (try_attempt_result zone fname attempt w) as Ht.
  destruct (try_attempt net zone fname attempt w) as [w1 [[]|e]];
    cbn [snd] in Ht.
  - cbn [snd]. split; [|reflexivity]. intros _.
    destruct (proj1 Ht eq_refl) as [files Hf].
    exists 0, files. rewrite Nat.add_0_r. split; [lia | exact Hf].
  - assert (Hno : forall files, net (zipurl zone fname) attempt
                                <> Succeeds files).
    { intros files Hf.
      assert (H : Raise e = Ok tt) by (apply Ht; now exists files).
      discriminate. }
    destruct k as [|k].
    + destruct (on_failure_last config fname attempt e w1) as [w' [Ho _]];
        [lia|].
      rewrite Ho. cbn [snd]. split; [discriminate|].
      intros [j [files [Hj Hf]]]. replace j with 0 in Hf by lia.
      rewrite Nat.add_0_r in Hf. now apply Hno in Hf.
    + rewrite on_failure_early by lia. rewrite IH by lia. split.
      * intros [j [files [Hj Hf]]]. exists (S j), files.
        split; [lia|]. now replace (attempt + S j) with (S attempt + j) by lia.
      * intros [j [files [Hj Hf]]]. destruct j as [|j].
        -- rewrite Nat.add_0_r in Hf. now apply Hno in Hf.
        -- exists j, files. split; [lia|].
           now replace (S attempt + j) with (attempt + S j) by lia.
Qed.

Lemma download_result (t : task) (w : World) :
  0 < MAX_RETRIES config ->
  (snd (download_and_unzip_noaa_grid config net t w) = Ok tt <->
   succeeds_within config net t).
Proof.
  intros Hpos. destruct t as [[zone fname] target].
  unfold download_and_unzip_noaa_grid, succeeds_within.
  rewrite retry_loop_result by lia. reflexivity.
Qed.

(** X5: the fetch step has no silent partial success.  With at least one
    attempt allowed, [run_downloads] returns normally exactly when every
    task has a successful attempt among its MAX_RETRIES; a single task that
    exhausts its attempts makes the whole step raise. *)
Theorem fetch_step_succeeds_iff_all_tasks_do (tasks : list task) (w : World) :
  0 < MAX_RETRIES config ->
  (snd (run_downloads config net tasks w) = Ok tt <->
   forall t, In t tasks -> succeeds_within config net t).
Proof.
  intros Hpos. revert w.
  induction tasks as [|t ts IH]; intros w.
  - simpl. split; [intros _ t [] | reflexivity].
  - simpl run_downloads.
    pose proof (download_result t w Hpos) as Hd.
    destruct (download_and_unzip_noaa_grid config net t w) as [w1 r].
    pose proof (IH w1) as Hr.
    destruct (run_downloads config net ts w1) as [w2 rs].
    cbn [snd] in *. split.
    + intros H t' [<- | Hin].
      * apply Hd. destruct r as [[]|e]; [reflexivity | discriminate].
      * destruct r as [[]|e]; [|discriminate]. now apply Hr.
    + intros H.
      assert (Hr1 : r = Ok tt) by (apply Hd, H; now left).
      rewrite Hr1. apply Hr. intros t' Hin. apply H. now right.
Qed.

(** X6: a configuration that allows no attempt makes the fetch step do
    nothing and report success: [range(0)] is empty, so no request is made,
    no file is written and nothing is raised, whatever the tasks. *)
Theorem no_attempts_allowed_fetches_nothing (tasks : list task) (w : World) :
  MAX_RETRIES config = 0 ->
  run_downloads config net tasks w = (w, Ok tt).
Proof.
  intros H0. induction tasks as [|[[zone fname] target] ts IH];
    [reflexivity|].
  simpl. rewrite H0. simpl. rewrite IH. reflexivity.
Qed.
End DownloadOutcome.

Lemma retry_is_transparent_witness :
  snd (Fetcher.download_and_unzip_noaa_grid default_config slow_net
         ("se", "se100yr24ha.zip", sample_folder) empty_world) = Ok tt
  /\ grids (fst (Fetcher.download_and_unzip_noaa_grid default_config slow_net
                   ("se", "se100yr24ha.zip", sample_folder) empty_world))
     = Some [("se100yr24ha.asc", RasterFile (const_raster 2 3 0 0 1000))].
Proof.
  apply (retry_is_transparent default_config slow_net "se" "se100yr24ha.zip"
           sample_folder empty_world 2
           [("se100yr24ha.asc", RasterFile (const_raster 2 3 0 0 1000))]).
  - simpl. lia.
  - intros j Hj. unfold Observations.clean_failure.
    destruct j as [|[|j]]; simpl; auto. lia.
  - reflexivity.
Defined.

Lemma download_preserves_other_files_witness :
  dir_lookup "orb100yr24ha.asc"
    (listing (grids (fst (Fetcher.download_and_unzip_noaa_grid default_config
                            slow_net ("se", "se100yr24ha.zip", sample_folder)
                            two_zone_world))))
  = dir_lookup "orb100yr24ha.asc" (listing (grids two_zone_world)).
Proof.
  apply (download_preserves_other_files default_config slow_net).
  - discriminate.
  - intros j _. destruct j as [|[|j]]; simpl; intuition discriminate.
Defined.

Lemma fetch_step_succeeds_iff_all_tasks_do_witness :
  snd (Fetcher.run_downloads default_config slow_net
         [("se", "se100yr24ha.zip", sample_folder);
          ("orb", "orb100yr24ha.zip", sample_folder)] empty_world) = Ok tt.
Proof.
  apply (fetch_step_succeeds_iff_all_tasks_do default_config slow_net).
  - simpl. lia.
  - intros t [<- | [<- | []]]; exists 2; eexists;
      (split; [simpl; lia | reflexivity]).
Defined.

Lemma no_attempts_allowed_fetches_nothing_witness :
  Fetcher.run_downloads no_retry_config broken_net
    [("se", "se100yr24ha.zip", sample_folder);
     ("orb", "orb100yr24ha.zip", sample_folder)] two_zone_world
  = (two_zone_world, Ok tt).
Proof.
  apply (no_attempts_allowed_fetches_nothing no_retry_config broken_net).
  reflexivity.
Defined.

(** ** GridFetcher: the size of the task list *)

Section TaskCount.
Import Fetcher.

Lemma length_tasks_for folder zone event duration CI :
  List.length (tasks_for folder zone event duration CI)
  = if String.eqb event "100" && CI then 3 else 1.
Proof.
  unfold tasks_for. destruct (String.eqb event "100" && CI); reflexivity.
Qed.

Lemma length_flat_map_const {A B : Type} (f : A -> list B) (c : nat) l :
  (forall a, List.length (f a) = c) ->
  List.length (flat_map f l) = List.length l * c.
Proof.
  intros H. induction l as [|a l IH]; [reflexivity|].
  simpl. rewrite length_app, H, IH. lia.
Qed.

(** X7: the number of archives requested.  For [z] zones, [e] events and
    [d] durations the task list holds [z * d * e] tasks, and [2 * z * d]
    more for every occurrence of the event "100" when confidence intervals
    are requested. *)
Theorem file_tasks_length
    (folder : string) (zones events durs : list string) (CI : bool) :
  List.length (file_tasks folder zones events durs CI)
  = List.length zones * List.length durs
    * (List.length events
       + if CI then 2 * count_occ string_dec events "100" else 0).
Proof.
  unfold file_tasks.
  assert (He : forall zone,
             List.length
               (flat_map (fun event =>
                  flat_map (fun duration =>
                    tasks_for folder zone event duration CI) durs) events)
             = List.length durs
               * (List.length events
                  + if CI then 2 * count_occ string_dec events "100" else 0)).
  { intros zone. induction events as [|ev evs IH]; simpl.
    - destruct CI; lia.
    - rewrite length_app, IH.
      rewrite (length_flat_map_const _
                 (if String.eqb ev "100" && CI then 3 else 1))
        by (intros; apply length_tasks_for).
      destruct (string_dec ev "100") as [-> | N].
      + rewrite String.eqb_refl. destruct CI; simpl; lia.
      + apply String.eqb_neq in N. rewrite N. destruct CI; simpl; lia. }
  rewrite (length_flat_map_const _ _ zones He). lia.
Qed.
End TaskCount.

(** ** ZoneResolver: which zones are returned *)

Section ZoneExtras.
Import ZoneResolver ZoneFacts Observations.

Variable geom : Type.
Variable to_crs : string -> string -> geom -> geom.
Variable unary_union : list geom -> geom.
Variable intersects : geom -> geom -> bool.
Variable read_file : string -> option (GeoDataFrame geom).

Lemma reproject_frame what g w :
  snd (reproject geom to_crs what g w) = reprojected geom to_crs g.
Proof.
  unfold reproject, reprojected. destruct (String.eqb _ _); reflexivity.
Qed.

Lemma reproject_world what g w :
  grids (fst (reproject geom to_crs what g w)) = grids w
  /\ mosaic (fst (reproject geom to_crs what g w)) = mosaic w
  /\ http_gets (trace (fst (reproject geom to_crs what g w)))
     = http_gets (trace w).
Proof.
  unfold reproject. destruct (String.eqb _ _); auto.
Qed.

Lemma find_noaa_zones_world prj_area_shp_path states_shp_path w :
  let w' := fst (find_noaa_zones geom to_crs unary_union intersects read_file
                   prj_area_shp_path states_shp_path w) in
  grids w' = grids w /\ mosaic w' = mosaic w
  /\ http_gets (trace w') = http_gets (trace w).
Proof.
  unfold find_noaa_zones.
  destruct (read_file states_shp_path) as [st|]; [|simpl; auto].
  destruct (read_file prj_area_shp_path) as [pa|]; [|simpl; auto].
  match goal with
  | |- context [reproject geom to_crs ?what st ?w0] =>
      pose proof (reproject_world what st w0) as H1;
      destruct (reproject geom to_crs what st w0) as [w1 st']
  end.
  match goal with
  | |- context [reproject geom to_crs ?what pa ?w0] =>
      pose proof (reproject_world what pa w0) as H2;
      destruct (reproject geom to_crs what pa w0) as [w2 pa']
  end.
  cbn [fst] in *. destruct H1 as [G1 [M1 T1]], H2 as [G2 [M2 T2]].
  cbn [grids mosaic trace log emit http_gets flat_map app] in *.
  fold (http_gets (trace w2)).
  rewrite G2, M2, T2.
  destruct (String.eqb (crs geom pa) target_crs);
    cbn [grids mosaic trace log emit http_gets flat_map app] in *;
    rewrite ?G1, ?M1, ?T1; auto.
Qed.

Lemma find_noaa_zones_result prj_area_shp_path states_shp_path w st pa :
  read_file states_shp_path = Some st ->
  read_file prj_area_shp_path = Some pa ->
  snd (find_noaa_zones geom to_crs unary_union intersects read_file
         prj_area_shp_path states_shp_path w)
  = Ok (filter (fun z => negb (String.eqb z "Atlas2"))
          (unique (query_codes geom intersects (reprojected geom to_crs st)
                     (project_union geom to_crs unary_union pa)))).
Proof.
  intros Hs Hp. unfold find_noaa_zones. rewrite Hs, Hp.
  match goal with
  | |- context [reproject geom to_crs ?what st ?w0] =>
      pose proof (reproject_frame what st w0) as H1;
      destruct (reproject geom to_crs what st w0) as [w1 st']
  end.
  match goal with
  | |- context [reproject geom to_crs ?what pa ?w0] =>
      pose proof (reproject_frame what pa w0) as H2;
      destruct (reproject geom to_crs what pa w0) as [w2 pa']
  end.
  cbn [snd] in *. subst st' pa'. reflexivity.
Qed.

(** X8: [find_noaa_zones] returns exactly the intersecting zones.  When both
    shapefiles can be read, a code is in the returned list if and only if it
    is not "Atlas2" and some polygon of the zone index carrying that code
    (reprojected to EPSG:4269 unless already there) intersects the union of
    the project area (reprojected likewise). *)
Theorem find_noaa_zones_exact
    (prj_area_shp_path states_shp_path : string) (w : World)
    (states_shp prj_area_shp : GeoDataFrame geom) :
  read_file states_shp_path = Some states_shp ->
  read_file prj_area_shp_path = Some prj_area_shp ->
  exists zones,
    snd (find_noaa_zones geom to_crs unary_union intersects read_file
           prj_area_shp_path states_shp_path w) = Ok zones
    /\ forall z,
         In z zones <->
         z <> "Atlas2"
         /\ exists g, In (z, g) (rows geom (reprojected geom to_crs states_shp))
                      /\ intersects g (project_union geom to_crs unary_union
                                         prj_area_shp) = true.
Proof.
  intros Hs Hp. eexists. split.
  - apply (find_noaa_zones_result _ _ w states_shp prj_area_shp Hs Hp).
  - intros z. rewrite filter_In, unique_In. unfold query_codes.
    rewrite in_map_iff. split.
    + intros [[[z' g] [Hz Hin]] Hne]. simpl in Hz. subst z'.
      apply filter_In in Hin. destruct Hin as [Hin Hi]. simpl in Hi.
      apply negb_true_iff in Hne. apply String.eqb_neq in Hne.
      split; [assumption|]. now exists g.
    + intros [Hne [g [Hin Hi]]]. split.
      * exists (z, g). split; [reflexivity|]. apply filter_In. auto.
      * apply negb_true_iff. now apply String.eqb_neq.
Qed.
End ZoneExtras.

Lemma find_noaa_zones_exact_witness :
  exists zones,
    snd (ZoneResolver.find_noaa_zones (list nat) (fun _ _ g => g)
           (@List.concat nat) line_intersects line_read
           "area.shp" "zones.shp" empty_world) = Ok zones
    /\ In "orb" zones /\ ~ In "mw" zones.
Proof.
  destruct (find_noaa_zones_exact (list nat) (fun _ _ g => g)
              (@List.concat nat) line_intersects line_read
              "area.shp" "zones.shp" empty_world line_index line_area
              eq_refl eq_refl) as [zones [Hz Hin]].
  exists zones. split; [exact Hz|]. split.
  - apply Hin. split; [discriminate|].
    exists [3; 4]. split; [simpl; auto | reflexivity].
  - intros H. apply Hin in H. destruct H as [_ [g [Hg Hi]]].
    simpl in Hg.
    repeat (destruct Hg as [Hg | Hg]; [try discriminate Hg|]);
      try contradiction.
    injection Hg as <-. vm_compute in Hi. discriminate.
Defined.

(** ** Orchestrator: how the stages compose *)

Section FetchWorld.
Import Fetcher Observations.

Variable config : Config.
Variable net : string -> nat -> attempt_outcome.

Lemma retry_loop_mosaic zone fname :
  forall remaining attempt w,
    mosaic (fst (retry_loop config net zone fname remaining attempt w))
    = mosaic w.
Proof.
  induction remaining as [|k IH]; intros attempt w; [reflexivity|].
  simpl retry_loop.
  assert (Ht : mosaic (fst (try_attempt net zone fname attempt w)) = mosaic w).
  { unfold try_attempt. destruct (net _ attempt); reflexivity. }
  destruct (try_attempt net zone fname attempt w) as [w1 [[]|e]];
    cbn [fst] in *; [exact Ht|].
  assert (Ho : mosaic (fst (on_failure config fname attempt e w1)) = mosaic w1).
  { unfold on_failure. destruct (Nat.eqb _ _); [|reflexivity].
    destruct (archive_exists _ _); reflexivity. }
  destruct (on_failure config fname attempt e w1) as [w2 [e'|]];
    cbn [fst] in *; [congruence|].
  rewrite IH. congruence.
Qed.

Lemma run_downloads_mosaic tasks :
  forall w, mosaic (fst (run_downloads config net tasks w)) = mosaic w.
Proof.
  induction tasks as [|[[zone fname] target] ts IH]; intros w; [reflexivity|].
  simpl run_downloads.
  pose proof (retry_loop_mosaic zone fname (MAX_RETRIES config) 0 w) as H1.
  destruct (retry_loop config net zone fname (MAX_RETRIES config) 0 w)
    as [w1 r].
  pose proof (IH w1) as H2.
  destruct (run_downloads config net ts w1) as [w2 rs].
  cbn [fst] in *. congruence.
Qed.
End FetchWorld.

Section PipelineExtras.
Import Mosaicker Confidence Invariants Observations.

Variable geom : Type.
Variable to_crs : string -> string -> geom -> geom.
Variable unary_union : list geom -> geom.
Variable intersects : geom -> geom -> bool.
Variable read_file : string -> option (ZoneResolver.GeoDataFrame geom).
Variable config : Config.
Variable net : string -> nat -> Fetcher.attempt_outcome.
Variable erfinv : R -> R.

Lemma get_noaa_grids_mosaic base_dir prj event_list dur_list states CI w :
  mosaic (fst (Orchestrator.get_noaa_grids geom to_crs unary_union intersects
                 read_file config net base_dir prj event_list dur_list
                 states CI w)) = mosaic w.
Proof.
  unfold Orchestrator.get_noaa_grids.
  match goal with
  | |- context [ZoneResolver.find_noaa_zones _ _ _ _ _ _ _ ?w0] =>
      pose proof (find_noaa_zones_world geom to_crs unary_union intersects
                    read_file prj states w0) as Hf;
      destruct (ZoneResolver.find_noaa_zones geom to_crs unary_union
                  intersects read_file prj states w0) as [w1 [zones|e]]
  end; cbn [fst] in Hf; destruct Hf as [_ [Hm _]]; cbn [mosaic] in Hm.
  - match goal with
    | |- context [Fetcher.run_downloads config net ?ts ?w0] =>
        pose proof (run_downloads_mosaic config net ts w0) as Hr;
        destruct (Fetcher.run_downloads config net ts w0) as [w2 [[]|e]]
    end; cbn [fst mosaic log emit] in *; congruence.
  - cbn [fst]. exact Hm.
Qed.

Lemma validation_passes event_list dur_list :
  incl event_list (VALID_EVENTS config) ->
  incl dur_list (VALID_DURATIONS config) ->
  issubset event_list (VALID_EVENTS config) = true
  /\ issubset dur_list (VALID_DURATIONS config) = true.
Proof.
  intros He Hd. split; apply issubset_spec; assumption.
Qed.

(** X9: an unreadable shapefile aborts the run before any download, but not
    before the output directory exists.  With valid events and durations,
    when the zone index or the project area cannot be read, [process_grids]
    raises the read error; [NOAA_grids/] has been created by then, the
    mosaic folder is untouched, and no request has been made. *)
Theorem unreadable_shapefile_aborts_before_download
    (base_dir prj_area_shp_path states_shp_path : string)
    (event_list dur_list : list string) (CI_100yr : bool) (w : World) :
  incl event_list (VALID_EVENTS config) ->
  incl dur_list (VALID_DURATIONS config) ->
  read_file states_shp_path = None \/ read_file prj_area_shp_path = None ->
  exists w' path,
    Orchestrator.process_grids geom to_crs unary_union intersects read_file
      config net erfinv base_dir prj_area_shp_path states_shp_path
      event_list dur_list CI_100yr w = (w', Raise (IOError path))
    /\ grids w' = Some (listing (grids w))
    /\ mosaic w' = mosaic w
    /\ In (EvMkdir (base_dir ++ "/NOAA_grids")) (trace w')
    /\ http_gets (trace w') = http_gets (trace w).
Proof.
  intros He Hd Hread.
  destruct (validation_passes event_list dur_list He Hd) as [Ve Vd].
  unfold Orchestrator.process_grids, Orchestrator.process_body.
  rewrite Ve, Vd. cbn [negb].
  unfold Orchestrator.get_noaa_grids, ZoneResolver.find_noaa_zones.
  destruct (read_file states_shp_path) as [st|] eqn:Es.
  - destruct Hread as [Hread | Hread]; [discriminate|]. rewrite Hread.
    do 2 eexists. split; [reflexivity|]. cbn.
    repeat split; auto 8.
  - do 2 eexists. split; [reflexivity|]. cbn.
    repeat split; auto 8.
Qed.

(** X10: with at most one zone resolved the run cannot fail after the fetch
    step and never touches the mosaic folder: no mosaicking is attempted, the
    confidence step (if any) works in [NOAA_grids/], and [process_grids]
    returns normally. *)
Theorem single_zone_run_skips_mosaic
    (base_dir prj_area_shp_path states_shp_path : string)
    (event_list dur_list zones : list string) (CI_100yr : bool)
    (w0 w1 : World) :
  incl event_list (VALID_EVENTS config) ->
  incl dur_list (VALID_DURATIONS config) ->
  Orchestrator.get_noaa_grids geom to_crs unary_union intersects read_file
    config net base_dir prj_area_shp_path event_list dur_list
    states_shp_path CI_100yr w0 = (w1, Ok zones) ->
  List.length zones <= 1 ->
  snd (Orchestrator.process_grids geom to_crs unary_union intersects read_file
         config net erfinv base_dir prj_area_shp_path states_shp_path
         event_list dur_list CI_100yr w0) = Ok tt
  /\ mosaic (fst (Orchestrator.process_grids geom to_crs unary_union
                    intersects read_file config net erfinv base_dir
                    prj_area_shp_path states_shp_path event_list dur_list
                    CI_100yr w0)) = mosaic w0.
Proof.
  intros He Hd Hget Hlen.
  destruct (validation_passes event_list dur_list He Hd) as [Ve Vd].
  pose proof (get_noaa_grids_mosaic base_dir prj_area_shp_path event_list
                dur_list states_shp_path CI_100yr w0) as Hm.
  rewrite Hget in Hm. cbn [fst] in Hm.
  unfold Orchestrator.process_grids, Orchestrator.process_body.
  rewrite Ve, Vd. cbn [negb]. rewrite Hget.
  assert (Hlt : Nat.ltb 1 (List.length zones) = false)
    by (apply Nat.ltb_ge; lia).
  rewrite Hlt.
  destruct (str_in "100" event_list && CI_100yr).
  - unfold process_confidence_intervals.
    pose proof (durations_loop_ok erfinv NOAA_grids dur_list
                  (log (LogInfo "Computing 1% plus/minus grids") w1)) as Hok.
    pose proof (ext_other _ _ _
                  (durations_loop_extends erfinv NOAA_grids dur_list
                     (log (LogInfo "Computing 1% plus/minus grids") w1)))
      as Hother.
    destruct (durations_loop erfinv NOAA_grids dur_list _) as [w3 r3].
    cbn [fst snd] in *. subst r3. cbn in Hother. split; [reflexivity|].
    cbn. congruence.
  - cbn. auto.
Qed.
End PipelineExtras.

Lemma unreadable_shapefile_aborts_before_download_witness :
  exists w' path,
    Orchestrator.process_grids (list nat) (fun _ _ g => g) (@List.concat nat)
      line_intersects line_read default_config broken_net (fun x => x)
      "run" "area.shp" "missing.shp" ["100"] ["24h"] true empty_world
    = (w', Raise (IOError path))
    /\ grids w' = Some []
    /\ mosaic w' = None
    /\ In (EvMkdir "run/NOAA_grids") (trace w')
    /\ Observations.http_gets (trace w') = [].
Proof.
  apply (unreadable_shapefile_aborts_before_download (list nat)
           (fun _ _ g => g) (@List.concat nat) line_intersects line_read
           default_config broken_net (fun x => x)
           "run" "area.shp" "missing.shp" ["100"] ["24h"] true empty_world).
  - intros x Hx. simpl in *. intuition.
  - intros x Hx. simpl in *. intuition.
  - left. reflexivity.
Defined.

Lemma single_zone_run_skips_mosaic_witness :
  snd (Orchestrator.process_grids (list nat) (fun _ _ g => g)
         (@List.concat nat) line_intersects line_read_inside default_config
         slow_net (fun x => x) "run" "area.shp" "zones.shp" ["100"] ["24h"]
         true empty_world) = Ok tt
  /\ mosaic (fst (Orchestrator.process_grids (list nat) (fun _ _ g => g)
                    (@List.concat nat) line_intersects line_read_inside
                    default_config slow_net (fun x => x) "run" "area.shp"
                    "zones.shp" ["100"] ["24h"] true empty_world)) = None.
Proof.
  apply (single_zone_run_skips_mosaic (list nat) (fun _ _ g => g)
           (@List.concat nat) line_intersects line_read_inside default_config
           slow_net (fun x => x) "run" "area.shp" "zones.shp" ["100"] ["24h"]
           ["se"] true empty_world
           (fst (Orchestrator.get_noaa_grids (list nat) (fun _ _ g => g)
                   (@List.concat nat) line_intersects line_read_inside
                   default_config slow_net "run" "area.shp" ["100"] ["24h"]
                   "zones.shp" true empty_world))).
  - intros x Hx. simpl in *. intuition.
  - intros x Hx. simpl in *. intuition.
  - vm_compute. reflexivity.
  - simpl. lia.
Defined.

(** ** What the mosaic step and the confidence step do to the world *)

Section FootprintProps.
Import Mosaicker Confidence Invariants Observations Footprint.

Lemma grows_by_refl P w : grows_by P w w.
Proof. exists []. split; [reflexivity | constructor]. Qed.

Lemma grows_by_trans P w1 w2 w3 :
  grows_by P w1 w2 -> grows_by P w2 w3 -> grows_by P w1 w3.
Proof.
  intros [a1 [H1 F1]] [a2 [H2 F2]]. exists (a2 ++ a1)%list. split.
  - rewrite H2, H1. apply app_assoc.
  - apply Forall_app. auto.
Qed.

Lemma grows_by_one (P : event -> Prop) ev w w' :
  trace w' = ev :: trace w -> P ev -> grows_by P w w'.
Proof.
  intros Ht Hp. exists [ev]. split; [exact Ht | repeat constructor; exact Hp].
Qed.

Lemma grows_by_http_gets P w w' :
  (forall ev, P ev -> forall u, ev <> EvHttpGet u) ->
  grows_by P w w' -> http_gets (trace w') = http_gets (trace w).
Proof.
  intros HP [added [Ht HF]]. rewrite Ht. clear Ht. unfold http_gets.
  rewrite flat_map_app.
  replace (flat_map _ added) with (@nil string); [reflexivity|].
  symmetry. induction HF as [|ev l Hev _ IH]; [reflexivity|].
  simpl. rewrite IH. rewrite app_nil_r.
  destruct ev; try reflexivity. exfalso. now apply (HP _ Hev url).
Qed.

Lemma reach_trans f w1 w2 w3 :
  reach f w1 w2 -> reach f w2 w3 -> reach f w1 w3.
Proof.
  intros H12 H23. induction H23.
  - exact H12.
  - now apply reach_log.
  - now apply reach_write.
Qed.

Lemma save_reach f out_meta name data w :
  output_name name -> reach f w (save f out_meta name data w).
Proof.
  intros Hout. unfold save.
  apply reach_write; [apply reach_refl | exact Hout].
Qed.

Variable erfinv : R -> R.

Lemma compute_reach f b u l w :
  reach f w (fst (compute_1pct_plus_and_minus erfinv f b u l w)).
Proof.
  assert (Hbody : reach f w (fst (compute_body erfinv f b u l w))).
  { unfold compute_body.
    destruct (open_raster _ b) as [rast|]; [|apply reach_refl].
    destruct (open_raster _ l) as [rast_l|]; [|apply reach_refl].
    destruct (open_raster _ u) as [rast_u|]; [|apply reach_refl].
    destruct (bounds _ _ _ _) as [[pp pm]|]; [|apply reach_refl].
    cbn [fst].
    apply (reach_trans f w (save f rast (stem b ++ "_plus" ++ ".asc") pp w)).
    - apply save_reach. exists (stem b). now left.
    - apply save_reach. exists (stem b). now right. }
  unfold compute_1pct_plus_and_minus.
  destruct (compute_body erfinv f b u l w) as [w1 [[]|e]]; cbn [fst] in *.
  - exact Hbody.
  - now apply reach_log.
Qed.

Lemma process_duration_reach f dur w :
  reach f w (fst (process_duration erfinv f dur w)).
Proof.
  assert (Hbody : reach f w (fst (duration_body erfinv f dur w))).
  { unfold duration_body.
    destruct (next_glob _ _) as [b|]; [|apply reach_refl].
    destruct (next_glob _ _) as [u|]; [|apply reach_refl].
    destruct (next_glob _ _) as [l|]; [|apply reach_refl].
    apply compute_reach. }
  unfold process_duration.
  destruct (duration_body erfinv f dur w) as [w1 [[]|e]]; cbn [fst] in *.
  - exact Hbody.
  - destruct e; cbn [fst]; now apply reach_log.
Qed.

Lemma durations_loop_reach f dur_list :
  forall w, reach f w (fst (durations_loop erfinv f dur_list w)).
Proof.
  induction dur_list as [|dur rest IH]; intros w; [apply reach_refl|].
  rewrite durations_loop_step.
  apply (reach_trans f w (fst (process_duration erfinv f dur w)));
    [apply process_duration_reach | apply IH].
Qed.

Lemma reach_grows f w w' :
  reach f w w' -> grows_by (confidence_event f) w w'.
Proof.
  induction 1 as [|w' l _ IH|w' name r _ IH Hout].
  - apply grows_by_refl.
  - apply (grows_by_trans _ w w'); [exact IH|].
    eapply grows_by_one; [reflexivity | exact I].
  - apply (grows_by_trans _ w w'); [exact IH|].
    apply (grows_by_one _ (EvWriteRaster (folder_name f) name)).
    + destruct f; reflexivity.
    + split; [reflexivity | exact Hout].
Qed.

Lemma reach_other f w w' : reach f w w' -> other_dir f w' = other_dir f w.
Proof.
  induction 1 as [|w' l _ IH|w' name r _ IH Hout]; [reflexivity | |].
  - rewrite <- IH. destruct f; reflexivity.
  - rewrite <- IH. destruct f; reflexivity.
Qed.

Lemma reach_lookup f w w' n :
  reach f w w' -> ~ output_name n -> ~ side_name n ->
  dir_lookup n (listing (folder_dir f w')) = dir_lookup n (listing (folder_dir f w)).
Proof.
  intros H Hn Hs. induction H as [|w' l _ IH|w' name r _ IH Hout];
    [reflexivity | |].
  - rewrite <- IH. destruct f; reflexivity.
  - rewrite <- IH. rewrite folder_dir_write. cbn [listing].
    rewrite dir_lookup_write_other.
    + apply dir_lookup_write_other. intros ->. contradiction.
    + intros ->. apply Hs. now exists name.
Qed.

End FootprintProps.

Section MosaicFootprint.
Import Mosaicker Observations Footprint.


End MosaicFootprint.

Section EmptyIntersection.
Import Mosaicker Confidence Invariants Observations Footprint ZoneFacts.

Variable geom : Type.
Variable to_crs : string -> string -> geom -> geom.
Variable unary_union : list geom -> geom.
Variable intersects : geom -> geom -> bool.
Variable read_file : string -> option (ZoneResolver.GeoDataFrame geom).
Variable config : Config.
Variable net : string -> nat -> Fetcher.attempt_outcome.
Variable erfinv : R -> R.

Lemma confidence_step_no_request f dur_list w :
  http_gets (trace (fst (process_confidence_intervals erfinv f dur_list w)))
  = http_gets (trace w).
Proof.
  apply (grows_by_http_gets (confidence_event f)).
  - intros ev Hev u ->. exact Hev.
  - apply reach_grows. unfold process_confidence_intervals.
    apply (reach_trans f w (log (LogInfo "Computing 1% plus/minus grids") w)).
    + apply reach_log, reach_refl.
    + apply durations_loop_reach.
Qed.

(** X13: an empty intersection is not an error.  With valid events and
    durations and readable shapefiles, when no zone polygon other than those
    of "Atlas2" intersects the project area, [process_grids] returns
    normally without a single request and without touching the mosaic
    folder. *)
Theorem empty_intersection_is_not_an_error
    (base_dir prj_area_shp_path states_shp_path : string)
    (event_list dur_list : list string) (CI_100yr : bool) (w : World)
    (states_shp prj_area_shp : ZoneResolver.GeoDataFrame geom) :
  incl event_list (VALID_EVENTS config) ->
  incl dur_list (VALID_DURATIONS config) ->
  read_file states_shp_path = Some states_shp ->
  read_file prj_area_shp_path = Some prj_area_shp ->
  (forall z g,
     In (z, g) (ZoneResolver.rows geom (reprojected geom to_crs states_shp)) ->
     intersects g (project_union geom to_crs unary_union prj_area_shp) = true ->
     z = "Atlas2") ->
  let r := Orchestrator.process_grids geom to_crs unary_union intersects
             read_file config net erfinv base_dir prj_area_shp_path
             states_shp_path event_list dur_list CI_100yr w in
  snd r = Ok tt
  /\ http_gets (trace (fst r)) = http_gets (trace w)
  /\ mosaic (fst r) = mosaic w.
Proof.
  intros He Hd Hs Hp Hnone.
  destruct (validation_passes config event_list dur_list He Hd) as [Ve Vd].
  assert (Hz : filter (fun z => negb (String.eqb z "Atlas2"))
                 (ZoneResolver.unique
                    (ZoneResolver.query_codes geom intersects
                       (reprojected geom to_crs states_shp)
                       (project_union geom to_crs unary_union prj_area_shp)))
               = []).
  { match goal with |- ?l = [] => destruct l as [|z zs] eqn:E end;
      [reflexivity|]. exfalso.
    assert (Hin : In z (z :: zs)) by now left.
    rewrite <- E in Hin. apply filter_In in Hin. destruct Hin as [Hin Hne].
    rewrite unique_In in Hin. unfold ZoneResolver.query_codes in Hin.
    apply in_map_iff in Hin. destruct Hin as [[z' g] [Hz' Hin]].
    simpl in Hz'. subst z'. apply filter_In in Hin.
    destruct Hin as [Hin Hi]. simpl in Hi.
    rewrite (Hnone z g Hin Hi) in Hne. discriminate. }
  cbv zeta.
  unfold Orchestrator.process_grids, Orchestrator.process_body.
  rewrite Ve, Vd. cbn [negb]. unfold Orchestrator.get_noaa_grids.
  match goal with
  | |- context [ZoneResolver.find_noaa_zones _ _ _ _ _ _ _ ?w0] =>
      pose proof (find_noaa_zones_world geom to_crs unary_union intersects
                    read_file prj_area_shp_path states_shp_path w0) as Hw;
      pose proof (find_noaa_zones_result geom to_crs unary_union intersects
                    read_file prj_area_shp_path states_shp_path w0
                    states_shp prj_area_shp Hs Hp) as Hr;
      destruct (ZoneResolver.find_noaa_zones geom to_crs unary_union
                  intersects read_file prj_area_shp_path states_shp_path w0)
        as [w1 r1]
  end.
  cbn [fst snd] in Hw, Hr. rewrite Hz in Hr. subst r1.
  destruct Hw as [_ [Hm Hg]]. cbn [mosaic trace] in Hm, Hg.
  cbn [Fetcher.file_tasks flat_map Fetcher.run_downloads List.length Nat.ltb
       Nat.leb].
  destruct (str_in "100" event_list && CI_100yr).
  - pose proof (durations_loop_ok erfinv NOAA_grids dur_list
                  (log (LogInfo "Computing 1% plus/minus grids")
                       (log (LogInfo "Processing zones") w1))) as Hok.
    pose proof (confidence_step_no_request NOAA_grids dur_list
                  (log (LogInfo "Processing zones") w1)) as Hreq.
    pose proof (reach_other NOAA_grids
                  (log (LogInfo "Processing zones") w1) _
                  (reach_trans _ _ _ _
                     (reach_log _ _ _ (LogInfo "Computing 1% plus/minus grids")
                        (reach_refl _ _))
                     (durations_loop_reach erfinv NOAA_grids dur_list _)))
      as Hoth.
    unfold process_confidence_intervals in *.
    destruct (durations_loop erfinv NOAA_grids dur_list _) as [w3 r3].
    cbn [fst snd] in *. subst r3. split; [reflexivity|]. split.
    + cbn [fst]. rewrite Hreq. exact Hg.
    + cbn in Hoth. cbn [fst]. congruence.
  - cbn. split; [reflexivity|]. split; [exact Hg | exact Hm].
Qed.
End EmptyIntersection.

Lemma empty_intersection_is_not_an_error_witness :
  let r := Orchestrator.process_grids (list nat) (fun _ _ g => g)
             (@List.concat nat) line_intersects line_read_inside
             default_config broken_net (fun x => x) "run" "offshore.shp"
             "zones.shp" ["100"; "25"] ["24h"; "06h"] true empty_world in
  snd r = Ok tt
  /\ Observations.http_gets (trace (fst r)) = []
  /\ mosaic (fst r) = None.
Proof.
  apply (empty_intersection_is_not_an_error (list nat) (fun _ _ g => g)
           (@List.concat nat) line_intersects line_read_inside default_config
           broken_net (fun x => x) "run" "offshore.shp" "zones.shp"
           ["100"; "25"] ["24h"; "06h"] true empty_world line_index
           (ZoneResolver.mkGDF (list nat) "EPSG:4269" [("", [7%nat])])).
  - intros x Hx. simpl in *. intuition.
  - intros x Hx. simpl in *. intuition.
  - reflexivity.
  - reflexivity.
  - intros z g Hin Hi. simpl in Hin.
    repeat (destruct Hin as [Hin | Hin];
            [injection Hin as <- <-; vm_compute in Hi; discriminate|]).
    contradiction.
Defined.

(** ** RasterMosaicker: failures *)

Section MosaicFailures.
Import Naming Mosaicker MosaicNames.

Lemma re_mosaic_member_spec event dur name :
  re_mosaic_member event dur name = true <-> well_named event dur name.
Proof.
  unfold re_mosaic_member, well_named. rewrite letters_then_spec. split.
  - intros [zone [lit [Hne [Hl [Hin H]]]]].
    destruct Hin as [<- | [<- | [<- | []]]].
    + exists zone, "". simpl. auto 8.
    + exists zone, "u". simpl. auto 8.
    + exists zone, "l". simpl. auto 8.
  - intros [zone [ci [Hne [Hl [Hci H]]]]].
    exists zone, (asc_name event dur ci). repeat split; auto.
    simpl. destruct Hci as [<- | [<- | [<- | []]]]; auto.
Qed.

Lemma forallb_false_exists {A} (p : A -> bool) l :
  forallb p l = false <-> exists x, In x l /\ p x = false.
Proof.
  induction l as [|a l IH]; simpl.
  - split; [discriminate | intros [x [[] _]]].
  - rewrite andb_false_iff, IH. split.
    + intros [H | [x [Hin H]]]; [exists a | exists x]; auto.
    + intros [x [[<- | Hin] H]]; [left | right; exists x]; auto.
Qed.

Lemma open_all_raise d names e :
  open_all d names = Raise e ->
  exists n, In n names /\ e = IOError n /\ unreadable d n.
Proof.
  induction names as [|n ns IH]; [discriminate|].
  simpl. unfold open_raster at 1.
  destruct (dir_lookup n (listing d)) as [[r|c|]|] eqn:E; simpl.
  - destruct (open_all d ns) as [rs|e'] eqn:Eo; simpl; [discriminate|].
    intros H. injection H as <-.
    destruct (IH eq_refl) as [m [Hin [He Hu]]]. exists m. auto.
  - intros H. injection H as <-. exists n. repeat split; auto.
    intros r. unfold unreadable. rewrite E. discriminate.
  - intros H. injection H as <-. exists n. repeat split; auto.
    intros r. rewrite E. discriminate.
  - intros H. injection H as <-. exists n. repeat split; auto.
    intros r. rewrite E. discriminate.
Qed.

(** X14: the pattern error of the mosaic step.  On a non-empty list
    [mosaic_list_of_rasters] raises [ValueError] exactly when some name is
    not of the shape letters, [{event}yr{dur}a], an optional [u] or [l],
    [.asc] (a final newline being let through); it has then created the
    mosaic folder and written nothing into it. *)
Theorem mosaic_pattern_error
    (raster_list : list string) (event dur CI : string) (w : World) :
  raster_list <> [] ->
  ((exists msg,
      snd (mosaic_list_of_rasters raster_list event dur CI w)
      = Raise (ValueError msg))
   <-> exists name, In name raster_list /\ ~ well_named event dur name)
  /\ ((exists msg,
         snd (mosaic_list_of_rasters raster_list event dur CI w)
         = Raise (ValueError msg)) ->
      fst (mosaic_list_of_rasters raster_list event dur CI w)
      = mkWorld (grids w) (Some (listing (mosaic w)))
                (EvMkdir "NOAA_grids_mosaic" :: trace w)).
Proof.
  intros Hne. unfold mosaic_list_of_rasters.
  destruct raster_list as [|n ns]; [contradiction|].
  destruct (forallb (re_mosaic_member event dur) (n :: ns)) eqn:F;
    cbn [negb].
  - assert (Hno : ~ exists msg,
               snd (match open_all (grids w) (n :: ns) with
                    | Ok [] =>
                        (mkWorld (grids w) (Some (listing (mosaic w)))
                           (EvMkdir "NOAA_grids_mosaic" :: trace w),
                         Raise IndexError)
                    | Ok (first :: others) =>
                        let '(height, width, band, transform) :=
                          merge_max first others in
                        (write_mosaic
                           ("comb" ++ event ++ "yr" ++ dur ++ "a" ++ CI ++ ".asc")
                           (mkRaster height width transform (r_crs first)
                              (r_nodata first) band)
                           (mkWorld (grids w) (Some (listing (mosaic w)))
                              (EvMkdir "NOAA_grids_mosaic" :: trace w)),
                         Ok tt)
                    | Raise e =>
                        (mkWorld (grids w) (Some (listing (mosaic w)))
                           (EvMkdir "NOAA_grids_mosaic" :: trace w), Raise e)
                    end) = Raise (ValueError msg)).
    { intros [msg H]. cbn [grids] in H.
      destruct (open_all (grids w) (n :: ns)) as [[|first others]|e] eqn:Eo.
      - discriminate.
      - destruct (merge_max first others) as [[[h wd] band] tr]. discriminate.
      - apply open_all_raise in Eo. destruct Eo as [m [_ [-> _]]].
        discriminate. }
    cbn [grids] in *. split; [|intros H; contradiction].
    split; [intros H; contradiction|].
    intros [name [Hin Hbad]]. exfalso. apply Hbad.
    apply re_mosaic_member_spec.
    rewrite forallb_forall in F. now apply F.
  - cbn [fst snd]. split; [|reflexivity]. split.
    + intros _. apply forallb_false_exists in F.
      destruct F as [name [Hin Hf]]. exists name. split; [assumption|].
      intros Hw. apply re_mosaic_member_spec in Hw. congruence.
    + intros _. eexists. reflexivity.
Qed.

Lemma task_result_cases d event_list dur_list rasters e dur ci w :
  grids w = d ->
  In (rasters, e, dur, ci) (combine_tasks d event_list dur_list) ->
  snd (mosaic_list_of_rasters rasters e dur ci w) = Ok tt
  \/ exists n, In n rasters
               /\ snd (mosaic_list_of_rasters rasters e dur ci w)
                  = Raise (IOError n)
               /\ unreadable d n.
Proof.
  intros Hd Hin. apply combine_tasks_spec in Hin.
  destruct Hin as [_ [_ [Hci [Hr Hlen]]]].
  assert (Hpat : forallb (re_mosaic_member e dur) rasters = true).
  { subst rasters. apply group_members_match. tauto. }
  unfold mosaic_list_of_rasters.
  destruct rasters as [|n ns]; [simpl in Hlen; lia|].
  rewrite Hpat. cbn [negb grids]. rewrite Hd.
  destruct (open_all d (n :: ns)) as [[|first others]|ex] eqn:Eo.
  - simpl in Eo. destruct (open_raster d n); simpl in Eo; [|discriminate].
    destruct (open_all d ns); simpl in Eo; discriminate.
  - left. destruct (merge_max first others) as [[[h wd] band] tr].
    reflexivity.
  - right. apply open_all_raise in Eo. destruct Eo as [m [Hm [-> Hu]]].
    exists m. auto.
Qed.

(** X15: the mosaic step fails on unreadable rasters only.  Whatever
    [NOAA_grids/] holds, [combine_multiple_zones] either returns normally or
    raises the read error of a file that belongs to one of its groups of two
    or more and does not open as a raster; the pattern error and the index
    error of [mosaic_list_of_rasters] cannot occur on the groups it forms. *)
Theorem combine_fails_on_unreadable_rasters_only
    (event_list dur_list : list string) (w : World) :
  snd (combine_multiple_zones event_list dur_list w) = Ok tt
  \/ exists rasters e d ci n,
       In (rasters, e, d, ci) (combine_tasks (grids w) event_list dur_list)
       /\ In n rasters
       /\ unreadable (grids w) n
       /\ snd (combine_multiple_zones event_list dur_list w)
          = Raise (IOError n).
Proof.
  unfold combine_multiple_zones.
  assert (H : forall ts w0,
             grids w0 = grids w ->
             (forall t, In t ts ->
                        In t (combine_tasks (grids w) event_list dur_list)) ->
             snd (run_mosaics ts w0) = Ok tt
             \/ exists rasters e d ci n,
                  In (rasters, e, d, ci)
                     (combine_tasks (grids w) event_list dur_list)
                  /\ In n rasters /\ unreadable (grids w) n
                  /\ snd (run_mosaics ts w0) = Raise (IOError n)).
  { induction ts as [|[[[rasters e] d] ci] ts IH]; intros w0 Hg Hsub;
      [left; reflexivity|].
    simpl.
    pose proof (task_result_cases (grids w) event_list dur_list rasters e d ci
                  w0 Hg (Hsub _ (or_introl eq_refl))) as Ht.
    pose proof (mosaic_list_grids rasters e d ci w0) as Hg1.
    destruct (mosaic_list_of_rasters rasters e d ci w0) as [w1 r].
    cbn [fst snd] in *.
    assert (IH1 := IH w1 (eq_trans Hg1 Hg)
                      (fun t Ht' => Hsub t (or_intror Ht'))).
    destruct (run_mosaics ts w1) as [w2 rs]. cbn [snd] in *.
    destruct Ht as [-> | [n [Hn [-> Hu]]]].
    - exact IH1.
    - right. exists rasters, e, d, ci, n. repeat split; auto.
      apply Hsub. now left. }
  apply H; auto.
Qed.
End MosaicFailures.

Lemma mosaic_pattern_error_witness :
  exists msg,
    snd (Mosaicker.mosaic_list_of_rasters
           ["se100yr24ha.asc"; "se1000yr24ha.asc"] "100" "24h" ""
           two_zone_world) = Raise (ValueError msg).
Proof.
  destruct (mosaic_pattern_error ["se100yr24ha.asc"; "se1000yr24ha.asc"]
              "100" "24h" "" two_zone_world) as [[_ H] _]; [discriminate|].
  apply H. exists "se1000yr24ha.asc". split; [simpl; auto|].
  intros Hw. apply re_mosaic_member_spec in Hw. discriminate.
Defined.

Lemma combine_fails_on_unreadable_rasters_only_witness :
  exists n,
    snd (Mosaicker.combine_multiple_zones ["100"; "25"] ["24h"] corrupt_world)
    = Raise (IOError n)
    /\ MosaicNames.unreadable (grids corrupt_world) n.
Proof.
  destruct (combine_fails_on_unreadable_rasters_only ["100"; "25"] ["24h"]
              corrupt_world)
    as [H | [rasters [e [d [ci [n [_ [_ [Hu H]]]]]]]]].
  - vm_compute in H. discriminate.
  - exists n. auto.
Defined.

(** ** RasterMosaicker: the merged raster *)

Section MergeExtras.
Import Mosaicker.
Local Open Scope Z_scope.

Lemma fold_min_In l : forall a, In (fold_left Z.min l a) (a :: l).
Proof.
  induction l as [|x l IH]; intros a; [now left|].
  simpl fold_left. destruct (IH (Z.min a x)) as [H | H].
  - rewrite <- H. destruct (Z.min_spec a x) as [[_ ->] | [_ ->]];
      [left | right; left]; reflexivity.
  - right. right. exact H.
Qed.

Lemma fold_max_In l : forall a, In (fold_left Z.max l a) (a :: l).
Proof.
  induction l as [|x l IH]; intros a; [now left|].
  simpl fold_left. destruct (IH (Z.max a x)) as [H | H].
  - rewrite <- H. destruct (Z.max_spec a x) as [[_ ->] | [_ ->]];
      [right; left | left]; reflexivity.
  - right. right. exact H.
Qed.

Lemma in_map_cons {A B} (f : A -> B) a l y :
  In y (f a :: map f l) -> exists x, In x (a :: l) /\ y = f x.
Proof.
  intros [<- | H].
  - exists a. split; [now left | reflexivity].
  - apply in_map_iff in H. destruct H as [x [<- Hx]].
    exists x. split; [now right | reflexivity].
Qed.

(** X16: the footprint of a mosaic is the bounding box of its inputs and no
    more: a lattice pixel of the merged raster lies, row-wise, between the
    top of some input and the bottom of some input, and column-wise between
    the left edge of some input and the right edge of some input. *)
Theorem mosaic_footprint_is_bounding_box
    (first : Raster) (others : list Raster) (row col : Z) :
  covers (merged_raster first others) row col = true ->
  exists s_top s_bottom s_left s_right,
    In s_top (first :: others) /\ In s_bottom (first :: others)
    /\ In s_left (first :: others) /\ In s_right (first :: others)
    /\ t_top (r_transform s_top) <= row < bottom s_bottom
    /\ t_left (r_transform s_left) <= col < right s_right.
Proof.
  intros Hc. apply merged_covers in Hc.
  destruct Hc as [Ht [Hb [Hl Hr]]].
  destruct (in_map_cons (fun r => t_top (r_transform r)) first others _
              (fold_min_In _ _)) as [s1 [H1 E1]].
  destruct (in_map_cons bottom first others _ (fold_max_In _ _))
    as [s2 [H2 E2]].
  destruct (in_map_cons (fun r => t_left (r_transform r)) first others _
              (fold_min_In _ _)) as [s3 [H3 E3]].
  destruct (in_map_cons right first others _ (fold_max_In _ _))
    as [s4 [H4 E4]].
  exists s1, s2, s3, s4. repeat split; auto; lia.
Qed.

Lemma fold_min_same_set f (a b : Raster) (l m : list Raster) :
  (forall r, In r (a :: l) <-> In r (b :: m)) ->
  fold_left Z.min (map f l) (f a) = fold_left Z.min (map f m) (f b).
Proof.
  intros Hset.
  assert (H : forall (a b : Raster) l m,
             (forall r, In r (a :: l) -> In r (b :: m)) ->
             fold_left Z.min (map f m) (f b)
             <= fold_left Z.min (map f l) (f a)).
  { intros a0 b0 l0 m0 Hsub.
    destruct (in_map_cons f a0 l0 _ (fold_min_In _ _)) as [x [Hx ->]].
    apply Hsub in Hx. destruct Hx as [<- | Hx].
    - apply fold_min_le.
    - apply fold_min_le_In. now apply in_map. }
  apply Z.le_antisymm; apply H; intros r; apply Hset.
Qed.

Lemma fold_max_same_set f (a b : Raster) (l m : list Raster) :
  (forall r, In r (a :: l) <-> In r (b :: m)) ->
  fold_left Z.max (map f l) (f a) = fold_left Z.max (map f m) (f b).
Proof.
  intros Hset.
  assert (H : forall (a b : Raster) l m,
             (forall r, In r (a :: l) -> In r (b :: m)) ->
             fold_left Z.max (map f l) (f a)
             <= fold_left Z.max (map f m) (f b)).
  { intros a0 b0 l0 m0 Hsub.
    destruct (in_map_cons f a0 l0 _ (fold_max_In _ _)) as [x [Hx ->]].
    apply Hsub in Hx. destruct Hx as [<- | Hx].
    - apply fold_max_ge.
    - apply fold_max_ge_In. now apply in_map. }
  apply Z.le_antisymm; apply H; intros r; apply Hset.
Qed.

Lemma merged_pixel_is_max (first : Raster) (others : list Raster) row col :
  (forall src, In src (first :: others) -> integer_grid src) ->
  contributions (first :: others) row col <> [] ->
  covers (merged_raster first others) row col = true
  /\ exists m,
       pixel (merged_raster first others) row col = Val m
       /\ In (Val m) (contributions (first :: others) row col)
       /\ forall z, In (Val z) (contributions (first :: others) row col) ->
                    z <= m.
Proof.
  intros Hint Hne.
  assert (Hcover : covers (merged_raster first others) row col = true).
  { destruct (contributions (first :: others) row col) as [|c0 cs] eqn:E;
      [contradiction|].
    assert (Hc0 : In c0 (contributions (first :: others) row col))
      by (rewrite E; now left).
    apply in_contributions in Hc0. apply in_map_iff in Hc0.
    destruct Hc0 as [r [Hs Hr]].
    apply (merged_covers_source first others r); [exact Hr|].
    unfold sample in Hs. destruct (covers r row col);
      [reflexivity | discriminate]. }
  split; [exact Hcover|].
  pose proof (merged_pixel_max first others Hint row col Hcover) as P.
  destruct (contributions (first :: others) row col); [contradiction|].
  exact P.
Qed.

(** X17: the order of the sources matters for the metadata only.  Two lists
    of integer grids with the same members give mosaics with the same
    footprint and, at every pixel to which some source contributes an
    unmasked cell, the same value. *)
Theorem mosaic_independent_of_order
    (first first' : Raster) (others others' : list Raster) :
  (forall r, In r (first :: others) <-> In r (first' :: others')) ->
  (forall src, In src (first :: others) -> integer_grid src) ->
  (forall row col,
     covers (merged_raster first others) row col
     = covers (merged_raster first' others') row col)
  /\ (forall row col,
        contributions (first :: others) row col <> [] ->
        pixel (merged_raster first others) row col
        = pixel (merged_raster first' others') row col).
Proof.
  intros Hset Hint.
  assert (Hint' : forall src, In src (first' :: others') -> integer_grid src).
  { intros src Hs. apply Hint, Hset, Hs. }
  assert (Hcov : forall row col,
             covers (merged_raster first others) row col
             = covers (merged_raster first' others') row col).
  { intros row col.
    pose proof (merged_covers first others row col) as H1.
    pose proof (merged_covers first' others' row col) as H2.
    rewrite (fold_min_same_set (fun r => t_top (r_transform r))
               first first' others others' Hset) in H1.
    rewrite (fold_max_same_set bottom first first' others others' Hset) in H1.
    rewrite (fold_min_same_set (fun r => t_left (r_transform r))
               first first' others others' Hset) in H1.
    rewrite (fold_max_same_set right first first' others others' Hset) in H1.
    destruct (covers (merged_raster first others) row col),
             (covers (merged_raster first' others') row col);
      try reflexivity.
    - symmetry. apply H2, H1. reflexivity.
    - apply H1, H2. reflexivity. }
  split; [exact Hcov|].
  intros row col Hne.
  assert (Hsame : forall c, In c (contributions (first :: others) row col)
                            <-> In c (contributions (first' :: others') row col)).
  { intros c. rewrite !in_contributions, !in_map_iff.
    split; intros [r [Hs Hr]]; exists r; (split; [exact Hs|]);
      apply Hset; exact Hr. }
  assert (Hne' : contributions (first' :: others') row col <> []).
  { intros E'. destruct (contributions (first :: others) row col) as [|c0 cs];
      [contradiction|].
    assert (H0 : In c0 (contributions (first' :: others') row col))
      by (apply Hsame; now left).
    rewrite E' in H0. contradiction. }
  destruct (merged_pixel_is_max first others row col Hint Hne)
    as [_ [m [-> [Hm Hmax]]]].
  destruct (merged_pixel_is_max first' others' row col Hint' Hne')
    as [_ [m' [-> [Hm' Hmax']]]].
  f_equal. apply Z.le_antisymm.
  - apply Hmax'. apply Hsame. exact Hm.
  - apply Hmax. apply Hsame. exact Hm'.
Qed.
End MergeExtras.

Lemma mosaic_footprint_is_bounding_box_witness :
  exists s_top s_bottom s_left s_right,
    In s_top [const_raster 2 3 0 0 1000; const_raster 2 3 2 1 900]
    /\ In s_bottom [const_raster 2 3 0 0 1000; const_raster 2 3 2 1 900]
    /\ In s_left [const_raster 2 3 0 0 1000; const_raster 2 3 2 1 900]
    /\ In s_right [const_raster 2 3 0 0 1000; const_raster 2 3 2 1 900]
    /\ (t_top (r_transform s_top) <= 0 < Mosaicker.bottom s_bottom)%Z
    /\ (t_left (r_transform s_left) <= 4 < Mosaicker.right s_right)%Z.
Proof.
  apply (mosaic_footprint_is_bounding_box (const_raster 2 3 0 0 1000)
           [const_raster 2 3 2 1 900] 0%Z 4%Z).
  reflexivity.
Defined.

Lemma mosaic_independent_of_order_witness :
  Mosaicker.pixel
    (Mosaicker.merged_raster (const_raster 2 3 0 0 1000)
                             [const_raster 2 3 2 1 900]) 1%Z 2%Z
  = Mosaicker.pixel
      (Mosaicker.merged_raster (const_raster 2 3 2 1 900)
                               [const_raster 2 3 0 0 1000]) 1%Z 2%Z.
Proof.
  destruct (mosaic_independent_of_order
              (const_raster 2 3 0 0 1000) (const_raster 2 3 2 1 900)
              [const_raster 2 3 2 1 900] [const_raster 2 3 0 0 1000])
    as [_ H].
  - intros r. simpl. tauto.
  - intros src [<- | [<- | []]] i j; discriminate.
  - apply H. vm_compute. discriminate.
Defined.

Section SingleRaster.
Import Mosaicker.

Lemma cell_eqb_eq a b : cell_eqb a b = true -> a = b.
Proof.
  destruct a, b; simpl; try discriminate; [reflexivity|].
  intros H. apply Z.eqb_eq in H. now subst.
Qed.

Lemma merged_single (r : Raster) :
  let m := merged_raster r [] in
  r_height m = r_height r /\ r_width m = r_width r
  /\ r_transform m = r_transform r
  /\ r_crs m = r_crs r /\ r_nodata m = r_nodata r
  /\ forall i j, i < r_height r -> j < r_width r ->
                 r_data m i j = r_data r i j.
Proof.
  cbv zeta. unfold merged_raster, merge_max.
  cbn [map fold_left r_height r_width r_transform r_crs r_nodata r_data].
  unfold bottom, right.
  repeat split.
  - rewrite Z.add_simpl_l. apply Nat2Z.id.
  - rewrite Z.add_simpl_l. apply Nat2Z.id.
  - destruct (r_transform r). reflexivity.
  - intros i j Hi Hj. unfold sample, covers, bottom, right.
    assert (Hc : ((t_top (r_transform r) <=? t_top (r_transform r) + Z.of_nat i)
                  && (t_top (r_transform r) + Z.of_nat i
                      <? t_top (r_transform r) + Z.of_nat (r_height r))
                  && (t_left (r_transform r)
                      <=? t_left (r_transform r) + Z.of_nat j)
                  && (t_left (r_transform r) + Z.of_nat j
                      <? t_left (r_transform r) + Z.of_nat (r_width r)))%Z
                 = true).
    { rewrite !andb_true_iff, !Z.leb_le, !Z.ltb_lt. lia. }
    rewrite Hc. rewrite !Z.add_simpl_l, !Nat2Z.id.
    unfold masked, fill_value. cbn [copy_max].
    destruct (r_nodata r) as [n|]; [|reflexivity].
    destruct (cell_eqb (r_data r i j) n) eqn:E; [|reflexivity].
    symmetry. now apply cell_eqb_eq.
Qed.

(** X18: mosaicking a single raster reproduces it.  When the list holds one
    well-named file that opens as the raster [r], the file
    [comb{event}yr{dur}a{CI}.asc] written by [mosaic_list_of_rasters] has the
    shape, transform, reference system and nodata value of [r] and the same
    cell at every position of the grid. *)
Theorem single_raster_mosaic_reproduces_it
    (name event dur CI : string) (w : World) (r : Raster) :
  Naming.re_mosaic_member event dur name = true ->
  dir_lookup name (listing (grids w)) = Some (RasterFile r) ->
  exists m,
    dir_lookup ("comb" ++ event ++ "yr" ++ dur ++ "a" ++ CI ++ ".asc")
      (listing (mosaic (fst (mosaic_list_of_rasters [name] event dur CI w))))
    = Some (RasterFile m)
    /\ r_height m = r_height r /\ r_width m = r_width r
    /\ r_transform m = r_transform r
    /\ r_crs m = r_crs r /\ r_nodata m = r_nodata r
    /\ forall i j, i < r_height r -> j < r_width r ->
                   r_data m i j = r_data r i j.
Proof.
  intros Hre Hfile. exists (merged_raster r []). split.
  - unfold mosaic_list_of_rasters. cbn [forallb]. rewrite Hre.
    cbn [andb negb grids open_all]. unfold open_raster. rewrite Hfile.
    cbn [bind]. unfold merged_raster.
    destruct (merge_max r []) as [[[h wd] band] tr].
    cbn [fst write_mosaic mosaic listing]. apply dir_lookup_write.
  - apply merged_single.
Qed.

(** X19: with fewer than two files in every group the mosaic step does
    nothing at all: [combine_multiple_zones] returns normally and leaves the
    world as it found it, without even creating [NOAA_grids_mosaic/]. *)
Theorem combine_without_overlap_does_nothing
    (event_list dur_list : list string) (w : World) :
  (forall e d ci, In e event_list -> In d dur_list -> In ci [""; "u"; "l"] ->
                  List.length (group (grids w) e d ci) < 2) ->
  combine_multiple_zones event_list dur_list w = (w, Ok tt).
Proof.
  intros Hsmall. unfold combine_multiple_zones.
  destruct (combine_tasks (grids w) event_list dur_list)
    as [|[[[rasters e] d] ci] ts] eqn:E; [reflexivity|].
  exfalso.
  assert (Hin : In (rasters, e, d, ci)
                   (combine_tasks (grids w) event_list dur_list))
    by (rewrite E; now left).
  apply combine_tasks_spec in Hin.
  destruct Hin as [He [Hd [Hci [-> Hlen]]]].
  assert (Hin : In ci [""; "u"; "l"]).
  { simpl. destruct Hci as [-> | [_ [-> | ->]]]; auto. }
  specialize (Hsmall e d ci He Hd Hin). lia.
Qed.
End SingleRaster.

Lemma single_raster_mosaic_reproduces_it_witness :
  exists m,
    dir_lookup "comb25yr24ha.asc"
      (listing (mosaic (fst (Mosaicker.mosaic_list_of_rasters
                               ["se25yr24ha.asc"] "25" "24h" ""
                               two_zone_world))))
    = Some (RasterFile m)
    /\ r_transform m = mkTransform 0 0
    /\ r_data m 1 2 = Val 500.
Proof.
  destruct (single_raster_mosaic_reproduces_it "se25yr24ha.asc" "25" "24h" ""
              two_zone_world (const_raster 2 3 0 0 500) eq_refl eq_refl)
    as [m [Hm [_ [_ [Ht [_ [_ Hd]]]]]]].
  exists m. split; [exact Hm|]. split; [exact Ht|].
  apply Hd; simpl; lia.
Defined.

Lemma combine_without_overlap_does_nothing_witness :
  Mosaicker.combine_multiple_zones ["25"; "5"] ["24h"] two_zone_world
  = (two_zone_world, Ok tt).
Proof.
  apply combine_without_overlap_does_nothing.
  intros e d ci [<- | [<- | []]] [<- | []] [<- | [<- | [<- | []]]];
    vm_compute; lia.
Defined.

(** ** ConfidenceIntervalEngine: the written rasters *)

Section CellProps.
Import Confidence PixelBounds Broadcast.
Local Open Scope R_scope.

Lemma round_f32_nonpos z : (z <= 0)%Z -> (round_f32 z <= 0)%Z.
Proof.
  intros Hz. unfold round_f32.
  destruct (Z.abs z <? 2 ^ 24)%Z eqn:E; [exact Hz|].
  apply Z.ltb_ge in E.
  assert (Hneg : (z < 0)%Z) by lia.
  rewrite (Z.sgn_neg z Hneg).
  set (e := (Z.log2 (Z.abs z) - 23)%Z).
  assert (Hp : (0 < 2 ^ e)%Z).
  { apply Z.pow_pos_nonneg; [lia|]. unfold e.
    assert (24 <= Z.log2 (Z.abs z))%Z; [|lia].
    apply Z.log2_le_pow2; lia. }
  assert (Hq : (0 <= Z.abs z / 2 ^ e)%Z) by (apply Z.div_pos; lia).
  assert (Hq' : (0 <= (if (2 * (Z.abs z mod 2 ^ e) <? 2 ^ e)%Z
                       then Z.abs z / 2 ^ e
                       else if (2 ^ e <? 2 * (Z.abs z mod 2 ^ e))%Z
                            then Z.abs z / 2 ^ e + 1
                            else if Z.even (Z.abs z / 2 ^ e)
                                 then Z.abs z / 2 ^ e
                                 else Z.abs z / 2 ^ e + 1))%Z).
  { repeat match goal with |- context [if ?c then _ else _] =>
                             destruct c end; lia. }
  nia.
Qed.

(** A missing cell is not-a-number once read, masked and rescaled. *)
Lemma read_missing (c : cell) :
  missing c ->
  mask_and_scale (match c with
                  | NaN => None
                  | Val z => Some (IZR (round_f32 z))
                  end) = None.
Proof.
  destruct c as [|z]; [reflexivity|]. simpl. intros Hz.
  unfold mask_and_scale.
  destruct (Rle_dec (IZR (round_f32 z)) 0) as [_ | N]; [reflexivity|].
  exfalso. apply N. apply (IZR_le _ 0). now apply round_f32_nonpos.
Qed.

Variable erfinv : R -> R.

Lemma bounds_missing (rast rast_l rast_u : Raster) (i j : nat) :
  r_height rast_l = r_height rast -> r_width rast_l = r_width rast ->
  r_height rast_u = r_height rast -> r_width rast_u = r_width rast ->
  (i < r_height rast)%nat -> (j < r_width rast)%nat ->
  missing (r_data rast i j) \/ missing (r_data rast_l i j)
  \/ missing (r_data rast_u i j) ->
  exists pp pm,
    bounds erfinv (map_array mask_and_scale (read_band rast))
                  (map_array mask_and_scale (read_band rast_l))
                  (map_array mask_and_scale (read_band rast_u)) = Ok (pp, pm)
    /\ shape pp = (r_height rast, r_width rast)
    /\ shape pm = (r_height rast, r_width rast)
    /\ at_ pp i j = None /\ at_ pm i j = None.
Proof.
  intros Hhl Hwl Hhu Hwu Hi Hj Hmiss.
  unfold bounds, map2_array, map_array, read_band. cbn [shape fst snd at_].
  rewrite Hhl, Hwl, Hhu, Hwu. unfold bdim.
  repeat (rewrite !Nat.eqb_refl; cbn [bind shape fst snd at_]).
  do 2 eexists. split; [reflexivity|]. cbn [shape at_].
  split; [reflexivity|]. split; [reflexivity|].
  rewrite !(bidx_id _ i Hi), !(bidx_id _ j Hj).
  destruct Hmiss as [H | [H | H]]; rewrite (read_missing _ H);
    cbn [np_log lift1 lift2 option_map];
    repeat match goal with
           | |- context [np_log ?x] => destruct (np_log x)
           end; split; reflexivity.
Qed.

(** X22: missing values stay missing.  On three readable rasters of one
    shape, at a position where the base, the lower or the upper raster holds
    not-a-number or a value that is not positive (the nodata value of the
    publisher's grids is one), both written outputs hold their nodata
    value: not-a-number cast to the data type of the file. *)
Theorem missing_cells_give_nodata (f : folder) (b u l : string) (w : World)
    (rast rast_u rast_l : Raster) (i j : nat) :
  dir_lookup b (listing (folder_dir f w)) = Some (RasterFile rast) ->
  dir_lookup u (listing (folder_dir f w)) = Some (RasterFile rast_u) ->
  dir_lookup l (listing (folder_dir f w)) = Some (RasterFile rast_l) ->
  r_height rast_u = r_height rast -> r_width rast_u = r_width rast ->
  r_height rast_l = r_height rast -> r_width rast_l = r_width rast ->
  (i < r_height rast)%nat -> (j < r_width rast)%nat ->
  missing (r_data rast i j) \/ missing (r_data rast_l i j)
  \/ missing (r_data rast_u i j) ->
  exists plus minus w',
    compute_1pct_plus_and_minus erfinv f b u l w = (w', Ok tt)
    /\ dir_lookup (stem b ++ "_plus.asc") (listing (folder_dir f w'))
       = Some (RasterFile plus)
    /\ dir_lookup (stem b ++ "_minus.asc") (listing (folder_dir f w'))
       = Some (RasterFile minus)
    /\ r_nodata plus = Some (cast_cell (is_int32 rast) NaN)
    /\ r_nodata minus = Some (cast_cell (is_int32 rast) NaN)
    /\ Some (r_data plus i j) = r_nodata plus
    /\ Some (r_data minus i j) = r_nodata minus.
Proof.
  intros Hb Hu Hl Hhu Hwu Hhl Hwl Hi Hj Hmiss.
  destruct (bounds_missing rast rast_l rast_u i j Hhl Hwl Hhu Hwu Hi Hj Hmiss)
    as [pp [pm [Hbounds [Spp [Spm [Hp Hm]]]]]].
  destruct (compute_outputs erfinv f b u l w rast rast_u rast_l pp pm
              Hb Hu Hl Hbounds) as [w' [Hrun [Hplus Hminus]]].
  exists (band_raster rast pp), (band_raster rast pm), w'.
  split; [exact Hrun|]. split; [exact Hplus|]. split; [exact Hminus|].
  rewrite !band_raster_cell by assumption. rewrite Hp, Hm.
  repeat split.
Qed.

Lemma bdim_clash a b : clash a b -> bdim a b = None.
Proof.
  intros [H1 [H2 H3]]. unfold bdim.
  apply Nat.eqb_neq in H1, H2, H3. now rewrite H1, H2, H3.
Qed.

(** X24: shapes that numpy cannot broadcast.  When the three rasters open
    but the base and the lower raster, or the upper and the base raster,
    differ along an axis on which neither has length 1,
    [compute_1pct_plus_and_minus] raises the [ValueError] of numpy, having
    logged it and written nothing. *)
Theorem unbroadcastable_shapes_raise (f : folder) (b u l : string) (w : World)
    (rast rast_u rast_l : Raster) :
  dir_lookup b (listing (folder_dir f w)) = Some (RasterFile rast) ->
  dir_lookup u (listing (folder_dir f w)) = Some (RasterFile rast_u) ->
  dir_lookup l (listing (folder_dir f w)) = Some (RasterFile rast_l) ->
  clash (r_height rast) (r_height rast_l)
  \/ clash (r_width rast) (r_width rast_l)
  \/ clash (r_height rast_u) (r_height rast)
  \/ clash (r_width rast_u) (r_width rast) ->
  compute_1pct_plus_and_minus erfinv f b u l w
  = (log (LogError "Error in confidence interval computation") w,
     Raise (ValueError "operands could not be broadcast together")).
Proof.
  intros Hb Hu Hl Hclash.
  assert (Hbounds :
            bounds erfinv (map_array mask_and_scale (read_band rast))
                   (map_array mask_and_scale (read_band rast_l))
                   (map_array mask_and_scale (read_band rast_u))
            = Raise (ValueError "operands could not be broadcast together")).
  { unfold bounds, map2_array at 1, map_array, read_band.
    cbn [shape fst snd at_].
    destruct (bdim (r_height rast) (r_height rast_l)) as [h1|] eqn:E1;
      [|reflexivity].
    destruct (bdim (r_width rast) (r_width rast_l)) as [w1|] eqn:E2;
      [|reflexivity].
    cbn [bind]. unfold map2_array at 1. cbn [shape fst snd at_].
    destruct (bdim (r_height rast_u) (r_height rast)) as [h2|] eqn:E3;
      [|reflexivity].
    destruct (bdim (r_width rast_u) (r_width rast)) as [w2|] eqn:E4;
      [|reflexivity].
    exfalso.
    destruct Hclash as [H | [H | [H | H]]]; apply bdim_clash in H; congruence. }
  unfold compute_1pct_plus_and_minus, compute_body, Mosaicker.open_raster.
  rewrite Hb, Hl, Hu, Hbounds. reflexivity.
Qed.
End CellProps.

(** The hole of the lower raster at (0, 1): the grids being Int32, both
    outputs hold the minimum of the type there. *)
Lemma missing_cells_give_nodata_witness :
  exists plus minus w',
    Confidence.compute_1pct_plus_and_minus (fun x => x) Confidence.NOAA_grids
      "se100yr24ha.asc" "se100yr24hau.asc" "se100yr24hal.asc" holed_world
    = (w', Ok tt)
    /\ dir_lookup "se100yr24ha_plus.asc" (listing (grids w'))
       = Some (RasterFile plus)
    /\ dir_lookup "se100yr24ha_minus.asc" (listing (grids w'))
       = Some (RasterFile minus)
    /\ r_data plus 0 1 = Val (-2147483648)
    /\ r_data minus 0 1 = Val (-2147483648).
Proof.
  destruct (missing_cells_give_nodata (fun x => x) Confidence.NOAA_grids
              "se100yr24ha.asc" "se100yr24hau.asc" "se100yr24hal.asc"
              holed_world (const_raster 2 3 0 0 1000) flat_upper holed_lower
              0 1 eq_refl eq_refl eq_refl eq_refl eq_refl eq_refl eq_refl
              ltac:(simpl; lia) ltac:(simpl; lia)
              ltac:(right; left; simpl; lia))
    as [plus [minus [w' [H1 [H2 [H3 [H4 [H5 [H6 H7]]]]]]]]].
  exists plus, minus, w'.
  split; [exact H1|]. split; [exact H2|]. split; [exact H3|].
  rewrite H4 in H6. rewrite H5 in H7.
  injection H6 as H6. injection H7 as H7. split; assumption.
Defined.

Lemma unbroadcastable_shapes_raise_witness :
  Confidence.compute_1pct_plus_and_minus (fun x => x) Confidence.NOAA_grids
    "se100yr24ha.asc" "se100yr24hau.asc" "se100yr24hal.asc" tall_world
  = (log (LogError "Error in confidence interval computation") tall_world,
     Raise (ValueError "operands could not be broadcast together")).
Proof.
  apply (unbroadcastable_shapes_raise (fun x => x) Confidence.NOAA_grids
           "se100yr24ha.asc" "se100yr24hau.asc" "se100yr24hal.asc" tall_world
           (const_raster 2 3 0 0 1000) (const_raster 3 3 0 0 1300)
           (const_raster 2 3 0 0 700) eq_refl eq_refl eq_refl).
  right. right. left. unfold Broadcast.clash. simpl. lia.
Defined.

(** ** ConfidenceIntervalEngine: outputs are never taken for inputs *)

Section RereadProps.
Import Confidence Invariants Footprint.

Lemma filter_names_write (p : string -> bool) name file d :
  p name = false ->
  filter p (dir_names (dir_write name file d)) = filter p (dir_names d).
Proof.
  intros Hp. unfold dir_names. induction d as [|[n g] d IH]; simpl.
  - now rewrite Hp.
  - destruct (String.eqb_spec n name) as [E | N]; simpl.
    + reflexivity.
    + now rewrite IH.
Qed.

Lemma reach_next_glob f w w' dur lit :
  reach f w w' -> In lit (role_patterns dur) ->
  next_glob (folder_dir f w') lit = next_glob (folder_dir f w) lit.
Proof.
  intros H Hlit. induction H as [|w' l _ IH|w' name r _ IH Hout];
    [reflexivity | |].
  - rewrite <- IH. destruct f; reflexivity.
  - rewrite <- IH. rewrite folder_dir_write. unfold next_glob.
    cbn [listing]. rewrite !filter_names_write; [reflexivity | |].
    + now apply (output_not_role dur).
    + apply (side_not_role dur); [assumption|]. now exists name.
Qed.

Lemma next_glob_matches d lit name :
  next_glob d lit = Ok name -> Naming.glob_star lit name = true.
Proof.
  unfold next_glob.
  destruct (filter _ _) as [|n ns] eqn:E; [discriminate|].
  intros H. injection H as <-.
  assert (Hin : In n (filter (Naming.glob_star lit) (dir_names (listing d))))
    by (rewrite E; now left).
  apply filter_In in Hin. tauto.
Qed.

Variable erfinv : R -> R.

(** X25: the outputs of the confidence step are never taken for its inputs.
    After [process_confidence_intervals], the glob of every role (base,
    upper, lower) of every duration selects the file it selected before, or
    none as before, and the selected file is unchanged: a second run reads
    what the first run read. *)
Theorem confidence_step_rereads_same_inputs
    (f : folder) (dur_list : list string) (w : World) (dur lit : string) :
  In lit (role_patterns dur) ->
  let w' := fst (process_confidence_intervals erfinv f dur_list w) in
  next_glob (folder_dir f w') lit = next_glob (folder_dir f w) lit
  /\ forall name,
       next_glob (folder_dir f w) lit = Ok name ->
       dir_lookup name (listing (folder_dir f w'))
       = dir_lookup name (listing (folder_dir f w)).
Proof.
  intros Hlit. cbv zeta.
  assert (H : reach f w (fst (process_confidence_intervals erfinv f dur_list w))).
  { unfold process_confidence_intervals.
    apply (reach_trans f w (log (LogInfo "Computing 1% plus/minus grids") w)).
    - apply reach_log, reach_refl.
    - apply durations_loop_reach. }
  split.
  - now apply (reach_next_glob f w _ dur).
  - intros name Hname. apply next_glob_matches in Hname.
    apply (reach_lookup f w _ name H).
    + intros Hout.
      rewrite (output_not_role dur lit name Hlit Hout) in Hname. discriminate.
    + intros Hside.
      rewrite (side_not_role dur lit name Hlit Hside) in Hname. discriminate.
Qed.
End RereadProps.

Lemma confidence_step_rereads_same_inputs_witness :
  Confidence.next_glob
    (mosaic (fst (Confidence.process_confidence_intervals (fun x => x)
                    Confidence.NOAA_grids_mosaic ["06h"; "24h"]
                    one_duration_world))) "100yr24ha.asc"
  = Ok "comb100yr24ha.asc".
Proof.
  destruct (confidence_step_rereads_same_inputs (fun x => x)
              Confidence.NOAA_grids_mosaic ["06h"; "24h"] one_duration_world
              "24h" "100yr24ha.asc") as [H _].
  - simpl. auto.
  - exact H.
Defined.

(** ** The web front end: [validate_inputs] *)

Section FrontendProps.
Import Frontend.

Variable upload : Type.
Variable path_exists : string -> bool.
Variable mkdir : string -> option string.
Variable find_builtin_shapefile : string -> option string.
Variable copy_files_to_single_dir : list upload -> string -> option string.
Variable component_exists : string -> string -> bool.
Variable set_to_list : list string -> list string.

Local Notation "'validate'" :=
  (validate_inputs upload path_exists mkdir find_builtin_shapefile
     copy_files_to_single_dir component_exists set_to_list).
Local Notation "'shapefile_of'" :=
  (shapefile upload find_builtin_shapefile copy_files_to_single_dir).

Lemma validate_fields (i : Inputs upload) :
  let st := shapefile_of (use_builtin_states i) (states_files i)
              "US_States" "US_States" "NOAA Zones" "noaa_zones" in
  let pr := shapefile_of (use_builtin_project i) (prj_area_files i)
              "Project Area" "Project_Area" "Project Area" "project_area" in
  let ev := selection set_to_list (events i) default_events invalid_events in
  let du := selection set_to_list (durations i) default_durations
              invalid_durations in
  validate i
  = mkValidated
      (Nat.eqb (List.length
         (((((base_errors upload path_exists mkdir i ++ snd (fst st))
             ++ snd (fst pr))
            ++ component_errors component_exists (fst (fst st)) (fst (fst pr)))
           ++ snd ev) ++ snd du)%list) 0)
      (((((base_errors upload path_exists mkdir i ++ snd (fst st))
          ++ snd (fst pr))
         ++ component_errors component_exists (fst (fst st)) (fst (fst pr)))
        ++ snd ev) ++ snd du)%list
      (base_dir i) (fst (fst st)) (fst (fst pr)) (fst ev) (fst du)
      (ci_100yr i) (snd st ++ snd pr)%list.
Proof.
  cbv zeta. unfold validate_inputs.
  destruct (shapefile_of (use_builtin_states i) _ _ _ _ _) as [[s e1] t1].
  destruct (shapefile_of (use_builtin_project i) _ _ _ _ _) as [[p e2] t2].
  destruct (selection set_to_list (events i) _ _) as [el e3].
  destruct (selection set_to_list (durations i) _ _) as [dl e4].
  reflexivity.
Qed.

Lemma shapefile_clean use_builtin files folder shown title label :
  snd (fst (shapefile_of use_builtin files folder shown title label)) = [] ->
  exists s, fst (fst (shapefile_of use_builtin files folder shown title label))
            = Some s /\ s <> "".
Proof.
  unfold shapefile. destruct use_builtin.
  - destruct (find_builtin_shapefile folder) as [s|]; cbn [truthy].
    + destruct (String.eqb_spec s ""); cbn; [discriminate|].
      intros _. now exists s.
    + cbn. discriminate.
  - destruct files as [[|f fs]|]; cbn; try discriminate.
    destruct (copy_files_to_single_dir (f :: fs) label) as [s|];
      [|cbn; discriminate].
    destruct (String.eqb_spec s ""); cbn; [discriminate|].
    intros _. now exists s.
Qed.

Lemma selection_clean chosen valid_set message :
  (forall x, In x (set_to_list valid_set) -> In x valid_set) ->
  snd (selection set_to_list chosen valid_set message) = [] ->
  issubset (fst (selection set_to_list chosen valid_set message)) valid_set
  = true.
Proof.
  intros Hset. unfold selection. destruct (str_in "all" chosen); cbn [fst snd].
  - intros _. apply issubset_spec. intros x. apply Hset.
  - destruct (issubset chosen valid_set); [reflexivity | discriminate].
Qed.

Lemma component_errors_clean s p :
  component_errors component_exists (Some s) (Some p) = [] ->
  s <> "" -> p <> "" ->
  forall ext, In ext [".shp"; ".shx"; ".dbf"] ->
    component_exists s ext = true /\ component_exists p ext = true.
Proof.
  intros H Hs Hp. unfold component_errors in H. cbn [truthy] in H.
  destruct (String.eqb_spec s ""); [contradiction|].
  destruct (String.eqb_spec p ""); [contradiction|].
  cbn in H.
  destruct (component_exists s ".shp") eqn:E1; [|discriminate H].
  destruct (component_exists s ".shx") eqn:E2; [|discriminate H].
  destruct (component_exists s ".dbf") eqn:E3; [|discriminate H].
  destruct (component_exists p ".shp") eqn:E4; [|discriminate H].
  destruct (component_exists p ".shx") eqn:E5; [|discriminate H].
  destruct (component_exists p ".dbf") eqn:E6; [|discriminate H].
  intros ext [<- | [<- | [<- | []]]]; split; assumption.
Qed.

(** X26: inputs the front end accepts satisfy the conditions the core tests
    at entry.  When [validate_inputs] answers valid, the event and duration
    lists it hands on are subsets of the configured enumerations (so
    [process_grids] does not reject them), the base directory is not empty,
    both shapefile paths are set, and the [.shp], [.shx] and [.dbf]
    components of both were found. *)
Theorem accepted_inputs_pass_entry_checks (i : Inputs upload) :
  (forall l x, In x (set_to_list l) -> In x l) ->
  valid (validate i) = true ->
  issubset (event_list (validate i)) (VALID_EVENTS default_config) = true
  /\ issubset (dur_list (validate i)) (VALID_DURATIONS default_config) = true
  /\ v_base_dir (validate i) <> ""
  /\ exists s p,
       states_shp_path (validate i) = Some s
       /\ prj_area_shp_path (validate i) = Some p
       /\ s <> "" /\ p <> ""
       /\ forall ext, In ext [".shp"; ".shx"; ".dbf"] ->
            component_exists s ext = true /\ component_exists p ext = true.
Proof.
  intros Hset. rewrite validate_fields. cbv zeta. cbn [valid event_list dur_list
    v_base_dir states_shp_path prj_area_shp_path].
  intros Hv. apply Nat.eqb_eq, length_zero_iff_nil in Hv.
  apply app_eq_nil in Hv as [Hv Hdu]. apply app_eq_nil in Hv as [Hv Hev].
  apply app_eq_nil in Hv as [Hv Hco]. apply app_eq_nil in Hv as [Hv Hpr].
  apply app_eq_nil in Hv as [Hba Hst].
  apply shapefile_clean in Hst as [s [Hs Hsn]].
  apply shapefile_clean in Hpr as [p [Hp Hpn]].
  rewrite Hs, Hp in Hco.
  split; [|split; [|split]].
  - apply selection_clean; [apply Hset | exact Hev].
  - apply selection_clean; [apply Hset | exact Hdu].
  - unfold base_errors in Hba. intros E. rewrite E in Hba. discriminate Hba.
  - exists s, p. repeat (split; [assumption|]).
    now apply component_errors_clean.
Qed.

Lemma shapefile_temp use_builtin files folder shown title label p :
  In p (snd (shapefile_of use_builtin files folder shown title label)) <->
  use_builtin = false /\ p <> ""
  /\ exists f fs, files = Some (f :: fs)
                  /\ copy_files_to_single_dir (f :: fs) label = Some p.
Proof.
  unfold shapefile. destruct use_builtin.
  - split.
    + destruct (truthy _); cbn; tauto.
    + intros [H _]. discriminate H.
  - destruct files as [[|f fs]|]; cbn [snd].
    + split; [intros [] | intros (_ & _ & f & fs & H & _); discriminate H].
    + destruct (copy_files_to_single_dir (f :: fs) label) as [s|] eqn:Ec.
      * destruct (String.eqb_spec s "") as [-> | Hn]; cbn [snd In].
        -- split; [tauto|].
           intros (_ & Hp & f' & fs' & Hf & Hc). injection Hf as <- <-.
           rewrite Ec in Hc. injection Hc as <-. now apply Hp.
        -- split.
           ++ intros [<- | []]. repeat split; [exact Hn|].
              exists f, fs. now split.
           ++ intros (_ & _ & f' & fs' & Hf & Hc). injection Hf as <- <-.
              rewrite Ec in Hc. injection Hc as <-. now left.
      * cbn [snd In]. split; [tauto|].
        intros (_ & _ & f' & fs' & Hf & Hc). injection Hf as <- <-.
        rewrite Ec in Hc. discriminate Hc.
    + split; [intros [] | intros (_ & _ & f & fs & H & _); discriminate H].
Qed.

(** X28: the paths [validate_inputs] registers for clean-up are exactly the
    shapefiles it copied from uploads, whether the inputs are valid or not.
    A built-in shapefile is never registered, so the clean-up, which removes
    the folder of each registered path, is never handed a built-in one. *)
Theorem temp_paths_are_the_copied_uploads (i : Inputs upload) (p : string) :
  In p (temp_paths (validate i)) <->
  (use_builtin_states i = false /\ p <> ""
   /\ exists f fs, states_files i = Some (f :: fs)
        /\ copy_files_to_single_dir (f :: fs) "noaa_zones" = Some p)
  \/ (use_builtin_project i = false /\ p <> ""
      /\ exists f fs, prj_area_files i = Some (f :: fs)
           /\ copy_files_to_single_dir (f :: fs) "project_area" = Some p).
Proof.
  rewrite validate_fields. cbv zeta. cbn [temp_paths].
  rewrite in_app_iff, !shapefile_temp. reflexivity.
Qed.
End FrontendProps.

Lemma accepted_inputs_pass_entry_checks_witness :
  issubset (Frontend.event_list (ui_validate ui_inputs)) default_events = true.
Proof.
  destruct (accepted_inputs_pass_entry_checks string (fun _ => true)
              (fun _ => None) ui_builtin ui_copy (fun _ _ => true)
              (fun l => rev l) ui_inputs) as [H _].
  - intros l x Hx. now apply in_rev.
  - reflexivity.
  - exact H.
Defined.

Lemma temp_paths_are_the_copied_uploads_witness :
  In "/tmp/project_area_k3/area.shp"
     (Frontend.temp_paths (ui_validate ui_inputs)).
Proof.
  apply (proj2 (temp_paths_are_the_copied_uploads string (fun _ => true)
                  (fun _ => None) ui_builtin ui_copy (fun _ _ => true)
                  (fun l => rev l) ui_inputs
                  "/tmp/project_area_k3/area.shp")).
  right. split; [reflexivity | split; [discriminate|]].
  exists "area.shp", ["area.shx"; "area.dbf"]. split; reflexivity.
Defined.
